(** * The CSV import pipeline of pkg/ccl/sqlccl/csv.go

    A shallow embedding of the stages of the CSV-to-backup transformation
    (reader, sorter/writer, finalizer), of the table-descriptor check, of
    the distributed sampler and of the result row of IMPORT, with the
    properties the specification states about them.

    Conventions.
    - Go's [int] and [int64] are [Z]; the counters of the code count the
      elements of in-memory lists and are not wrapped.
    - A [[]byte] is a [list byte]; where the code tests a slice against
      [nil] the slice is an [option (list byte)] and [None] is [nil].
    - An [error] keeps the structure pkg/errors gives it; [Error] is its
      message.
    - A channel is the list of the values sent on it, oldest first.
    - A [context.Context] is seen through the answers to the successive
      polls of [ctx.Done()] made by one goroutine.
    - What lives outside csv.go (the storage engine, the export storage,
      the SQL layer, encoding/csv, fmt's verbs for foreign types) is a
      [Variable] of the section that uses it, or a small model whose
      comment says where it comes from. *)

From Stdlib Require Import ZArith List Strings.String Strings.Ascii Strings.Byte Bool Lia.
From Stdlib Require Import Numbers.DecimalString.
From Stdlib Require Import Sorting.Permutation Sorting.Sorted.
From Stdlib Require Import Floats.PrimFloat Numbers.Cyclic.Int63.Uint63.
Import ListNotations.

Local Open Scope Z_scope.
Local Open Scope list_scope.

(** ** Errors (github.com/pkg/errors) *)

Inductive error : Type :=
| errNew (msg : string)                    (* errors.New, errors.Errorf *)
| errWrap (cause : error) (msg : string).  (* errors.Wrap, errors.Wrapf *)

(** [err.Error()]: a wrapped error prints its message, a colon and its
    cause. *)
Fixpoint Error (e : error) : string :=
  match e with
  | errNew msg => msg
  | errWrap cause msg => (msg ++ ": " ++ Error cause)%string
  end.

Inductive result (A : Type) : Type :=
| Ok (a : A)
| Err (e : error).
Arguments Ok {A} a.
Arguments Err {A} e.

(** ** fmt *)

(** The verb [%d]. *)
Definition fmt_d (z : Z) : string := NilZero.string_of_int (Z.to_int z).

(** [len] of a slice. *)
Definition len {A : Type} (l : list A) : Z := Z.of_nat (List.length l).

(** [strings.Contains msg sub], used to say what a message mentions. *)
Fixpoint contains (sub msg : string) : bool :=
  String.prefix sub msg ||
  match msg with
  | EmptyString => false
  | String _ rest => contains sub rest
  end.

(** ** A state and error monad

    A Go function that returns [(T, error)] and acts on a channel or a
    store is a function from the state of what it acts on to a result and
    the state it leaves: what was sent or written before an error stays. *)

Definition M (S A : Type) : Type := S -> result A * S.

Definition ret {S A : Type} (a : A) : M S A := fun s => (Ok a, s).

Definition fail {S A : Type} (e : error) : M S A := fun s => (Err e, s).

Definition bind {S A B : Type} (m : M S A) (k : A -> M S B) : M S B :=
  fun s =>
    match m s with
    | (Ok a, s') => k a s'
    | (Err e, s') => (Err e, s')
    end.

Definition lift {S A : Type} (r : result A) : M S A := fun s => (r, s).

Definition modify {S : Type} (f : S -> S) : M S unit := fun s => (Ok tt, f s).

(** A computation that leaves the state as it is. *)
Definition pure {S A : Type} (m : M S A) : Prop :=
  forall s res s', m s = (res, s') -> s' = s.

Declare Scope go_scope.
Delimit Scope go_scope with go.
Notation "x <- m ;; k" := (bind m (fun x => k))
  (at level 100, m at next level, right associativity) : go_scope.
Notation "m ;;; k" := (bind m (fun _ => k))
  (at level 100, right associativity) : go_scope.
Local Open Scope go_scope.

(** ** context.Context

    [ctx n] is what the [n]-th poll of [ctx.Done()] by the goroutine finds:
    [None] when the context is not done (or the [select] took its other
    case), [Some e] when it is, with [e] the value of [ctx.Err()]. *)

Definition Context : Type := nat -> option error.

Definition background : Context := fun _ => None.

(** ** Records and the state of the reader *)

Record csvRecord : Type := mkCsvRecord {
  r : list string;
  file : string;
  row : Z;
}.

Record readerState : Type := mkReaderState {
  recordCh : list csvRecord;   (* what was sent on recordCh *)
  count : Z;                   (* var count int64 *)
  readerPolls : nat;           (* polls of ctx.Done() so far *)
}.

(** ** Table definitions and descriptors *)

(** The parts of parser.CreateTable and of its definitions that the file
    reads or hands on. A pointer that may be nil is an [option]. *)
Inductive TableDef : Type :=
| ColumnTableDef (name typ : string) (defaultExpr : option string)
    (references : option string)
| IndexTableDef (name : string) (columns : list string)
| ForeignKeyConstraintTableDef (name : string) (fromCols : list string)
    (table : string) (toCols : list string).

Record CreateTable : Type := mkCreateTable {
  IfNotExists : bool;
  Table : string;
  Interleave : option string;    (* *parser.InterleaveDef *)
  Defs : list TableDef;
  AsSource : option string;      (* *parser.Select *)
}.

(** Whether a CREATE TABLE statement declares a foreign key, on a column
    or as a table constraint. *)
Definition declaresForeignKey (create : CreateTable) : bool :=
  existsb (fun d =>
             match d with
             | ColumnTableDef _ _ _ (Some _) => true
             | ForeignKeyConstraintTableDef _ _ _ _ => true
             | _ => false
             end) (Defs create).

(** The parts of sqlbase.ColumnDescriptor and sqlbase.TableDescriptor that
    the file reads. *)
Record ColumnDescriptor : Type := mkColumnDescriptor {
  colName : string;
  colID : Z;
  colType : string;
  DefaultExpr : option string;   (* *string *)
  Hidden : bool;
}.

Record TableDescriptor : Type := mkTableDescriptor {
  tableName : string;
  tableID : Z;
  tableParentID : Z;
  Columns : list ColumnDescriptor;
  PrimaryIndexColumnIDs : list Z;
}.

(** Modelled from the spec: sqlbase's [TableDescriptor.VisibleColumns] is
    not in csv.go; the spec's data model gives the descriptor a
    visible-column list and keeps default expressions for hidden columns:
    the visible columns are the columns that are not hidden, in order. *)
Definition VisibleColumns (desc : TableDescriptor) : list ColumnDescriptor :=
  filter (fun c => negb (Hidden c)) (Columns desc).

(** ** Keys, values and the storage engine's interfaces *)

Definition bytes : Type := list byte.

(** [bytes.Compare]: the order of keys. *)
Fixpoint bytes_compare (a b : bytes) : comparison :=
  match a, b with
  | [], [] => Eq
  | [], _ :: _ => Lt
  | _ :: _, [] => Gt
  | x :: a', y :: b' =>
      match N.compare (Byte.to_N x) (Byte.to_N y) with
      | Eq => bytes_compare a' b'
      | c => c
      end
  end.

Definition bytes_eqb (a b : bytes) : bool :=
  match bytes_compare a b with Eq => true | _ => false end.

Definition bytes_ltb (a b : bytes) : bool :=
  match bytes_compare a b with Lt => true | _ => false end.

(** A [roachpb.Key] that may be [nil]. *)
Definition Key : Type := option bytes.

Definition keyBytes (k : Key) : bytes :=
  match k with Some b => b | None => [] end.

(** [roachpb.Key.Equal] is [bytes.Equal]: a nil key equals an empty one. *)
Definition Key_Equal (a b : Key) : bool := bytes_eqb (keyBytes a) (keyBytes b).

(** Modelled from the spec: [roachpb.Key.Next] is not in csv.go; the spec
    ends a span at [lastAddedKey.next()], the first key after it in the
    order of keys: the key followed by a zero byte. *)
Definition Key_Next (k : bytes) : bytes := k ++ [x00].

Record Timestamp : Type := mkTimestamp {   (* hlc.Timestamp *)
  WallTime : Z;
  Logical : Z;
}.

Record Value : Type := mkValue {           (* roachpb.Value *)
  RawBytes : bytes;
  valueTimestamp : Timestamp;
}.

Record KeyValue : Type := mkKeyValue {     (* roachpb.KeyValue *)
  kvKey : bytes;
  kvValue : Value;
}.

Record MVCCKey : Type := mkMVCCKey {       (* engine.MVCCKey *)
  mvccKey : bytes;
  mvccTimestamp : Timestamp;
}.

Record MVCCKeyValue : Type := mkMVCCKeyValue {  (* engine.MVCCKeyValue *)
  mvKey : MVCCKey;
  mvValue : bytes;
}.

Record Span : Type := mkSpan {             (* roachpb.Span *)
  spanKey : Key;
  spanEndKey : bytes;
}.

Record sstContent : Type := mkSstContent {
  data : bytes;
  size : Z;
  span : Span;
}.

(** engine.RocksDBSstFileWriter as csv.go uses it: [Add], the field
    [DataSize] and [Finish]. [Close] frees memory and has no counterpart
    here. *)
Class SstFileWriter (W : Type) : Type := {
  sstAdd : W -> MVCCKeyValue -> result W;
  sstDataSize : W -> Z;
  sstFinish : W -> result bytes;
}.

(** Modelled from the spec: engine.RocksDBMultiMap is not in csv.go. The
    spec has a multi-map keyed by raw key bytes that takes inserts in any
    order and, once its write phase is closed, is iterated in sorted
    order. Entries are kept in insertion order; the iteration is their
    stable sort by key, so that entries under one key stay, next to each
    other. The errors of the store are parameters of the writer. *)
Module RocksDBMultiMap.

Definition t : Type := list (bytes * bytes).

Definition empty : t := [].

Definition Put (m : t) (k v : bytes) : t := m ++ [(k, v)].

Fixpoint insert (e : bytes * bytes) (sorted : list (bytes * bytes))
  : list (bytes * bytes) :=
  match sorted with
  | [] => [e]
  | x :: rest =>
      if bytes_ltb (fst e) (fst x) then e :: x :: rest
      else x :: insert e rest
  end.

(** What [Rewind], [Valid], [Next] visit, as (key, value) pairs. *)
Definition iterate (m : t) : list (bytes * bytes) :=
  fold_left (fun sorted e => insert e sorted) m [].

End RocksDBMultiMap.

(** ** A reference SST writer

    Modelled from the spec: engine.RocksDBSstFileWriter is not in csv.go.
    The spec has an SST be a sorted key/value file, has its builder carry
    a byte size, and has [Add] fail on a duplicate key. The writer keeps
    the entries added; [Add] refuses an entry whose MVCC key does not
    come after the last one added (by key, then newer timestamp first);
    the size is the sum of the lengths of the keys and values given to
    [Add]; [Finish] gives the bytes of the entries, one after the
    other. *)

Record memSst : Type := mkMemSst {
  memEntries : list MVCCKeyValue;
  memDataSize : Z;
}.

Definition timestampLess (a b : Timestamp) : bool :=
  (WallTime a <? WallTime b)
  || ((WallTime a =? WallTime b) && (Logical a <? Logical b)).

Definition mvccLess (a b : MVCCKey) : bool :=
  match bytes_compare (mvccKey a) (mvccKey b) with
  | Lt => true
  | Gt => false
  | Eq => timestampLess (mvccTimestamp b) (mvccTimestamp a)
  end.

Definition memAdd (w : memSst) (kv : MVCCKeyValue) : result memSst :=
  let w' := mkMemSst (memEntries w ++ [kv])
              (memDataSize w + len (mvccKey (mvKey kv)) + len (mvValue kv)) in
  match memEntries w with
  | [] => Ok w'
  | e :: rest =>
      if mvccLess (mvKey (last rest e)) (mvKey kv) then Ok w'
      else Err (errNew "Keys must be added in order")
  end.

Definition memFinish (w : memSst) : result bytes :=
  Ok (flat_map (fun kv => mvccKey (mvKey kv) ++ mvValue kv) (memEntries w)).

#[global] Instance memSstFileWriter : SstFileWriter memSst := {
  sstAdd := memAdd;
  sstDataSize := memDataSize;
  sstFinish := memFinish;
}.

Definition newMemSst : memSst := mkMemSst [] 0.

(** ** The state of the sorter and writer *)

Record writerState : Type := mkWriterState {
  contentCh : list sstContent;   (* what was sent on contentCh *)
  sstAdds : list MVCCKeyValue;   (* the arguments of the calls of sst.Add *)
  writerPolls : nat;             (* polls of ctx.Done() so far *)
}.

(** The variables of the loop of lines 519-557. *)
Record writerVars (W : Type) : Type := mkWriterVars {
  v_sst : W;
  v_kv : MVCCKeyValue;
  v_firstKey : Key;
  v_lastKey : Key;
  v_count : Z;
}.
Arguments mkWriterVars {W}.
Arguments v_sst {W}.
Arguments v_kv {W}.
Arguments v_firstKey {W}.
Arguments v_lastKey {W}.
Arguments v_count {W}.

Definition errSSTCreationMaybeDuplicate (key : string) : string :=
  ("SST creation error at " ++ key
   ++ "; this can happen when a primary or unique index has duplicate keys")%string.

(** ** Backup descriptors and the export storage *)

Record BackupDescriptor_File : Type := mkBackupFile {
  Path : string;
  fileSpan : Span;
  Sha512 : bytes;
}.

Inductive Descriptor : Type :=             (* sqlbase.Descriptor *)
| DatabaseDescriptor (name : string) (id : Z)
| WrapTable (desc : TableDescriptor).

Record BackupDescriptor : Type := mkBackupDescriptor {
  EndTime : Timestamp;
  Files : list BackupDescriptor_File;
  EntryCounts_DataSize : Z;
  Spans : list Span;
  Descriptors : list Descriptor;
  FormatVersion : Z;
  BuildInfo : string;
  NodeID : Z;
  ClusterID : string;
}.

(** The zero value with the given end time, as lines 577-579 build it. *)
Definition newBackupDescriptor (walltime : Z) : BackupDescriptor :=
  mkBackupDescriptor (mkTimestamp walltime 0) [] 0 [] [] 0 "" 0 "".

(** Modelled from the spec: storageccl.ExportStorage is not in csv.go; the
    spec has a storage that is written by name. The store is the list of
    the files written to it, oldest first. *)
Definition ExportStorage : Type := list (string * bytes).

(** The state the finalizer acts on: the destination and the descriptor
    it holds by pointer. *)
Record backupState : Type := mkBackupState {
  es : ExportStorage;
  backupDesc : BackupDescriptor;
}.

Definition csvDatabaseName : string := "csv".

(** Modelled from the spec: the type backupFileDescriptors is not in
    csv.go; the spec sorts the descriptor entries by start key, then end
    key. *)
Definition fileLess (a b : BackupDescriptor_File) : bool :=
  match bytes_compare (keyBytes (spanKey (fileSpan a)))
                      (keyBytes (spanKey (fileSpan b))) with
  | Lt => true
  | Gt => false
  | Eq => bytes_ltb (spanEndKey (fileSpan a)) (spanEndKey (fileSpan b))
  end.

Fixpoint insertFile (f : BackupDescriptor_File)
    (sorted : list BackupDescriptor_File) : list BackupDescriptor_File :=
  match sorted with
  | [] => [f]
  | g :: rest => if fileLess f g then f :: g :: rest else g :: insertFile f rest
  end.

Definition sortFiles (files : list BackupDescriptor_File)
  : list BackupDescriptor_File :=
  fold_left (fun sorted f => insertFile f sorted) files [].

(** ** Statements, datums and the goroutines of the pipeline *)

Record Import : Type := mkImport {         (* parser.Import *)
  importTable : string;
  CreateFile : option string;
  CreateDefs : option (list TableDef);
  FileFormat : string;
}.

Inductive Statement : Type :=              (* parser.Statement *)
| StmtCreateTable (create : CreateTable)
| StmtImport (importStmt : Import)
| StmtOther (tag : string).

Inductive Datum : Type :=                  (* parser.Datum *)
| DInt (i : Z)
| DString (s : string)
| DFloat (f : float)
| DBytes (b : bytes).

(** The four goroutines of doLocalCSVTransform, in the order of their
    [group.Go]. *)
Inductive goroutine : Type := gReader | gConverter | gWriter | gFinalizer.

(** Modelled from the spec: golang.org/x/sync/errgroup is not in csv.go;
    the spec has every task report its error to a shared collector, whose
    wait returns the first non-nil error. [handed] lists the errors in
    the order in which the goroutines handed them to the group. *)
Fixpoint group_Wait (handed : list (option error)) : option error :=
  match handed with
  | [] => None
  | Some err :: _ => Some err
  | None :: rest => group_Wait rest
  end.

(** Go's map lookup [v, ok := opts[k]] on an option map kept as a list of
    bindings. *)
Fixpoint lookup (opts : list (string * string)) (k : string) : option string :=
  match opts with
  | [] => None
  | (k', v) :: rest => if String.eqb k k' then Some v else lookup rest k
  end.

Definition importOptionDelimiter : string := "delimiter".
Definition importOptionComment : string := "comment".
Definition importOptionDistributed : string := "distributed".
Definition importOptionNullIf : string := "nullif".
Definition importOptionTransformOnly : string := "transform_only".
Definition importOptionSSTSize : string := "sstsize".
Definition importOptionTemp : string := "temp".

(** Modelled from the spec: jobs.StatusSucceeded is not in csv.go; the
    spec's return row has the status "succeeded". *)
Definition StatusSucceeded : string := "succeeded".

(** What lines 730-815 of the plan hook's function leave in its
    variables. *)
Record importArgs : Type := mkImportArgs {
  a_opts : list (string * string);
  a_files : list string;
  a_transformOnly : bool;
  a_targetDB : string;
  a_comma : Z;
  a_comment : Z;
  a_nullif : option string;
  a_temp : string;
  a_sstSize : Z;
  a_create : CreateTable;
}.

(** ** The state of the sampler *)

Record samplerState : Type := mkSamplerState {
  sampleCh : list (bytes * bytes);  (* the rows sent on sampleCh *)
  draws : nat;                      (* calls of rnd.Float64() so far *)
  samplerPolls : nat;               (* polls of ctx.Done() so far *)
}.

Record sampleRate : Type := mkSampleRate {
  sampleSize : float;
}.

(** [float64(n)] for an integer. *)
Definition float64 (n : Z) : float :=
  if n <? 0 then PrimFloat.opp (PrimFloat.of_uint63 (Uint63.of_Z (- n)))
  else PrimFloat.of_uint63 (Uint63.of_Z n).

(** ** The converter: its datums, its state and its outcomes *)

(** An element of the slice [datums]: nil, as [make] leaves it, DNull, or
    a parsed value. *)
Inductive rowDatum : Type := nilDatum | DNull | parsed (d : Datum).

Record converterState : Type := mkConverterState {
  kvCh : list KeyValue;          (* what was sent on kvCh *)
  converterPolls : nat;          (* polls of ctx.Done() so far *)
}.

(** A call that returns, or panics on an index out of range. *)
Inductive outcome (A : Type) : Type :=
| Returned (a : A)
| Panicked.
Arguments Returned {A} a.
Arguments Panicked {A}.

(** [datums[i] = d]; [None] when [i] is out of range. *)
Fixpoint setDatum (datums : list rowDatum) (i : nat) (d : rowDatum)
  : option (list rowDatum) :=
  match datums, i with
  | [], _ => None
  | _ :: rest, O => Some (d :: rest)
  | x :: rest, S i' =>
      match setDatum rest i' d with
      | Some rest' => Some (x :: rest')
      | None => None
      end
  end.

(** ** The SST writer processor: its rows and its state *)

(** distsqlrun.ConsumerStatus, as EmitRow returns it. *)
Inductive ConsumerStatus : Type := NeedMoreRows | DrainRequested | ConsumerClosed.

(** A row of the processor's input. Its columns are of type BYTES
    (csvOutputTypes, lines 990-993): a datum decodes with an error, or to
    the bytes it holds. *)
Definition EncDatumRow : Type := list (result bytes).

(** A row of the processor's output (sstOutputTypes, lines 1134-1140): the
    name of the file, its size, its checksum and the two ends of its span. *)
Definition sstRow : Type := string * Z * bytes * bytes * bytes.

Record sstWriterState : Type := mkSstWriterState {
  swStore : ExportStorage;       (* the destination *)
  swAdds : list MVCCKeyValue;    (* the arguments of the calls of sst.Add *)
  swOut : list sstRow;           (* the rows given to EmitRow *)
}.

(** The variables of the loop of lines 1239-1254. *)
Record sstWriterVars (W : Type) : Type := mkSstWriterVars {
  sw_sst : W;
  sw_firstKey : Key;
  sw_lastKey : Key;
}.
Arguments mkSstWriterVars {W}.
Arguments sw_sst {W}.
Arguments sw_firstKey {W}.
Arguments sw_lastKey {W}.

(** ** The description of the import job (importJobDescription, lines 651-689) *)

(** The map of lines 59-67; a key that is not in it gives false. *)
Definition importOptionExpectValues (k : string) : bool :=
  if String.eqb k importOptionDelimiter then true
  else if String.eqb k importOptionComment then true
  else if String.eqb k importOptionDistributed then false
  else if String.eqb k importOptionNullIf then true
  else if String.eqb k importOptionTransformOnly then false
  else if String.eqb k importOptionSSTSize then true
  else if String.eqb k importOptionTemp then true
  else false.

Record KVOption : Type := mkKVOption {     (* parser.KVOption *)
  optKey : string;
  optValue : option string;                (* nil when the option has no value *)
}.

(** Go's [<] on strings: the order of their bytes. *)
Definition string_ltb (a b : string) : bool :=
  bytes_ltb (list_byte_of_string a) (list_byte_of_string b).

(** [sort.Slice] by key: the options in the order of their keys. Options
    with the same key, which a Go map cannot give, stay in the order in
    which they come. *)
Fixpoint insertOption (o : KVOption) (sorted : list KVOption) : list KVOption :=
  match sorted with
  | [] => [o]
  | x :: rest =>
      if string_ltb (optKey o) (optKey x) then o :: x :: rest
      else x :: insertOption o rest
  end.

Definition sortOptions (options : list KVOption) : list KVOption :=
  fold_left (fun sorted o => insertOption o sorted) options [].

Module JobDescription.
Section Sanitized.

(** [storageccl.SanitizeExportStorageURI], and [parser.AsStringWithFlags]
    with FmtSimpleQualified on the statement of line 688, given with its
    files and its options. *)
Variable SanitizeExportStorageURI : string -> result string.
Variable AsStringWithFlags : Import -> list string -> list KVOption -> string.

(** Lines 658-664. *)
Fixpoint cleanFiles (files : list string) : result (list string) :=
  match files with
  | [] => Ok []
  | file :: rest =>
      match SanitizeExportStorageURI file with
      | Err err => Err err
      | Ok clean =>
          match cleanFiles rest with
          | Err err => Err err
          | Ok rest' => Ok (clean :: rest')
          end
      end
  end.

(** Lines 667-683: the loop over the map of options, which [opts] lists in
    the order in which the loop meets them. *)
Fixpoint kvOptions (opts : list (string * string)) (options : list KVOption)
    (hasTransformOnly : bool) : result (list KVOption * bool) :=
  match opts with
  | [] => Ok (options, hasTransformOnly)
  | (k, v) :: rest =>
      match (if String.eqb k importOptionTemp
             then SanitizeExportStorageURI v else Ok v) with
      | Err err => Err err
      | Ok v =>
          let hasTransformOnly :=
            if String.eqb k importOptionTransformOnly then true
            else hasTransformOnly in
          let opt :=
            mkKVOption k (if importOptionExpectValues k then Some v else None) in
          kvOptions rest (options ++ [opt]) hasTransformOnly
      end
  end.

(** The statement that is printed: [stmt] at line 688, with its files and
    its options. *)
Definition describedStatement (orig : Import) (defs : list TableDef)
    (files : list string) (opts : list (string * string))
  : result (Import * list string * list KVOption) :=
  match cleanFiles files with
  | Err err => Err err
  | Ok files' =>
      match kvOptions opts [] false with
      | Err err => Err err
      | Ok (options, hasTransformOnly) =>
          let options :=
            if negb hasTransformOnly
            then options ++ [mkKVOption importOptionTransformOnly None]
            else options in
          Ok (mkImport (importTable orig) None (Some defs) (FileFormat orig),
              files', sortOptions options)
      end
  end.

Definition importJobDescription (orig : Import) (defs : list TableDef)
    (files : list string) (opts : list (string * string)) : result string :=
  match describedStatement orig defs files opts with
  | Err err => Err err
  | Ok (stmt, files', options) => Ok (AsStringWithFlags stmt files' options)
  end.

End Sanitized.
End JobDescription.

(** ** A reference environment

    Instances of what the pipeline takes from outside csv.go, used to run
    the model on concrete inputs. *)

(** The verb [%q] on a string with nothing to escape: the string between
    double quotes. *)
Definition refQuote (s : string) : string :=
  String (ascii_of_nat 34) (s ++ String (ascii_of_nat 34) EmptyString)%string.

(** The verb [%s] on a key whose bytes are printable. *)
Definition refKeyString (k : bytes) : string := string_of_list_byte k.

(** Modelled from the spec: sql.MakeTableDesc is not in csv.go; the spec
    has it produce a table descriptor with the columns' names and types,
    the primary key's column ids and the default expressions. The
    reference gives one visible column per column definition, in order,
    numbered from 1, and takes the first column as the primary key. *)
Fixpoint refColumns (id : Z) (defs : list TableDef) : list ColumnDescriptor :=
  match defs with
  | [] => []
  | ColumnTableDef name typ defaultExpr _ :: rest =>
      mkColumnDescriptor name id typ defaultExpr false :: refColumns (id + 1) rest
  | _ :: rest => refColumns id rest
  end.

(** Modelled from the spec: the schema error of a foreign key is surfaced
    during descriptor construction (specification, section 7), and
    csv.go leaves it to sql.MakeTableDesc, which it calls without a
    transaction (line 255 only notes the check as to be done): a
    statement that declares a foreign key, on a column or as a
    constraint, is refused. Any other statement gets its descriptor. *)
Definition refMakeTableDesc (create : CreateTable) (parentID tableID walltime : Z)
  : result TableDescriptor :=
  if declaresForeignKey create
  then Err (errNew "foreign keys are not supported: the referenced table cannot be resolved")
  else Ok (mkTableDescriptor (Table create) tableID parentID
             (refColumns 1 (Defs create)) [1]).

(** A store in which every URI holds the same rows, all read without
    error. *)
Definition refOpenCSV (rows : list (list string))
  : string -> Z -> Z -> result (list (result (list string))) :=
  fun _ _ _ => Ok (map Ok rows).

(** A store in which each of the listed URIs holds its rows, all read
    without error, and no other URI opens. *)
Definition refOpenFiles (files : list (string * list (list string)))
  : string -> Z -> Z -> result (list (result (list string))) :=
  fun dataFile _ _ =>
    match find (fun f => String.eqb (fst f) dataFile) files with
    | Some f => Ok (map Ok (snd f))
    | None => Err (errNew "file does not exist")
    end.

(** Modelled from the spec: the encoding of a row into key/value pairs is
    in the SQL layer; the spec has every key determined by the
    primary-key fields of its row. The reference makes one pair of a
    record: the bytes of its first field, the primary key, and the bytes
    of its other fields. *)
Definition refConvertRecords (nullif : option string) (tableDesc : TableDescriptor)
    (records : list csvRecord) : list KeyValue * option error :=
  (map (fun record =>
          mkKeyValue (list_byte_of_string (hd ""%string (r record)))
            (mkValue (list_byte_of_string (String.concat "," (tl (r record))))
               (mkTimestamp 0 0)))
       records,
   None).

(** A SQL layer for columns of type INT: a field parses when it is a
    decimal numeral; the row generated is the datums; a row gives one KV,
    of the numeral of its first datum and the numerals of the others. *)
Definition refParseStringAs (col : ColumnDescriptor) (field : string) : result Datum :=
  match NilZero.uint_of_string field with
  | Some u => Ok (DInt (Z.of_uint u))
  | None => Err (errNew ("could not parse " ++ field)%string)
  end.

Definition refDatumString (d : rowDatum) : string :=
  match d with
  | parsed (DInt i) => fmt_d i
  | _ => "NULL"%string
  end.

Definition refInsertRow (tableDesc : TableDescriptor) (row : list rowDatum)
  : list KeyValue * option error :=
  ([mkKeyValue (list_byte_of_string (refDatumString (hd DNull row)))
      (mkValue (list_byte_of_string (String.concat "," (map refDatumString (tl row))))
         (mkTimestamp 0 0))],
   None).

(** A destination that takes every write, one that refuses the file of
    a given name, and a checksum, a span, a serialization and the
    constants of the descriptor that stand for those of the packages. *)
Definition noWriteErr : ExportStorage -> string -> bytes -> option error :=
  fun _ _ _ => None.

Definition refuseFile (refused : string)
  : ExportStorage -> string -> bytes -> option error :=
  fun _ name _ =>
    if String.eqb name refused then Some (errNew "write refused") else None.

Definition noStorageErr : string -> option error := fun _ => None.

Definition refChecksum : bytes -> result bytes := fun content => Ok (rev content).

Definition refTableSpan : TableDescriptor -> Span :=
  fun _ => mkSpan (Some []) [xff].

Definition refMarshal : BackupDescriptor -> result bytes :=
  fun desc => Ok (flat_map (fun f => list_byte_of_string (Path f)) (Files desc)).

Definition refBackupDescriptorName : string := "BACKUP".

(** The table of the spec's scenarios, [CREATE TABLE t (c1 INT PRIMARY
    KEY, c2 INT)], and its descriptor. *)
Definition refCreate : CreateTable :=
  mkCreateTable false "t" None
    [ColumnTableDef "c1" "INT" None None; ColumnTableDef "c2" "INT" None None]
    None.

Definition refTableDesc : TableDescriptor :=
  mkTableDescriptor "t" 51 50
    [mkColumnDescriptor "c1" 1 "INT" None false;
     mkColumnDescriptor "c2" 2 "INT" None false]
    [1].

(** What the plan hook takes from the planner and the job registry,
    without failures. *)
Definition refParseStatementAt : string -> result Statement :=
  fun _ => Ok (StmtCreateTable refCreate).

Definition refDistLoadCSV
  : list string -> TableDescriptor -> string -> Z -> Z -> option string -> Z ->
    result (list (string * Z * bytes * bytes * bytes)) :=
  fun _ _ _ _ _ _ _ => Ok [].

Definition refGetSingleRune (s : string) : result Z :=
  match s with
  | String c EmptyString => Ok (Z.of_nat (nat_of_ascii c))
  | _ => Err (errNew "must be only one character")
  end.

Definition refParseBytes : string -> result Z := fun _ => Ok 1024.

Definition refJobDescription
  : Import -> list TableDef -> list string -> list (string * string) -> result string :=
  fun _ _ _ _ => Ok "IMPORT"%string.

Definition refRestorePlan : string -> string -> list (list Datum) * option error :=
  fun _ _ => ([], None).

(** The order of [group.Go], and the order in which the finalizer hands
    its error over before the writer does. *)
Definition inOrder : list goroutine := [gReader; gConverter; gWriter; gFinalizer].

Definition finalizerFirst : list goroutine :=
  [gReader; gConverter; gFinalizer; gWriter].

(** ** Duplicate keys: what the properties below speak of *)

(** [a] is not after [b]. *)
Definition bytes_le (a b : bytes) : Prop := bytes_compare a b <> Gt.

(** The error [err] is one of the two duplicate-key errors of the loop,
    for the key [k]. *)
Definition duplicateKeyError (fmt_key : bytes -> string) (k : bytes)
    (err : error) : Prop :=
  err = errNew ("duplicate key: " ++ fmt_key k)%string
  \/ exists cause,
       err = errWrap cause (errSSTCreationMaybeDuplicate (fmt_key k)).

(** No entry has the key of the entry before it. *)
Fixpoint distinctFrom (prev : option bytes) (entries : list (bytes * bytes))
  : Prop :=
  match entries with
  | [] => True
  | e :: rest =>
      (forall p, prev = Some p -> bytes_compare p (fst e) <> Eq)
      /\ distinctFrom (Some (fst e)) rest
  end.

(** The variables of the loop after the entry of key [prev] (or at the
    start): a fresh writer and the last key of the segment before, or a
    writer whose last entry has the key [prev], under the wall time. *)
Definition follows (walltime : Z) (prev : option bytes)
    (v : writerVars memSst) : Prop :=
  Logical (mvccTimestamp (mvKey (v_kv v))) = 0 /\
  match v_firstKey v with
  | None => memEntries (v_sst v) = [] /\ v_lastKey v = prev
  | Some _ =>
      exists e rest,
        memEntries (v_sst v) = e :: rest /\
        prev = Some (mvccKey (mvKey (last rest e))) /\
        mvccTimestamp (mvKey (last rest e)) = mkTimestamp walltime 0
  end.

(** A span that holds a key: its start is before its end. *)
Definition spanNonEmpty (sp : Span) : Prop :=
  bytes_compare (keyBytes (spanKey sp)) (spanEndKey sp) = Lt.

(** The span [a] ends where the span [b] starts, or before. *)
Definition spanBefore (a b : Span) : Prop :=
  bytes_le (spanEndKey a) (keyBytes (spanKey b)).

(** Segments whose spans hold keys, follow one another in the order of
    keys and do not overlap. *)
Definition segmentsInOrder (segs : list sstContent) : Prop :=
  Forall (fun sc => spanNonEmpty (span sc)) segs /\
  LocallySorted (fun a b => spanBefore (span a) (span b)) segs.

(** The variables of the loop after the entry of key [prev] (or at the
    start), with the segments [segs] sent so far: the segments are in
    order, the last key saved is the one that ends the last segment, and
    the first key of the open segment, if any, is after it and not after
    [prev]; a builder without a first key is a fresh one. *)
Definition orderedAt {W : Type} (fresh : result W) (prev : option bytes)
    (v : writerVars W) (segs : list sstContent) : Prop :=
  Logical (mvccTimestamp (mvKey (v_kv v))) = 0 /\
  segmentsInOrder segs /\
  match v_lastKey v with
  | None => segs = []
  | Some k => exists pre sc, segs = pre ++ [sc] /\ spanEndKey (span sc) = Key_Next k
  end /\
  match v_firstKey v with
  | None => fresh = Ok (v_sst v) /\ prev = v_lastKey v
  | Some f =>
      (forall k, v_lastKey v = Some k -> bytes_compare k f = Lt) /\
      exists p, prev = Some p /\ bytes_le f p /\ mvccKey (mvKey (v_kv v)) = p
  end.

Section CSV.

(** ** The reader (readCSV, lines 295-377) *)

(** [openCSV dataFile comma comment]: the export storage opened at the
    URI, its file read and handed to a csv.Reader with the given
    separator and comment rune, FieldsPerRecord = -1 and LazyQuotes; an
    error of one of the three calls, or the results of the successive
    [cr.Read()] up to io.EOF. *)
Variable openCSV : string -> Z -> Z -> result (list (result (list string))).

(** The context as the reader's goroutine sees it. *)
Variable readerCtx : Context.

(** A poll of [done] in a [select]. *)
Definition readerPoll : M readerState unit :=
  fun s =>
    let s' := mkReaderState (recordCh s) (count s) (S (readerPolls s)) in
    match readerCtx (readerPolls s) with
    | Some e => (Err e, s')
    | None => (Ok tt, s')
    end.

(** [select { case <-done: return ctx.Err(); case recordCh <- cr: count++ }] *)
Definition sendRecord (cr : csvRecord) : M readerState unit :=
  readerPoll ;;;
  modify (fun s => mkReaderState (recordCh s ++ [cr]) (count s + 1) (readerPolls s)).

(** Lines 344-351: the shape of one record. *)
Definition checkRecord (expectedCols i : Z) (record : list string)
  : result (list string) :=
  let expectedColsExtra := expectedCols + 1 in
  if len record =? expectedCols then
    (* Expected number of columns. *)
    Ok record
  else if (len record =? expectedColsExtra)
          && match nth_error record (Z.to_nat expectedCols) with
             | Some s => String.eqb s ""
             | None => false
             end then
    (* Line has the optional trailing comma, ignore the empty field. *)
    Ok (firstn (Z.to_nat expectedCols) record)
  else
    Err (errNew ("row " ++ fmt_d i ++ ": expected " ++ fmt_d expectedCols
                 ++ " fields, got " ++ fmt_d (len record))%string).

(** The loop [for i := 1; ; i++] over the records of one file. *)
Fixpoint readRecords (expectedCols : Z) (dataFile : string)
    (reads : list (result (list string))) (i : Z) : M readerState unit :=
  match reads with
  | [] => ret tt                             (* io.EOF *)
  | Err err :: _ =>
      fail (errWrap err ("row " ++ fmt_d i ++ ": reading CSV record")%string)
  | Ok record :: rest =>
      record' <- lift (checkRecord expectedCols i record) ;;
      sendRecord (mkCsvRecord record' dataFile i) ;;;
      readRecords expectedCols dataFile rest (i + 1)
  end.

(** The function literal run for each data file. *)
Definition readFile (comma comment expectedCols : Z) (dataFile : string)
  : M readerState unit :=
  reads <- lift (openCSV dataFile comma comment) ;;
  readRecords expectedCols dataFile reads 1.

Fixpoint readFiles (comma comment expectedCols : Z) (dataFiles : list string)
  : M readerState unit :=
  match dataFiles with
  | [] => ret tt
  | dataFile :: rest =>
      readerPoll ;;;
      (fun s =>
         match readFile comma comment expectedCols dataFile s with
         | (Err err, s') => (Err (errWrap err dataFile), s')
         | (Ok tt, s') => readFiles comma comment expectedCols rest s'
         end)
  end.

(** [readCSV]: the count returned, the error returned, and the state of
    the channel. *)
Definition readCSV (comma comment expectedCols : Z) (dataFiles : list string)
    (recordCh0 : list csvRecord) : Z * option error * readerState :=
  let comma := if comma =? 0 then 44 (* ',' *) else comma in
  match readFiles comma comment expectedCols dataFiles
          (mkReaderState recordCh0 0 0) with
  | (Err err, s) => (0, Some err, s)
  | (Ok tt, s) => (count s, None, s)
  end.

(** ** The table descriptor (makeCSVTableDescriptor, lines 243-282) *)

(** [sql.MakeTableDesc] with the arguments csv.go fixes (nil txn, no
    virtual tables, default privileges): the statement, the parent and
    table ids and the wall time. *)
Variable MakeTableDesc : CreateTable -> Z -> Z -> Z -> result TableDescriptor.

(** The verb [%q] on a string. *)
Variable fmt_q : string -> string.

(** The loop of lines 275-279 over the visible columns. *)
Fixpoint rejectDefaults (visibleCols : list ColumnDescriptor) : option error :=
  match visibleCols with
  | [] => None
  | col :: rest =>
      match DefaultExpr col with
      | Some _ =>
          Some (errNew ("column " ++ fmt_q (colName col)
                        ++ ": DEFAULT expression unsupported")%string)
      | None => rejectDefaults rest
      end
  end.

Definition makeCSVTableDescriptor (create : CreateTable)
    (parentID tableID walltime : Z) : result TableDescriptor :=
  if IfNotExists create then Err (errNew "unsupported IF NOT EXISTS")
  else match Interleave create with
  | Some _ => Err (errNew "interleaved not supported")
  | None =>
  match AsSource create with
  | Some _ => Err (errNew "CREATE AS not supported")
  | None =>
  (* TODO(mjibson): error on FKs *)
  match MakeTableDesc create parentID tableID walltime with
  | Err err => Err err
  | Ok tableDesc =>
      match rejectDefaults (VisibleColumns tableDesc) with
      | Some err => Err err
      | None => Ok tableDesc
      end
  end end end.

(** ** The sorter and writer (writeRocksDB, lines 464-564) *)

Context {W : Type} {sstW : SstFileWriter W}.

(** [engine.MakeRocksDBSstFileWriter()]. *)
Variable MakeRocksDBSstFileWriter : result W.

(** The verb [%s] on a roachpb.Key (its String method). *)
Variable fmt_key : bytes -> string.

(** The context as the writer's goroutine sees it. *)
Variable writerCtx : Context.

(** The storage errors of the multi-map: the error, if any, of writing
    the pairs (of a [Put] or of the [Close] of the batch), and the
    failure, if any, of the iterator: the number of entries it visits
    before [Valid] returns an error, and the error. *)
Variable putErr : option error.
Variable iterErr : option (nat * error).

Definition writerPoll : M writerState unit :=
  fun s =>
    let s' := mkWriterState (contentCh s) (sstAdds s) (S (writerPolls s)) in
    match writerCtx (writerPolls s) with
    | Some e => (Err e, s')
    | None => (Ok tt, s')
    end.

(** The closure [writeSST] of lines 493-513, with the [sst] it captures. *)
Definition writeSST (sst : W) (key : Key) (endKey : bytes)
  : M writerState unit :=
  data <- lift (sstFinish sst) ;;
  let sc := mkSstContent data (sstDataSize sst) (mkSpan key endKey) in
  writerPoll ;;;
  modify (fun s => mkWriterState (contentCh s ++ [sc]) (sstAdds s) (writerPolls s)).

(** [sst.Add(kv)], recorded. *)
Definition callAdd (sst : W) (kv : MVCCKeyValue) : M writerState W :=
  fun s =>
    (sstAdd sst kv, mkWriterState (contentCh s) (sstAdds s ++ [kv]) (writerPolls s)).

(** One turn of the loop of lines 519-557, at the entry [(key, value)] the
    iterator stands on. *)
Definition writeEntry (sstMaxSize walltime : Z) (v : writerVars W)
    (e : bytes * bytes) : M writerState (writerVars W) :=
  let count := v_count v + 1 in
  (* Save the first key for the span. *)
  firstKey <-
    match v_firstKey v with
    | None =>
        let firstKey := Some (fst e) in
        (* Ensure the first key doesn't match the last key of the previous SST. *)
        if Key_Equal firstKey (v_lastKey v)
        then fail (errNew ("duplicate key: " ++ fmt_key (fst e))%string)
        else ret firstKey
    | Some k => ret (Some k)
    end ;;
  let kv := mkMVCCKeyValue
              (mkMVCCKey (fst e)
                 (mkTimestamp walltime (Logical (mvccTimestamp (mvKey (v_kv v))))))
              (snd e) in
  sst <- (fun s =>
            match callAdd (v_sst v) kv s with
            | (Err err, s') =>
                (Err (errWrap err
                        (errSSTCreationMaybeDuplicate (fmt_key (mvccKey (mvKey kv))))),
                 s')
            | ok => ok
            end) ;;
  if sstDataSize sst >? sstMaxSize then
    writeSST sst firstKey (Key_Next (mvccKey (mvKey kv))) ;;;
    sst' <- lift MakeRocksDBSstFileWriter ;;
    ret (mkWriterVars sst' kv None (Some (mvccKey (mvKey kv))) count)
  else
    ret (mkWriterVars sst kv firstKey (v_lastKey v) count).

Fixpoint writeEntries (sstMaxSize walltime : Z) (v : writerVars W)
    (entries : list (bytes * bytes)) : M writerState (writerVars W) :=
  match entries with
  | [] => ret v
  | e :: rest =>
      v' <- writeEntry sstMaxSize walltime v e ;;
      writeEntries sstMaxSize walltime v' rest
  end.

(** Lines 558-563, after the loop. *)
Definition writeLast (v : writerVars W) : M writerState Z :=
  (if sstDataSize (v_sst v) >? 0
   then writeSST (v_sst v) (v_firstKey v) (Key_Next (mvccKey (mvKey (v_kv v))))
   else ret tt) ;;;
  ret (v_count v).

(** Lines 475-484: the key and the raw bytes of each KV go to the
    multi-map. *)
Definition putAll (kvCh : list KeyValue) : RocksDBMultiMap.t :=
  fold_left (fun store kv => RocksDBMultiMap.Put store (kvKey kv) (RawBytes (kvValue kv)))
            kvCh RocksDBMultiMap.empty.

(** The entries the iterator visits before [Valid] reports an error, and
    the loop's exit when it does. *)
Definition visited (sorted : list (bytes * bytes)) : list (bytes * bytes) :=
  match iterErr with
  | Some (n, _) => firstn n sorted
  | None => sorted
  end.

Definition iterEnd : M writerState unit :=
  match iterErr with
  | Some (_, err) => fail err
  | None => ret tt
  end.

(** [writeRocksDB]: the count returned, the error returned, and what was
    sent and added. [now] is [timeutil.Now().UnixNano()] of line 516. *)
Definition writeRocksDB (kvCh : list KeyValue) (sstMaxSize : Z)
    (contentCh0 : list sstContent) (walltime now : Z)
  : Z * option error * writerState :=
  let store := putAll kvCh in
  let s0 := mkWriterState contentCh0 [] 0 in
  match putErr with
  | Some err => (0, Some err, s0)
  | None =>
  match MakeRocksDBSstFileWriter with
  | Err err => (0, Some err, s0)
  | Ok sst =>
      let kv := mkMVCCKeyValue (mkMVCCKey [] (mkTimestamp now 0)) [] in
      let v0 := mkWriterVars sst kv None None 0 in
      match (v <- writeEntries sstMaxSize walltime v0
                    (visited (RocksDBMultiMap.iterate store)) ;;
             iterEnd ;;;
             writeLast v) s0 with
      | (Err err, s) => (0, Some err, s)
      | (Ok count, s) => (count, None, s)
      end
  end end.

(** ** The finalizer (makeBackup and finalizeCSVBackup, lines 566-649) *)

(** [storageccl.SHA512ChecksumData]. *)
Variable SHA512ChecksumData : bytes -> result bytes.

(** The error, if any, of [es.WriteFile(ctx, name, data)] on a store that
    holds the given files. *)
Variable writeFileErr : ExportStorage -> string -> bytes -> option error.

(** The error, if any, of opening the export storage at a URI
    (ExportStorageConfFromURI, then MakeExportStorage). *)
Variable exportStorageErr : string -> option error.

Variable TableSpan : TableDescriptor -> Span.      (* tableDesc.TableSpan() *)
Variable Marshal : BackupDescriptor -> result bytes.  (* backupDesc.Marshal() *)
Variable BackupDescriptorName : string.
Variable BackupFormatInitialVersion : Z.
Variable buildInfo : string.                       (* build.GetInfo() *)

Definition WriteFile (name : string) (content : bytes) : M backupState unit :=
  fun s =>
    match writeFileErr (es s) name content with
    | Some err => (Err err, s)
    | None => (Ok tt, mkBackupState (es s ++ [(name, content)]) (backupDesc s))
    end.

Definition setDesc (f : BackupDescriptor -> BackupDescriptor)
  : M backupState unit :=
  modify (fun s => mkBackupState (es s) (f (backupDesc s))).

(** [execCfg] is nil or gives a node id and a cluster id. *)
Definition finalizeCSVBackup (parentID : Z) (tableDesc : TableDescriptor)
    (execCfg : option (Z * string)) : M backupState unit :=
  fun s0 =>
  if len (Files (backupDesc s0)) =? 0 then
    (Err (errNew "no files in backup"), s0)
  else
   (setDesc (fun d =>
      let nodeID := match execCfg with Some (n, _) => n | None => NodeID d end in
      let clusterID := match execCfg with Some (_, c) => c | None => ClusterID d end in
      mkBackupDescriptor (EndTime d) (sortFiles (Files d)) (EntryCounts_DataSize d)
        [TableSpan tableDesc]
        [DatabaseDescriptor csvDatabaseName parentID; WrapTable tableDesc]
        BackupFormatInitialVersion buildInfo nodeID clusterID) ;;;
    (fun s =>
       (descBuf <- lift (Marshal (backupDesc s)) ;;
        WriteFile BackupDescriptorName descBuf) s)) s0.

(** One turn of the loop of lines 592-609; [i] is the counter before it. *)
Definition writeSegment (i : Z) (sst : sstContent) : M backupState Z :=
  setDesc (fun d =>
    mkBackupDescriptor (EndTime d) (Files d) (EntryCounts_DataSize d + size sst)
      (Spans d) (Descriptors d) (FormatVersion d) (BuildInfo d) (NodeID d)
      (ClusterID d)) ;;;
  checksum <- lift (SHA512ChecksumData (data sst)) ;;
  let i := i + 1 in
  let name := (fmt_d i ++ ".sst")%string in
  WriteFile name (data sst) ;;;
  setDesc (fun d =>
    mkBackupDescriptor (EndTime d)
      (Files d ++ [mkBackupFile name (span sst) checksum])
      (EntryCounts_DataSize d) (Spans d) (Descriptors d) (FormatVersion d)
      (BuildInfo d) (NodeID d) (ClusterID d)) ;;;
  ret i.

Fixpoint writeSegments (i : Z) (contentCh : list sstContent)
  : M backupState Z :=
  match contentCh with
  | [] => ret i
  | sst :: rest =>
      i' <- writeSegment i sst ;;
      writeSegments i' rest
  end.

(** [makeBackup]: the count returned, the error returned, and the state
    of the destination and of the descriptor. [es0] is the destination as
    it is found. *)
Definition makeBackup (parentID : Z) (tableDesc : TableDescriptor)
    (destDir : string) (contentCh : list sstContent) (walltime : Z)
    (execCfg : option (Z * string)) (es0 : ExportStorage)
  : Z * option error * backupState :=
  let s0 := mkBackupState es0 (newBackupDescriptor walltime) in
  match exportStorageErr destDir with
  | Some err => (0, Some err, s0)
  | None =>
      match writeSegments 0 contentCh s0 with
      | (Err err, s) => (0, Some err, s)
      | (Ok _, s) =>
          match finalizeCSVBackup parentID tableDesc execCfg s with
          | (Err err, s') => (len (Files (backupDesc s')), Some err, s')
          | (Ok tt, s') => (len (Files (backupDesc s')), None, s')
          end
      end
  end.

(** ** The local pipeline (doLocalCSVTransform, lines 146-207) *)

(** The converter stage: [groupWorkers] running [convertRecord] on as many
    workers as there are CPUs. Parsing fields and encoding rows belong to
    the SQL layer: the stage is given by what it sends on kvCh, in the
    order of arrival, and the error of the group of workers, for the
    records sent on recordCh. *)
Variable convertRecords :
  option string -> TableDescriptor -> list csvRecord -> list KeyValue * option error.

(** [timeutil.Now().UnixNano()] at line 516. *)
Variable sorterNow : Z.

(** [order] is the order in which the four goroutines hand their error to
    the group, a permutation of the four. Each stage is run on all that
    its input channel carried before it was closed; the progress reports
    to the job do not show in the result (their failures are logged). *)
Definition doLocalCSVTransform (order : list goroutine)
    (parentID : Z) (tableDesc : TableDescriptor) (dest : string)
    (dataFiles : list string) (comma comment : Z) (nullif : option string)
    (sstMaxSize walltime : Z) (execCfg : option (Z * string))
    (es0 : ExportStorage) : Z * Z * Z * option error * backupState :=
  let '(csvCount, errReader, rs) :=
    readCSV comma comment (len (VisibleColumns tableDesc)) dataFiles [] in
  let '(kvCh, errConverter) := convertRecords nullif tableDesc (recordCh rs) in
  let '(kvCount, errWriter, ws) :=
    writeRocksDB kvCh sstMaxSize [] walltime sorterNow in
  let '(sstCount, errFinalizer, bs) :=
    makeBackup parentID tableDesc dest (contentCh ws) walltime execCfg es0 in
  let errOf g :=
    match g with
    | gReader => errReader
    | gConverter => errConverter
    | gWriter => errWriter
    | gFinalizer => errFinalizer
    end in
  (csvCount, kvCount, sstCount, group_Wait (map errOf order), bs).

(** ** LoadCSV (lines 69-144) and readCreateTableFromStore (lines 217-241) *)

Variable MaxReservedDescID : Z.                    (* keys.MaxReservedDescID *)

Definition defaultCSVParentID : Z := MaxReservedDescID + 1.
Definition defaultCSVTableID : Z := defaultCSVParentID + 1.

(** The file at a URI read from its store and parsed as one statement. *)
Variable parseStatementAt : string -> result Statement.

Definition readCreateTableFromStore (filename : string) : result CreateTable :=
  match parseStatementAt filename with
  | Err err => Err err
  | Ok (StmtCreateTable create) => Ok create
  | Ok _ => Err (errNew "expected CREATE TABLE statement in table file")
  end.

Variable MakeLocalStorageURI : string -> result string.

(** The error, if any, of creating the temporary directory and the
    RocksDB instance in it. *)
Variable tempEngineErr : string -> option error.



(** ** The distributed transform (doDistributedCSVTransform, lines 896-988) *)

(** [p.ExecCfg().StatusServer.Nodes], then [p.DistLoader().LoadCSV]: the
    rows (path, size, checksum, span start, span end) the workers return
    for the segments they wrote. *)
Variable distLoadCSV :
  list string -> TableDescriptor -> string -> Z -> Z -> option string -> Z ->
  result (list (string * Z * bytes * bytes * bytes)).

(** The node id and the cluster id of [p.ExecCfg()]. *)
Variable hookExecCfg : Z * string.

Definition addRow (d : BackupDescriptor)
    (row : string * Z * bytes * bytes * bytes) : BackupDescriptor :=
  let '(name, size, checksum, spanStart, spanEnd) := row in
  mkBackupDescriptor (EndTime d)
    (Files d ++ [mkBackupFile name (mkSpan (Some spanStart) spanEnd) checksum])
    (EntryCounts_DataSize d + size) (Spans d) (Descriptors d) (FormatVersion d)
    (BuildInfo d) (NodeID d) (ClusterID d).

Definition doDistributedCSVTransform (files : list string)
    (tableDesc : TableDescriptor) (temp : string) (comma comment : Z)
    (nullif : option string) (walltime : Z) (es0 : ExportStorage)
  : Z * option error :=
  match distLoadCSV files tableDesc temp comma comment nullif walltime with
  | Err err => (0, Some err)
  | Ok rows =>
      let desc := fold_left addRow rows (newBackupDescriptor walltime) in
      match exportStorageErr temp with
      | Some err => (0, Some err)
      | None =>
          match finalizeCSVBackup defaultCSVParentID tableDesc (Some hookExecCfg)
                  (mkBackupState es0 desc) with
          | (Err err, _) => (0, Some err)
          | (Ok tt, s) => (len (Files (backupDesc s)), None)
          end
      end
  end.

(** ** The plan hook (importPlanHook, lines 691-894) *)

Variable requireSuperUser : option error.          (* p.RequireSuperUser("IMPORT") *)

(** [p.TypeAsStringArray], [p.TypeAsString] and [p.TypeAsStringOpts]: an
    error, or the function that evaluates the files, the name of the
    file with the table definition, the options. *)
Variable typeAsStringArray : result (result (list string)).
Variable typeAsString : result (result string).
Variable typeAsStringOpts : result (result (list (string * string))).

Variable hookNow : Z.                   (* timeutil.Now().UnixNano(), line 730 *)
Variable sessionDatabase : string.      (* p.EvalContext().Database *)
Variable restoreOptIntoDB : string.
Variable GetSingleRune : string -> result Z.        (* util.GetSingleRune *)
Variable ParseBytes : string -> result Z.           (* humanizeutil.ParseBytes *)
Variable RangeMaxBytes : Z.             (* config.DefaultZoneConfig().RangeMaxBytes *)

(** [importJobDescription] (lines 651-689) builds the text of the job's
    description; only its error matters to what follows. *)
Variable importJobDescription :
  Import -> list TableDef -> list string -> list (string * string) -> result string.

(** The job made by [JobRegistry.NewJob]: its id and the errors of its
    life-cycle calls. *)
Variable jobID : Z.
Variable jobCreated : option error.
Variable jobStarted : option error.
Variable jobFinishedWith : option error -> option error.

(** [doRestorePlan]: the rows it sends on resultsCh and its error. *)
Variable doRestorePlan : string -> string -> list (list Datum) * option error.

(** The goroutine order and the destination's state of the run. *)
Variable hookOrder : list goroutine.
Variable hookStore : ExportStorage.

Definition optional {S A B : Type} (o : option A) (k : A -> M S B) (dflt : B)
  : M S B :=
  match o with Some a => k a | None => ret dflt end.

Definition check {S : Type} (o : option error) : M S unit :=
  match o with Some err => fail err | None => ret tt end.

Definition wrapErr {A : Type} (r : result A) (msg : string) : result A :=
  match r with Ok a => Ok a | Err err => Err (errWrap err msg) end.

(** Lines 730-815 of the function [fn] that importPlanHook returns: the
    options read and the CREATE TABLE statement found. *)
Definition importSetup (importStmt : Import)
    (filesFn : result (list string)) (createFileFn : result string)
    (optsFn : result (list (string * string)))
  : M (list (list Datum)) importArgs :=
  opts <- lift optsFn ;;
  files <- lift filesFn ;;
  let transformOnly :=
    match lookup opts importOptionTransformOnly with Some _ => true | None => false end in
  targetDB <-
    (if negb transformOnly then
       match lookup opts restoreOptIntoDB with
       | None =>
           if negb (String.eqb sessionDatabase "") then ret sessionDatabase
           else fail (errNew ("must specify target database with "
                              ++ fmt_q restoreOptIntoDB ++ " option")%string)
       | Some override => ret override
       end
     else ret ""%string) ;;
  comma <- optional (lookup opts importOptionDelimiter)
             (fun override => lift (wrapErr (GetSingleRune override) "invalid comma value"))
             0 ;;
  comment <- optional (lookup opts importOptionComment)
               (fun override => lift (wrapErr (GetSingleRune override) "invalid comment value"))
               0 ;;
  let nullif := lookup opts importOptionNullIf in
  temp <-
    match lookup opts importOptionTemp with
    | Some override => ret override
    | None => fail (errNew "must provide a temporary storage location")
    end ;;
  sstSize <- optional (lookup opts importOptionSSTSize)
               (fun override => lift (ParseBytes override))
               (Z.quot RangeMaxBytes 2) ;;
  create <-
    match CreateDefs importStmt with
    | Some defs => ret (mkCreateTable false (importTable importStmt) None defs None)
    | None =>
        filename <- lift createFileFn ;;
        create <- lift (readCreateTableFromStore filename) ;;
        if negb (String.eqb (Table create) (importTable importStmt))
        then fail (errNew ("importing table " ++ fmt_q (importTable importStmt)
                           ++ ", but file specifies a schema for table "
                           ++ fmt_q (Table create))%string)
        else ret create
    end ;;
  ret (mkImportArgs opts files transformOnly targetDB comma comment nullif temp
         sstSize create).

(** Lines 849-862: the transform, local or distributed; its counts are
    dropped and its error kept. *)
Definition importTransform (a : importArgs) (tableDesc : TableDescriptor)
    (walltime : Z) : option error :=
  match lookup (a_opts a) importOptionDistributed with
  | Some _ =>
      let '(_, importErr) :=
        doDistributedCSVTransform (a_files a) tableDesc (a_temp a) (a_comma a)
          (a_comment a) (a_nullif a) walltime hookStore in
      importErr
  | None =>
      let '(_, _, _, importErr, _) :=
        doLocalCSVTransform hookOrder defaultCSVParentID tableDesc (a_temp a)
          (a_files a) (a_comma a) (a_comment a) (a_nullif a) (a_sstSize a)
          walltime (Some hookExecCfg) hookStore in
      importErr
  end.

(** The function [fn] that importPlanHook returns, on the rows of
    resultsCh. *)
Definition importFn (importStmt : Import)
    (filesFn : result (list string)) (createFileFn : result string)
    (optsFn : result (list (string * string))) : M (list (list Datum)) unit :=
  let walltime := hookNow in
  a <- importSetup importStmt filesFn createFileFn optsFn ;;
  let parentID := defaultCSVParentID in
  tableDesc <- lift (makeCSVTableDescriptor (a_create a) parentID defaultCSVTableID
                       walltime) ;;
  jobDesc <- lift (importJobDescription importStmt (Defs (a_create a)) (a_files a)
                     (a_opts a)) ;;
  (* the job is made here, with jobDesc, the user, the descriptor, the
     files and temp *)
  check jobCreated ;;;
  check jobStarted ;;;
  let importErr := importTransform a tableDesc walltime in
  check (jobFinishedWith importErr) ;;;
  check importErr ;;;
  if a_transformOnly a then
    modify (fun resultsCh =>
      resultsCh ++ [[DInt jobID; DString StatusSucceeded; DFloat 1%float;
                     DInt 0; DInt 0; DInt 0; DInt 0]])
  else
    (* the RESTORE of all tables of the database csv from temp into targetDB *)
    (fun resultsCh =>
       let '(rows, err) := doRestorePlan (a_temp a) (a_targetDB a) in
       match err with
       | Some e => (Err e, resultsCh ++ rows)
       | None => (Ok tt, resultsCh ++ rows)
       end).

(** [importPlanHook]: nothing for another statement, else an error or
    the function to run. *)
Definition importPlanHook (stmt : Statement)
  : option (result (M (list (list Datum)) unit)) :=
  match stmt with
  | StmtImport importStmt =>
      Some
        match requireSuperUser with
        | Some err => Err err
        | None =>
        match typeAsStringArray with
        | Err err => Err err
        | Ok filesFn =>
        match
          match CreateDefs importStmt with
          | None => typeAsString
          | Some _ =>
              (* createFileFn stays nil; fn does not call it *)
              Ok (Err (errNew "createFileFn is nil"))
          end
        with
        | Err err => Err err
        | Ok createFileFn =>
        if negb (String.eqb (FileFormat importStmt) "CSV")
        then Err (errNew ("unsupported import format: "
                          ++ fmt_q (FileFormat importStmt))%string)
        else
        match typeAsStringOpts with
        | Err err => Err err
        | Ok optsFn => Ok (importFn importStmt filesFn createFileFn optsFn)
        end end end end
  | _ => None
  end.

(** ** The sampler (readCSVProcessor.Run, lines 1059-1090; sampleRate,
    lines 1115-1132) *)

(** The [k]-th value that [rnd.Float64()] returns. *)
Variable rndFloat64 : nat -> float.

(** The context as the sampler's goroutine sees it. *)
Variable samplerCtx : Context.

(** A sampleFunc, given the number of draws made so far: the verdict and
    the number of draws after it. *)
Definition sampleFunc : Type := KeyValue -> nat -> bool * nat.

Definition sample (s : sampleRate) : sampleFunc :=
  fun kv n =>
    let sz := float64 (len (kvKey kv) + len (RawBytes (kvValue kv))) in
    let prob := PrimFloat.div sz (sampleSize s) in
    (PrimFloat.ltb (rndFloat64 n) prob, S n).

Definition sampleAll : sampleFunc := fun kv n => (true, n).

(** Lines 1065-1074: the choice of the sampleFunc; [sampleSize] is the
    int32 of the processor's spec. *)
Definition chooseSampleFunc (cpSampleSize : Z) : sampleFunc :=
  if cpSampleSize =? 0 then sampleAll
  else sample (mkSampleRate (float64 cpSampleSize)).

(** Lines 1076-1088: the loop over kvCh. *)
Fixpoint sampleKVs (fn : sampleFunc) (kvCh : list KeyValue)
  : M samplerState unit :=
  match kvCh with
  | [] => ret tt
  | kv :: rest =>
      (fun s =>
         let '(keep, n) := fn kv (draws s) in
         let s1 := mkSamplerState (sampleCh s) n (samplerPolls s) in
         if keep then
           let s2 := mkSamplerState (sampleCh s) n (S (samplerPolls s)) in
           match samplerCtx (samplerPolls s) with
           | Some err => (Err err, s2)
           | None =>
               (Ok tt, mkSamplerState
                         (sampleCh s ++ [(kvKey kv, RawBytes (kvValue kv))])
                         n (S (samplerPolls s)))
           end
         else (Ok tt, s1)) ;;;
      sampleKVs fn rest
  end.

(** The sampling goroutine of [Run]. *)
Definition sampleStage (cpSampleSize : Z) (kvCh : list KeyValue)
  : option error * samplerState :=
  match sampleKVs (chooseSampleFunc cpSampleSize) kvCh (mkSamplerState [] 0 0) with
  | (Err err, s) => (Some err, s)
  | (Ok tt, s) => (None, s)
  end.

(** ** The SST writer processor (sstWriter.Run, lines 1178-1313) *)

(** The storage errors of the processor's multi-map: the error, if any, of
    the [n]-th [batch.Put], counted from 0, of [batch.Close], and of the
    iterator, as for the sorter. *)
Variable swPutErr : nat -> option error.
Variable swCloseErr : option error.
Variable swIterErr : option (nat * error).

(** [sp.out.EmitRow]. *)
Variable EmitRow : sstRow -> result ConsumerStatus.

(** Lines 1206-1221: the key and the value of a row. *)
Definition decodeRow (row : EncDatumRow) : result (bytes * bytes) :=
  match row with
  | [ed0; ed1] =>
      match ed0 with
      | Err err => Err err
      | Ok key =>
          match ed1 with
          | Err err => Err err
          | Ok val => Ok (key, val)
          end
      end
  | _ => Err (errNew ("expected 2 datums, got " ++ fmt_d (len row))%string)
  end.

(** Lines 1198-1225: the rows that [input.NextRow] gives, up to the nil row
    that ends them, go to the multi-map; [n] counts the calls of Put. *)
Fixpoint swReadRows (input : list (result EncDatumRow)) (n : nat)
    (store : RocksDBMultiMap.t) : result RocksDBMultiMap.t :=
  match input with
  | [] => Ok store
  | Err err :: _ => Err err
  | Ok row :: rest =>
      match decodeRow row with
      | Err err => Err err
      | Ok (key, val) =>
          match swPutErr n with
          | Some err => Err err
          | None => swReadRows rest (S n) (RocksDBMultiMap.Put store key val)
          end
      end
  end.

(** One turn of the loop of lines 1239-1254. *)
Definition swAddEntry (walltimeNanos : Z) (v : sstWriterVars W)
    (e : bytes * bytes) : M sstWriterState (sstWriterVars W) :=
  let kv := mkMVCCKeyValue (mkMVCCKey (fst e) (mkTimestamp walltimeNanos 0)) (snd e) in
  let firstKey :=
    match sw_firstKey v with
    | None => Some (fst e)
    | Some k => Some k
    end in
  fun s =>
    let s' := mkSstWriterState (swStore s) (swAdds s ++ [kv]) (swOut s) in
    match sstAdd (sw_sst v) kv with
    | Err err =>
        (Err (errWrap err (errSSTCreationMaybeDuplicate (fmt_key (fst e)))), s')
    | Ok sst => (Ok (mkSstWriterVars sst firstKey (Some (Key_Next (fst e)))), s')
    end.

Fixpoint swAddEntries (walltimeNanos : Z) (v : sstWriterVars W)
    (entries : list (bytes * bytes)) : M sstWriterState (sstWriterVars W) :=
  match entries with
  | [] => ret v
  | e :: rest =>
      v' <- swAddEntry walltimeNanos v e ;;
      swAddEntries walltimeNanos v' rest
  end.

Definition swWriteFile (name : string) (content : bytes) : M sstWriterState unit :=
  fun s =>
    match writeFileErr (swStore s) name content with
    | Some err => (Err err, s)
    | None =>
        (Ok tt, mkSstWriterState (swStore s ++ [(name, content)]) (swAdds s) (swOut s))
    end.

(** Lines 1298-1304. *)
Definition swEmit (row : sstRow) : M sstWriterState unit :=
  fun s =>
    let s' := mkSstWriterState (swStore s) (swAdds s) (swOut s ++ [row]) in
    match EmitRow row with
    | Err err => (Err err, s')
    | Ok NeedMoreRows => (Ok tt, s')
    | Ok _ => (Err (errNew "unexpected closure of consumer"), s')
    end.

(** The function literal of [Run], lines 1187-1306: its error, which [Run]
    hands to the output, and the state it leaves. *)
Definition sstWriterRun (uri name : string) (walltimeNanos : Z)
    (input : list (result EncDatumRow)) (es0 : ExportStorage)
  : option error * sstWriterState :=
  let s0 := mkSstWriterState es0 [] [] in
  match swReadRows input 0 RocksDBMultiMap.empty with
  | Err err => (Some err, s0)
  | Ok store =>
  match swCloseErr with
  | Some err => (Some err, s0)
  | None =>
  match MakeRocksDBSstFileWriter with
  | Err err => (Some err, s0)
  | Ok sst =>
      let sorted := RocksDBMultiMap.iterate store in
      let entries :=
        match swIterErr with
        | Some (n, _) => firstn n sorted
        | None => sorted
        end in
      match (v <- swAddEntries walltimeNanos (mkSstWriterVars sst None None) entries ;;
             check (match swIterErr with Some (_, err) => Some err | None => None end) ;;;
             data <- lift (sstFinish (sw_sst v)) ;;
             checksum <- lift (SHA512ChecksumData data) ;;
             check (exportStorageErr uri) ;;;
             swWriteFile name data ;;;
             swEmit (name, len data, checksum,
                     keyBytes (sw_firstKey v), keyBytes (sw_lastKey v))) s0 with
      | (Err err, s) => (Some err, s)
      | (Ok tt, s) => (None, s)
      end
  end end end.

(** ** The converter (convertRecord, lines 379-454) *)

(** The SQL layer as the converter uses it: the errors of
    [sqlbase.MakeRowInserter] and of [sqlbase.ProcessDefaultColumns] for the
    table; [parser.ParseStringAs] of a field as the type of a column, in
    UTC; the SQL name of the column's type; [sql.GenerateInsertRow] on the
    datums of a record; and [ri.InsertRow] on the row: the KVs it hands
    to the inserter, in order, and its error. *)
Variable MakeRowInserter : TableDescriptor -> option error.
Variable ProcessDefaultColumns : TableDescriptor -> option error.
Variable ParseStringAs : ColumnDescriptor -> string -> result Datum.
Variable SQLString : ColumnDescriptor -> string.
Variable GenerateInsertRow : TableDescriptor -> list rowDatum -> result (list rowDatum).
Variable InsertRow : TableDescriptor -> list rowDatum -> list KeyValue * option error.

(** The context as the converter's goroutine sees it. *)
Variable converterCtx : Context.

(** Whether [nullif != nil && r == *nullif]. *)
Definition isNull (nullif : option string) (field : string) : bool :=
  match nullif with
  | Some null => String.eqb field null
  | None => false
  end.

(** The map keyDatumIdx of lines 392-400, as the list of its bindings:
    [m[id] = idx] replaces the binding of [id] or adds one. *)
Fixpoint assignIdx (m : list (Z * Z)) (id idx : Z) : list (Z * Z) :=
  match m with
  | [] => [(id, idx)]
  | (id', idx') :: rest =>
      if id' =? id then (id, idx) :: rest else (id', idx') :: assignIdx rest id idx
  end.

Fixpoint lookupIdx (m : list (Z * Z)) (id : Z) : option Z :=
  match m with
  | [] => None
  | (id', idx) :: rest => if id' =? id then Some idx else lookupIdx rest id
  end.

Definition keyDatumIdx (tableDesc : TableDescriptor) : list (Z * Z) :=
  fold_left
    (fun m id =>
       if existsb (fun col => colID col =? id) (VisibleColumns tableDesc)
       then assignIdx m id (len m)
       else m)
    (PrimaryIndexColumnIDs tableDesc) [].

(** Lines 430-432: [keyDatums[idx] = ...] for the column of index [i];
    whether the index is in the range of keyDatums, which has one element
    for each column id of the primary index. What is stored is read
    nowhere. *)
Definition keyDatumInRange (tableDesc : TableDescriptor) (col : ColumnDescriptor)
  : bool :=
  match lookupIdx (keyDatumIdx tableDesc) (colID col) with
  | Some idx => (0 <=? idx) && (idx <? len (PrimaryIndexColumnIDs tableDesc))
  | None => true
  end.

(** The loop of lines 421-433 over the fields of a record, from the field
    of index [i] on. *)
Fixpoint convertFields (nullif : option string) (tableDesc : TableDescriptor)
    (record : csvRecord) (fields : list string) (i : nat) (datums : list rowDatum)
  : outcome (result (list rowDatum)) :=
  match fields with
  | [] => Returned (Ok datums)
  | field :: rest =>
      let next (d : rowDatum) :=
        match setDatum datums i d, nth_error (VisibleColumns tableDesc) i with
        | Some datums', Some col =>
            if keyDatumInRange tableDesc col
            then convertFields nullif tableDesc record rest (S i) datums'
            else Panicked
        | _, _ => Panicked
        end in
      if isNull nullif field then next DNull
      else
        match nth_error (VisibleColumns tableDesc) i with
        | None => Panicked
        | Some col =>
            match ParseStringAs col field with
            | Err err =>
                Returned
                  (Err (errWrap err
                          (file record ++ ": row " ++ fmt_d (row record) ++ ": parse "
                           ++ fmt_q (colName col) ++ " as " ++ SQLString col)%string))
            | Ok d => next (parsed d)
            end
        end
  end.

(** The inserter of lines 440-446, called with each KV of a row:
    [select { case kvCh <- kv: case <-done: insertErr = ctx.Err() }]. *)
Fixpoint putKVs (kvs : list KeyValue) (insertErr : option error) (s : converterState)
  : option error * converterState :=
  match kvs with
  | [] => (insertErr, s)
  | kv :: rest =>
      match converterCtx (converterPolls s) with
      | Some err =>
          putKVs rest (Some err) (mkConverterState (kvCh s) (S (converterPolls s)))
      | None =>
          putKVs rest insertErr
            (mkConverterState (kvCh s ++ [kv]) (S (converterPolls s)))
      end
  end.

(** The loop of lines 420-452 over the records received; [datums] is the
    slice of line 418, which every record overwrites. *)
Fixpoint convertRows (nullif : option string) (tableDesc : TableDescriptor)
    (records : list csvRecord) (datums : list rowDatum) (s : converterState)
  : outcome (option error) * converterState :=
  match records with
  | [] => (Returned None, s)
  | record :: rest =>
      match convertFields nullif tableDesc record (r record) 0 datums with
      | Panicked => (Panicked, s)
      | Returned (Err err) => (Returned (Some err), s)
      | Returned (Ok datums') =>
          match GenerateInsertRow tableDesc datums' with
          | Err err =>
              (Returned
                 (Some (errWrap err
                          ("generate insert row: " ++ file record ++ ": row "
                           ++ fmt_d (row record))%string)), s)
          | Ok insertRow =>
              let '(kvs, err) := InsertRow tableDesc insertRow in
              let '(insertErr, s') := putKVs kvs None s in
              match err with
              | Some err =>
                  (Returned
                     (Some (errWrap err
                              ("insert row: " ++ file record ++ ": row "
                               ++ fmt_d (row record))%string)), s')
              | None =>
                  match insertErr with
                  | Some err => (Returned (Some err), s')
                  | None => convertRows nullif tableDesc rest datums' s'
                  end
              end
          end
      end
  end.

(** [convertRecord] on the records that one worker receives: the error it
    returns, or a panic, and what it has sent. *)
Definition convertRecord (nullif : option string) (tableDesc : TableDescriptor)
    (records : list csvRecord) (kvCh0 : list KeyValue)
  : outcome (option error) * converterState :=
  let s0 := mkConverterState kvCh0 0 in
  match MakeRowInserter tableDesc with
  | Some err => (Returned (Some (errWrap err "make row inserter")), s0)
  | None =>
      match ProcessDefaultColumns tableDesc with
      | Some err => (Returned (Some (errWrap err "process default columns")), s0)
      | None =>
          convertRows nullif tableDesc records
            (repeat nilDatum (List.length (VisibleColumns tableDesc))) s0
      end
  end.

(** ** What the specification says, in its own words *)

(** The spec's per-row validation: a record with the expected number of
    fields is taken as it is; one with exactly one field more, the last
    one empty, is taken without its last field; any other is refused. *)
Definition acceptedRow (expectedCols : Z) (record : list string)
  : option (list string) :=
  if len record =? expectedCols then Some record
  else if (len record =? expectedCols + 1) && String.eqb (last record "?"%string) ""
  then Some (removelast record)
  else None.


(** The entry of the multi-map as it is given to the SST builder: under
    the pipeline's wall time. *)
Definition stamp (walltime : Z) (e : bytes * bytes) : MVCCKeyValue :=
  mkMVCCKeyValue (mkMVCCKey (fst e) (mkTimestamp walltime 0)) (snd e).

(** The first key of the segment once the entry [e] is in it. *)
Definition firstKeyWith (v : writerVars W) (e : bytes * bytes) : Key :=
  match v_firstKey v with
  | None => Some (fst e)
  | Some k => Some k
  end.

(** The builder that holds a run of entries, added in order to [sst]. *)
Fixpoint build (walltime : Z) (sst : W) (entries : list (bytes * bytes))
  : result W :=
  match entries with
  | [] => Ok sst
  | e :: rest =>
      match sstAdd sst (stamp walltime e) with
      | Ok sst' => build walltime sst' rest
      | Err err => Err err
      end
  end.

(** The key of the first entry of a run ([nil] when there is none) and
    the key of its last entry. *)
Definition firstKeyOf (entries : list (bytes * bytes)) : Key :=
  match entries with
  | [] => None
  | e :: _ => Some (fst e)
  end.

Definition lastKeyOf (entries : list (bytes * bytes)) : bytes :=
  fst (last entries ([], [])).



(** The files of the segments as the spec names them: the [i]-th under
    "<i>.sst", counted from [i]. *)
Fixpoint segmentFiles (i : Z) (contentCh : list sstContent)
  : list (string * bytes) :=
  match contentCh with
  | [] => []
  | sst :: rest => ((fmt_d i ++ ".sst")%string, data sst) :: segmentFiles (i + 1) rest
  end.

(** The descriptor entries of the segments: the name, the span and the
    checksum of each. *)
Fixpoint fileEntries (i : Z) (contentCh : list sstContent) (checksums : list bytes)
  : list BackupDescriptor_File :=
  match contentCh, checksums with
  | sst :: rest, checksum :: checksums' =>
      mkBackupFile (fmt_d i ++ ".sst")%string (span sst) checksum
        :: fileEntries (i + 1) rest checksums'
  | _, _ => []
  end.

(** The spec's sampler: with a sample size of zero every KV is taken;
    otherwise the KV that meets the [i]-th draw is taken exactly when
    (|key| + |value|) / sampleSize exceeds the draw. *)
Definition taken (cpSampleSize : Z) (i : nat) (kv : KeyValue) : bool :=
  (cpSampleSize =? 0)
  || PrimFloat.ltb (rndFloat64 i)
       (PrimFloat.div (float64 (len (kvKey kv) + len (RawBytes (kvValue kv))))
                      (float64 cpSampleSize)).

(** The rows of the KVs taken, the first KV meeting the [i]-th draw. *)
Fixpoint sampledRows (cpSampleSize : Z) (i : nat) (kvCh : list KeyValue)
  : list (bytes * bytes) :=
  match kvCh with
  | [] => []
  | kv :: rest =>
      (if taken cpSampleSize i kv then [(kvKey kv, RawBytes (kvValue kv))] else [])
      ++ sampledRows cpSampleSize (S i) rest
  end.

(** The records of a file as the reader sends them: each with the file's
    name and its row number, counted from [i]. *)
Fixpoint numberRows (dataFile : string) (i : Z) (rows : list (list string))
  : list csvRecord :=
  match rows with
  | [] => []
  | record :: rest =>
      mkCsvRecord record dataFile i :: numberRows dataFile (i + 1) rest
  end.

Definition trimRow (expectedCols : Z) (record : list string) : list string :=
  match acceptedRow expectedCols record with
  | Some record' => record'
  | None => record
  end.

(** ** What the further properties speak of *)

(** A record as the reader sends it: of the expected width, from one of
    the data files, with a row number counted from 1. *)
Definition wellFormedRecord (expectedCols : Z) (dataFiles : list string)
    (cr : csvRecord) : Prop :=
  len (r cr) = expectedCols /\ In (file cr) dataFiles /\ 1 <= row cr.

(** The records of the files [files], each given with its rows, as the
    reader sends them: file after file, the rows of each numbered from 1. *)
Definition recordsOf (expectedCols : Z) (files : list (string * list (list string)))
  : list csvRecord :=
  flat_map (fun f => numberRows (fst f) 1 (map (trimRow expectedCols) (snd f))) files.

(** The input of the SST writer processor that carries the pairs [rows]:
    one row of two datums for each. *)
Definition rowsOf (rows : list (bytes * bytes)) : list (result EncDatumRow) :=
  map (fun kv => Ok [Ok (fst kv); Ok (snd kv)]) rows.

(** The end of the span of a run of entries: the successor of its last
    key, nil when there is no entry. *)
Definition endKeyOf (entries : list (bytes * bytes)) : Key :=
  match entries with
  | [] => None
  | _ :: _ => Some (Key_Next (lastKeyOf entries))
  end.

(** The option that the loop of importJobDescription makes of a binding
    of the map, with the value as it was sanitized. *)
Definition optionOf (sanitize : string -> result string) (kv : string * string)
  : KVOption :=
  mkKVOption (fst kv)
    (if importOptionExpectValues (fst kv)
     then Some (if String.eqb (fst kv) importOptionTemp
                then match sanitize (snd kv) with Ok clean => clean | Err _ => snd kv end
                else snd kv)
     else None).

(** The options of the statement that importJobDescription prints, before
    they are sorted: those made of the bindings, and transform_only when
    no binding has this key. *)
Definition describedOptions (sanitize : string -> result string)
    (opts : list (string * string)) : list KVOption :=
  map (optionOf sanitize) opts
  ++ (if existsb (fun kv => String.eqb (fst kv) importOptionTransformOnly) opts
      then [] else [mkKVOption importOptionTransformOnly None]).

(** Options in the strict order of their keys. *)
Definition optionsSorted (options : list KVOption) : Prop :=
  LocallySorted (fun x y => string_ltb (optKey x) (optKey y) = true) options.

(** The datums of a record of the width of the table, each from its own
    field: DNull for a field that is the null string, the value parsed as
    the column's type for another; [None] when a field does not parse or
    the widths differ. *)
Fixpoint recordDatums (nullif : option string) (cols : list ColumnDescriptor)
    (fields : list string) : option (list rowDatum) :=
  match cols, fields with
  | [], [] => Some []
  | col :: cols', field :: fields' =>
      match (if isNull nullif field then Ok DNull
             else match ParseStringAs col field with
                  | Ok d => Ok (parsed d)
                  | Err err => Err err
                  end),
            recordDatums nullif cols' fields' with
      | Ok d, Some ds => Some (d :: ds)
      | _, _ => None
      end
  | _, _ => None
  end.

(** The KVs of a record that converts: those that InsertRow makes of the
    row generated from the record's datums. *)
Definition recordKVs (nullif : option string) (tableDesc : TableDescriptor)
    (record : csvRecord) : option (list KeyValue) :=
  match recordDatums nullif (VisibleColumns tableDesc) (r record) with
  | Some datums =>
      match GenerateInsertRow tableDesc datums with
      | Ok insertRow =>
          match InsertRow tableDesc insertRow with
          | (kvs, None) => Some kvs
          | (_, Some _) => None
          end
      | Err _ => None
      end
  | None => None
  end.

(** The KVs of the records that convert, in the order of the records. *)
Definition recordsKVs (nullif : option string) (tableDesc : TableDescriptor)
    (records : list csvRecord) : list KeyValue :=
  flat_map (fun record =>
              match recordKVs nullif tableDesc record with
              | Some kvs => kvs
              | None => []
              end) records.

(** The sum of the sizes of the segments. *)
Definition totalSize (contentCh : list sstContent) : Z :=
  fold_right (fun sst total => size sst + total) 0 contentCh.

(** ** Properties of the reader *)

Lemma nth_error_last {A : Type} (l : list A) (n : nat) (d : A) :
  List.length l = S n -> nth_error l n = Some (last l d).
Proof.
  revert n; induction l as [|a l IH]; intros n Hlen; [discriminate|].
  destruct l as [|b l].
  - simpl in Hlen. injection Hlen as <-. reflexivity.
  - destruct n as [|n]; [discriminate|].
    change (nth_error (b :: l) n = Some (last (b :: l) d)).
    apply IH. simpl in *. lia.
Qed.

Lemma firstn_removelast_len {A : Type} (l : list A) (n : nat) :
  List.length l = S n -> firstn n l = removelast l.
Proof.
  intros Hlen. rewrite removelast_firstn_len, Hlen. reflexivity.
Qed.

(** The check of lines 344-351 is the spec's validation. *)
Lemma checkRecord_acceptedRow (expectedCols i : Z) (record : list string) :
  checkRecord expectedCols i record =
  match acceptedRow expectedCols record with
  | Some record' => Ok record'
  | None =>
      Err (errNew ("row " ++ fmt_d i ++ ": expected " ++ fmt_d expectedCols
                   ++ " fields, got " ++ fmt_d (len record))%string)
  end.
Proof.
  unfold checkRecord, acceptedRow.
  destruct (len record =? expectedCols) eqn:Hlen; [reflexivity|].
  destruct (len record =? expectedCols + 1) eqn:Hextra; [|reflexivity].
  apply Z.eqb_eq in Hextra. unfold len in Hextra.
  destruct (Z.eq_dec expectedCols (-1)) as [->|Hneg].
  { destruct record; [reflexivity|simpl in Hextra; lia]. }
  assert (Hn : List.length record = S (Z.to_nat expectedCols)) by lia.
  rewrite (nth_error_last record _ "?"%string Hn).
  rewrite (firstn_removelast_len record _ Hn).
  cbn [andb]. destruct (String.eqb (last record "?"%string) ""); reflexivity.
Qed.

Lemma len_app {A : Type} (l l' : list A) : len (l ++ l') = len l + len l'.
Proof. unfold len. rewrite length_app. lia. Qed.

Lemma len_cons {A : Type} (a : A) (l : list A) : len (a :: l) = 1 + len l.
Proof. unfold len. cbn [List.length]. lia. Qed.

(** The loop over a file, while the rows are accepted and the context is
    not done: every row is sent, numbered, and counted. *)
Lemma readRecords_accepted (expectedCols : Z) (dataFile : string)
    (rest : list (result (list string))) :
  (forall n, readerCtx n = None) ->
  forall (good : list (list string)) (i : Z) (s : readerState),
    Forall (fun record => acceptedRow expectedCols record <> None) good ->
    readRecords expectedCols dataFile (map Ok good ++ rest) i s =
    readRecords expectedCols dataFile rest (i + len good)
      (mkReaderState
         (recordCh s ++ numberRows dataFile i (map (trimRow expectedCols) good))
         (count s + len good)
         (List.length good + readerPolls s)).
Proof.
  intros Hctx good.
  induction good as [|record good IH]; intros i s Hgood.
  - cbn [map app numberRows List.length len Nat.add].
    rewrite app_nil_r. unfold len; cbn [List.length Z.of_nat].
    rewrite !Z.add_0_r. destruct s; reflexivity.
  - inversion Hgood as [|? ? Hrec Hrest]; subst.
    cbn [map app readRecords].
    unfold bind at 1, lift. rewrite checkRecord_acceptedRow.
    unfold trimRow at 1.
    destruct (acceptedRow expectedCols record) as [record'|] eqn:Hacc;
      [|congruence].
    unfold bind at 1, sendRecord, bind at 1, readerPoll.
    rewrite Hctx. cbn [modify recordCh count readerPolls].
    rewrite IH by assumption.
    cbn [recordCh count readerPolls numberRows map].
    rewrite len_cons, <- app_assoc. cbn [app List.length].
    f_equal; [lia|]. f_equal; lia.
Qed.

(** The loop over the files, on files that open and whose rows all pass
    the check: their records are sent file after file, the rows of each
    numbered from 1, and the loop goes on with the files that follow. *)
Lemma readFiles_accepted (comma comment expectedCols : Z)
    (files : list (string * list (list string))) (after : list string) :
  (forall n, readerCtx n = None) ->
  Forall (fun f =>
            openCSV (fst f) comma comment = Ok (map Ok (snd f)) /\
            Forall (fun record => acceptedRow expectedCols record <> None) (snd f))
         files ->
  forall s,
    exists polls,
      readFiles comma comment expectedCols (map fst files ++ after) s
      = readFiles comma comment expectedCols after
          (mkReaderState (recordCh s ++ recordsOf expectedCols files)
             (count s + len (List.concat (map snd files))) polls).
Proof.
  intros Hctx Hfiles.
  induction Hfiles as [|[dataFile rows] files [Hopen Hrows] _ IH]; intros s.
  - exists (readerPolls s). cbn [map app recordsOf flat_map List.concat].
    rewrite app_nil_r. unfold len at 1. cbn [List.length Z.of_nat].
    rewrite Z.add_0_r. destruct s; reflexivity.
  - cbn [fst snd] in Hopen, Hrows. cbn [map fst app readFiles].
    unfold bind at 1, readerPoll. rewrite Hctx.
    unfold readFile, bind at 1, lift. rewrite Hopen.
    rewrite <- (app_nil_r (map Ok rows)).
    rewrite (readRecords_accepted expectedCols dataFile [] Hctx rows) by exact Hrows.
    cbn [readRecords ret recordCh count readerPolls].
    match goal with
    | |- context [readFiles _ _ _ (_ ++ _) ?s1] => destruct (IH s1) as [polls Hrest]
    end.
    rewrite Hrest. cbn [recordCh count]. exists polls.
    unfold recordsOf. cbn [flat_map map snd fst List.concat].
    rewrite len_app, <- app_assoc, Z.add_assoc. reflexivity.
Qed.

(** C3. For every row of every data file, readCSV takes the row when it
    has the expected number of fields, takes it without its last field
    when it has exactly one field more and that field is empty, and
    otherwise fails with "row N: expected X fields, got Y" (under the
    name of the row's file), N being the number of the row in its file,
    counted from 1. The data files are those of [before], whose rows all
    pass, then [dataFile], then those of [after]: when the rows [good] of
    [dataFile] pass and the next one, if any, does not, the records of
    the files of [before] and of the rows of [good] are sent, each with
    its file and its number, and the call returns the error of the next
    row and a count of zero; when [dataFile] ends after [good] and is the
    last file, the call returns the count of all the rows. *)
Theorem readCSV_row_validation :
  forall (comma comment expectedCols : Z)
         (before : list (string * list (list string))) (dataFile : string)
         (good : list (list string)) (rest : list (result (list string)))
         (after : list string) (recordCh0 : list csvRecord),
    (forall n, readerCtx n = None) ->
    Forall (fun f =>
              openCSV (fst f) (if comma =? 0 then 44 else comma) comment
                = Ok (map Ok (snd f)) /\
              Forall (fun record => acceptedRow expectedCols record <> None) (snd f))
           before ->
    openCSV dataFile (if comma =? 0 then 44 else comma) comment
      = Ok (map Ok good ++ rest) ->
    Forall (fun record => acceptedRow expectedCols record <> None) good ->
    match rest with
    | [] => after = []
    | Ok bad :: _ => acceptedRow expectedCols bad = None
    | Err _ :: _ => False
    end ->
    let '(n, err, s) :=
      readCSV comma comment expectedCols (map fst before ++ dataFile :: after)
        recordCh0 in
    recordCh s
      = recordCh0 ++ recordsOf expectedCols before
        ++ numberRows dataFile 1 (map (trimRow expectedCols) good) /\
    match rest with
    | Ok bad :: _ =>
        n = 0 /\
        err = Some (errWrap
                      (errNew ("row " ++ fmt_d (len good + 1) ++ ": expected "
                               ++ fmt_d expectedCols ++ " fields, got "
                               ++ fmt_d (len bad))%string)
                      dataFile)
    | _ => n = len (List.concat (map snd before)) + len good /\ err = None
    end.
Proof.
  intros comma comment expectedCols before dataFile good rest after recordCh0
         Hctx Hbefore Hopen Hgood Hrest.
  unfold readCSV.
  destruct (readFiles_accepted _ comment expectedCols before (dataFile :: after)
              Hctx Hbefore (mkReaderState recordCh0 0 0)) as [polls Hrun].
  rewrite Hrun. cbn [recordCh count Z.add readFiles].
  unfold bind at 1, readerPoll. rewrite Hctx.
  cbn [recordCh count readerPolls].
  unfold readFile, bind at 1, lift. rewrite Hopen.
  rewrite (readRecords_accepted expectedCols dataFile rest Hctx good) by assumption.
  cbn [recordCh count readerPolls].
  destruct rest as [|[bad|e] rest']; [| |contradiction].
  - subst after. cbn [readRecords readFiles ret]. cbn [recordCh count].
    rewrite <- app_assoc. split; [reflexivity|]. split; reflexivity.
  - cbn [readRecords]. unfold bind at 1, lift.
    rewrite checkRecord_acceptedRow, Hrest.
    cbn [recordCh]. rewrite <- app_assoc. split; [reflexivity|].
    split; [reflexivity|].
    rewrite (Z.add_comm 1 (len good)). reflexivity.
Qed.

(** ** Properties of the table descriptor check *)


Lemma rejectDefaults_None (cols : list ColumnDescriptor) :
  Forall (fun col => DefaultExpr col = None) cols -> rejectDefaults cols = None.
Proof.
  induction 1 as [|c cols Hc _ IH]; [reflexivity|].
  cbn [rejectDefaults]. rewrite Hc. exact IH.
Qed.

(** IF NOT EXISTS, INTERLEAVE and AS are refused, in this order, before
    the descriptor is built. *)
Lemma makeCSVTableDescriptor_unsupported (create : CreateTable)
    (parentID tableID walltime : Z) :
  IfNotExists create = true \/ Interleave create <> None \/ AsSource create <> None ->
  exists err,
    makeCSVTableDescriptor create parentID tableID walltime = Err err /\
    (err = errNew "unsupported IF NOT EXISTS"
     \/ err = errNew "interleaved not supported"
     \/ err = errNew "CREATE AS not supported").
Proof.
  intros H. unfold makeCSVTableDescriptor.
  destruct (IfNotExists create); [eauto|].
  destruct (Interleave create); [eauto|].
  destruct (AsSource create); [eauto 6|].
  destruct H as [H|[H|H]]; congruence.
Qed.

(** When the statement passes the three checks, an error of
    sql.MakeTableDesc is returned as it is, before the defaults are
    looked at. *)
Lemma makeCSVTableDescriptor_MakeTableDesc_error (create : CreateTable)
    (parentID tableID walltime : Z) (err : error) :
  IfNotExists create = false -> Interleave create = None -> AsSource create = None ->
  MakeTableDesc create parentID tableID walltime = Err err ->
  makeCSVTableDescriptor create parentID tableID walltime = Err err.
Proof.
  intros Hine Hint Has Hmk. unfold makeCSVTableDescriptor.
  rewrite Hine, Hint, Has, Hmk. reflexivity.
Qed.



(** ** Properties of the sorter and writer *)

Lemma putAll_map (kvCh : list KeyValue) :
  putAll kvCh = map (fun kv => (kvKey kv, RawBytes (kvValue kv))) kvCh.
Proof.
  unfold putAll, RocksDBMultiMap.empty.
  rewrite <- (app_nil_l (map _ kvCh)). generalize (@nil (bytes * bytes)).
  induction kvCh as [|kv kvCh IH]; intros store; cbn [fold_left map].
  - rewrite app_nil_r. reflexivity.
  - rewrite IH. unfold RocksDBMultiMap.Put. rewrite <- app_assoc. reflexivity.
Qed.

(** A turn of the loop that goes through: the entry was added under the
    wall time, and either the builder stays under the maximum and goes
    on, or it exceeds it and its segment is sent. *)
Lemma writeEntry_Ok (sstMaxSize walltime : Z) (v v' : writerVars W)
    (e : bytes * bytes) (s s' : writerState) :
  Logical (mvccTimestamp (mvKey (v_kv v))) = 0 ->
  writeEntry sstMaxSize walltime v e s = (Ok v', s') ->
  exists sst',
    sstAdd (v_sst v) (stamp walltime e) = Ok sst' /\
    sstAdds s' = sstAdds s ++ [stamp walltime e] /\
    v_kv v' = stamp walltime e /\
    v_count v' = v_count v + 1 /\
    ((sstDataSize sst' <= sstMaxSize /\ v_sst v' = sst' /\
      v_firstKey v' = firstKeyWith v e /\ v_lastKey v' = v_lastKey v /\
      contentCh s' = contentCh s)
     \/
     (sstMaxSize < sstDataSize sst' /\
      MakeRocksDBSstFileWriter = Ok (v_sst v') /\
      v_firstKey v' = None /\ v_lastKey v' = Some (fst e) /\
      exists d, sstFinish sst' = Ok d /\
        contentCh s' = contentCh s
          ++ [mkSstContent d (sstDataSize sst')
                (mkSpan (firstKeyWith v e) (Key_Next (fst e)))])).
Proof.
  intros Hlog H. unfold stamp, firstKeyWith.
  unfold writeEntry, writeSST, callAdd, writerPoll, bind, lift, ret, fail, modify in H.
  rewrite Hlog in H.
  assert (Hgo :
    match v_firstKey v with
    | None => Key_Equal (Some (fst e)) (v_lastKey v) = false
    | Some _ => True
    end).
  { destruct (v_firstKey v); [exact I|].
    destruct (Key_Equal (Some (fst e)) (v_lastKey v)); [discriminate|reflexivity]. }
  assert (H' :
    (let kv := mkMVCCKeyValue (mkMVCCKey (fst e) (mkTimestamp walltime 0)) (snd e) in
     let firstKey := match v_firstKey v with None => Some (fst e) | Some k => Some k end in
     match sstAdd (v_sst v) kv with
     | Err err => False
     | Ok sst =>
         if sstDataSize sst >? sstMaxSize then
           match sstFinish sst with
           | Err _ => False
           | Ok d =>
               match writerCtx (writerPolls s) with
               | Some _ => False
               | None =>
                   match MakeRocksDBSstFileWriter with
                   | Err _ => False
                   | Ok sst'' =>
                       v' = mkWriterVars sst'' kv None (Some (fst e)) (v_count v + 1) /\
                       s' = mkWriterState
                              (contentCh s ++ [mkSstContent d (sstDataSize sst)
                                                 (mkSpan firstKey (Key_Next (fst e)))])
                              (sstAdds s ++ [kv]) (S (writerPolls s))
                   end
               end
           end
         else
           v' = mkWriterVars sst kv firstKey (v_lastKey v) (v_count v + 1) /\
           s' = mkWriterState (contentCh s) (sstAdds s ++ [kv]) (writerPolls s)
     end)).
  { cbv zeta.
    destruct (v_firstKey v) as [k|]; [|rewrite Hgo in H];
      (destruct (sstAdd (v_sst v) _) as [sst|err]; [|discriminate H];
       destruct (sstDataSize sst >? sstMaxSize);
       [ destruct (sstFinish sst) as [d|err]; [|discriminate H];
         cbn [contentCh sstAdds writerPolls] in H;
         destruct (writerCtx (writerPolls s)); [discriminate H|];
         destruct MakeRocksDBSstFileWriter as [sst''|err]; [|discriminate H];
         injection H as <- <-; split; reflexivity
       | injection H as <- <-; split; reflexivity ]). }
  clear H Hgo. cbv zeta in H'.
  destruct (sstAdd (v_sst v) _) as [sst|err]; [|contradiction].
  exists sst. split; [reflexivity|].
  destruct (sstDataSize sst >? sstMaxSize) eqn:Hsize.
  - apply Z.gtb_lt in Hsize.
    destruct (sstFinish sst) as [d|err]; [|contradiction].
    destruct (writerCtx (writerPolls s)); [contradiction|].
    destruct MakeRocksDBSstFileWriter as [sst''|err]; [|contradiction].
    destruct H' as [-> ->]. cbn. repeat split. right. repeat split.
    + lia.
    + exists d. split; reflexivity.
  - rewrite Z.gtb_ltb in Hsize. apply Z.ltb_ge in Hsize.
    destruct H' as [-> ->]. cbn. repeat split. left. repeat split. exact Hsize.
Qed.

(** A turn of the loop that fails: at most the entry was added, and at
    most one segment, of more than the maximum, was sent. *)
Lemma writeEntry_Err (sstMaxSize walltime : Z) (v : writerVars W)
    (e : bytes * bytes) (s s' : writerState) (err : error) :
  Logical (mvccTimestamp (mvKey (v_kv v))) = 0 ->
  writeEntry sstMaxSize walltime v e s = (Err err, s') ->
  (sstAdds s' = sstAdds s \/ sstAdds s' = sstAdds s ++ [stamp walltime e]) /\
  (contentCh s' = contentCh s \/
   exists sc, contentCh s' = contentCh s ++ [sc] /\ sstMaxSize < size sc).
Proof.
  intros Hlog H. unfold stamp.
  unfold writeEntry, writeSST, callAdd, writerPoll, bind, lift, ret, fail, modify in H.
  rewrite Hlog in H.
  assert (H' :
    (match v_firstKey v with
     | None => Key_Equal (Some (fst e)) (v_lastKey v) = true /\ s' = s
     | Some _ => False
     end)
    \/
    (let kv := mkMVCCKeyValue (mkMVCCKey (fst e) (mkTimestamp walltime 0)) (snd e) in
     match sstAdd (v_sst v) kv with
     | Err _ => s' = mkWriterState (contentCh s) (sstAdds s ++ [kv]) (writerPolls s)
     | Ok sst =>
         sstMaxSize < sstDataSize sst /\
         sstAdds s' = sstAdds s ++ [kv] /\
         (contentCh s' = contentCh s \/
          exists d, contentCh s' = contentCh s
                      ++ [mkSstContent d (sstDataSize sst)
                            (mkSpan (firstKeyWith v e) (Key_Next (fst e)))])
     end)).
  { unfold firstKeyWith. cbv zeta.
    destruct (v_firstKey v) as [k|];
      [|destruct (Key_Equal (Some (fst e)) (v_lastKey v));
        [left; injection H as _ <-; split; reflexivity|]];
      (right;
       destruct (sstAdd (v_sst v) _) as [sst|err'];
       [|injection H as _ <-; reflexivity];
       destruct (sstDataSize sst >? sstMaxSize) eqn:Hsize; [|discriminate H];
       apply Z.gtb_lt in Hsize; split; [lia|];
       destruct (sstFinish sst) as [d|err'];
       [|injection H as _ <-; split; [reflexivity|left; reflexivity]];
       cbn [contentCh sstAdds writerPolls] in H;
       destruct (writerCtx (writerPolls s));
       [injection H as _ <-; split; [reflexivity|left; reflexivity]|];
       destruct MakeRocksDBSstFileWriter as [sst''|err']; [discriminate H|];
       injection H as _ <-; split; [reflexivity|right; exists d; reflexivity]). }
  clear H. destruct H' as [H'|H'].
  - destruct (v_firstKey v); [contradiction|]. destruct H' as [_ ->].
    split; left; reflexivity.
  - cbv zeta in H'. destruct (sstAdd (v_sst v) _) as [sst|err'].
    + destruct H' as (Hsize & Hadds & [Hch|(d & Hch)]).
      * split; [right; exact Hadds|left; exact Hch].
      * split; [right; exact Hadds|right]. eexists. split; [exact Hch|exact Hsize].
    + subst s'. cbn. split; [right|left]; reflexivity.
Qed.

(** A turn that goes through at the first entry of a segment has found
    the key different from the last key of the segment before. *)
Lemma writeEntry_Ok_first (sstMaxSize walltime : Z) (v v' : writerVars W)
    (e : bytes * bytes) (s s' : writerState) :
  writeEntry sstMaxSize walltime v e s = (Ok v', s') ->
  v_firstKey v = None ->
  Key_Equal (Some (fst e)) (v_lastKey v) = false.
Proof.
  intros H Hfirst.
  unfold writeEntry, bind, fail in H. rewrite Hfirst in H.
  destruct (Key_Equal (Some (fst e)) (v_lastKey v)); [discriminate|reflexivity].
Qed.

(** The errors of a turn of the loop: the duplicate-key error at the first
    entry of a segment, the error of [Add] under the message that names
    duplicate keys, or an error of [Finish], of the context or of the
    making of the next writer. *)
Lemma writeEntry_Err_cases (sstMaxSize walltime : Z) (v : writerVars W)
    (e : bytes * bytes) (s s' : writerState) (err : error) :
  Logical (mvccTimestamp (mvKey (v_kv v))) = 0 ->
  writeEntry sstMaxSize walltime v e s = (Err err, s') ->
  (v_firstKey v = None /\ Key_Equal (Some (fst e)) (v_lastKey v) = true /\
   err = errNew ("duplicate key: " ++ fmt_key (fst e))%string)
  \/
  (exists cause,
     sstAdd (v_sst v) (stamp walltime e) = Err cause /\
     err = errWrap cause (errSSTCreationMaybeDuplicate (fmt_key (fst e))))
  \/
  (exists sst',
     sstAdd (v_sst v) (stamp walltime e) = Ok sst' /\
     (sstFinish sst' = Err err \/ writerCtx (writerPolls s) = Some err
      \/ MakeRocksDBSstFileWriter = Err err)).
Proof.
  intros Hlog H. unfold stamp.
  unfold writeEntry, writeSST, callAdd, writerPoll, bind, lift, ret, fail, modify in H.
  rewrite Hlog in H.
  assert (Hrest :
    (match sstAdd (v_sst v)
             (mkMVCCKeyValue (mkMVCCKey (fst e) (mkTimestamp walltime 0)) (snd e)) with
     | Err cause => err = errWrap cause (errSSTCreationMaybeDuplicate (fmt_key (fst e)))
     | Ok sst' => sstFinish sst' = Err err \/ writerCtx (writerPolls s) = Some err
                  \/ MakeRocksDBSstFileWriter = Err err
     end)
    \/ (v_firstKey v = None /\ Key_Equal (Some (fst e)) (v_lastKey v) = true /\
        err = errNew ("duplicate key: " ++ fmt_key (fst e))%string)).
  { destruct (v_firstKey v) as [k|];
      [|destruct (Key_Equal (Some (fst e)) (v_lastKey v));
        [right; injection H as <- _; repeat split|]];
      (left;
       destruct (sstAdd (v_sst v) _) as [sst'|cause];
       [|injection H as <- _; reflexivity];
       destruct (sstDataSize sst' >? sstMaxSize); [|discriminate H];
       destruct (sstFinish sst') as [d|err'];
       [|injection H as <- _; left; reflexivity];
       cbn [contentCh sstAdds writerPolls] in H;
       destruct (writerCtx (writerPolls s));
       [injection H as <- _; right; left; reflexivity|];
       destruct MakeRocksDBSstFileWriter as [sst''|err']; [discriminate H|];
       injection H as <- _; right; right; reflexivity). }
  destruct Hrest as [Hrest|Hdup]; [|left; exact Hdup]. right.
  destruct (sstAdd (v_sst v) _) as [sst'|cause].
  - right. exists sst'. split; [reflexivity|exact Hrest].
  - left. exists cause. split; [reflexivity|exact Hrest].
Qed.

(** The loop adds the entries in order, under the wall time, up to the
    entry at which it stops. *)
Lemma writeEntries_adds (sstMaxSize walltime : Z) (entries : list (bytes * bytes)) :
  forall (v : writerVars W) (s s' : writerState) (res : result (writerVars W)),
    Logical (mvccTimestamp (mvKey (v_kv v))) = 0 ->
    writeEntries sstMaxSize walltime v entries s = (res, s') ->
    (exists k, sstAdds s' = sstAdds s ++ map (stamp walltime) (firstn k entries)) /\
    (forall v', res = Ok v' ->
       sstAdds s' = sstAdds s ++ map (stamp walltime) entries).
Proof.
  induction entries as [|e entries IH]; intros v s s' res Hlog Hrun.
  - cbn in Hrun. injection Hrun as <- <-.
    split; [exists 0%nat|intros]; cbn; rewrite app_nil_r; reflexivity.
  - cbn [writeEntries] in Hrun. unfold bind in Hrun.
    destruct (writeEntry sstMaxSize walltime v e s) as [[v1|err] s1] eqn:Hstep.
    + destruct (writeEntry_Ok _ _ _ _ _ _ _ Hlog Hstep)
        as (sst' & _ & Hadds & Hkv & _).
      assert (Hlog1 : Logical (mvccTimestamp (mvKey (v_kv v1))) = 0)
        by (rewrite Hkv; reflexivity).
      destruct (IH _ _ _ _ Hlog1 Hrun) as ((k & Hk) & Hall).
      split.
      * exists (S k). rewrite Hk, Hadds, <- app_assoc. reflexivity.
      * intros v' Hv'. rewrite (Hall v' Hv'), Hadds, <- app_assoc. reflexivity.
    + injection Hrun as <- <-.
      destruct (writeEntry_Err _ _ _ _ _ _ _ Hlog Hstep) as ([Hadds|Hadds] & _).
      * split; [exists 0%nat|discriminate].
        cbn. rewrite app_nil_r. exact Hadds.
      * split; [exists 1%nat|discriminate].
        cbn [firstn map]. exact Hadds.
Qed.


(** What follows the loop sends at most one more segment and adds
    nothing. *)
Lemma writeLast_cases (v : writerVars W) (s s' : writerState) (res : result Z) :
  writeLast v s = (res, s') ->
  sstAdds s' = sstAdds s /\
  ((contentCh s' = contentCh s /\
    (forall n, res = Ok n -> sstDataSize (v_sst v) <= 0))
   \/
   (exists d,
      res = Ok (v_count v) /\ 0 < sstDataSize (v_sst v) /\
      sstFinish (v_sst v) = Ok d /\
      contentCh s' = contentCh s
        ++ [mkSstContent d (sstDataSize (v_sst v))
              (mkSpan (v_firstKey v) (Key_Next (mvccKey (mvKey (v_kv v)))))])).
Proof.
  unfold writeLast, writeSST, writerPoll, bind, lift, ret, modify.
  destruct (sstDataSize (v_sst v) >? 0) eqn:Hsize.
  - apply Z.gtb_lt in Hsize.
    destruct (sstFinish (v_sst v)) as [d|err].
    + cbn [contentCh sstAdds writerPolls].
      destruct (writerCtx (writerPolls s)); intros [= <- <-]; cbn.
      * split; [reflexivity|left]. split; [reflexivity|discriminate].
      * split; [reflexivity|right]. exists d. repeat split. exact Hsize.
    + intros [= <- <-]. split; [reflexivity|left].
      split; [reflexivity|discriminate].
  - rewrite Z.gtb_ltb in Hsize. apply Z.ltb_ge in Hsize.
    intros [= <- <-]. split; [reflexivity|left]. split; [reflexivity|].
    intros n _. exact Hsize.
Qed.





Lemma lastKeyOf_app (pre post : list (bytes * bytes)) :
  post <> [] -> lastKeyOf (pre ++ post) = lastKeyOf post.
Proof.
  intros Hpost. unfold lastKeyOf.
  destruct (exists_last Hpost) as (post' & e & ->).
  rewrite app_assoc, !last_last. reflexivity.
Qed.





(** The three ways the loop and what follows it end: the loop fails; the
    iterator fails after the loop; or the last segment is considered. *)
Lemma writeRocksDB_body_cases (sstMaxSize walltime : Z) (v0 : writerVars W)
    (entries : list (bytes * bytes)) (s0 s : writerState) (res : result Z) :
  (v <- writeEntries sstMaxSize walltime v0 entries ;; iterEnd ;;; writeLast v) s0
    = (res, s) ->
  (exists err, writeEntries sstMaxSize walltime v0 entries s0 = (Err err, s)
               /\ res = Err err)
  \/ (exists v n err,
        writeEntries sstMaxSize walltime v0 entries s0 = (Ok v, s)
        /\ iterErr = Some (n, err) /\ res = Err err)
  \/ (exists v s1,
        writeEntries sstMaxSize walltime v0 entries s0 = (Ok v, s1)
        /\ iterErr = None /\ writeLast v s1 = (res, s)).
Proof.
  unfold bind, iterEnd, fail, ret.
  destruct (writeEntries sstMaxSize walltime v0 entries s0) as [[v|err] s1].
  - destruct iterErr as [[n err]|].
    + intros [= <- <-]. right. left. exists v, n, err. repeat split.
    + intros H. right. right. exists v, s1. repeat split. exact H.
  - intros [= <- <-]. left. exists err. split; reflexivity.
Qed.

Lemma visited_prefix (sorted : list (bytes * bytes)) (k : nat) :
  exists k', firstn k (visited sorted) = firstn k' sorted.
Proof.
  unfold visited. destruct iterErr as [[n err]|].
  - exists (Nat.min k n). apply firstn_firstn.
  - exists k. reflexivity.
Qed.

(** C8. Every key/value pair that writeRocksDB gives to the SST builder
    carries the wall time of the pipeline, the [walltime] argument,
    whatever the clock says when the loop starts ([now]) and whatever
    came with the pair on kvCh: the multi-map keeps the key and the raw
    bytes only, and the pairs added are its entries, in sorted order, up
    to the one at which the function stops (all of them when it
    succeeds), each under [walltime]. *)
Theorem writeRocksDB_stamps_walltime :
  forall (kvCh : list KeyValue) (sstMaxSize : Z) (contentCh0 : list sstContent)
         (walltime now : Z),
    let sorted :=
      RocksDBMultiMap.iterate
        (map (fun kv => (kvKey kv, RawBytes (kvValue kv))) kvCh) in
    let '(n, err, s) := writeRocksDB kvCh sstMaxSize contentCh0 walltime now in
    Forall (fun kv => WallTime (mvccTimestamp (mvKey kv)) = walltime) (sstAdds s) /\
    (exists k, sstAdds s = map (stamp walltime) (firstn k sorted)) /\
    (err = None -> sstAdds s = map (stamp walltime) sorted).
Proof.
  intros kvCh sstMaxSize contentCh0 walltime now sorted.
  assert (Hstamped : forall k,
            Forall (fun kv => WallTime (mvccTimestamp (mvKey kv)) = walltime)
                   (map (stamp walltime) (firstn k sorted))).
  { intros k. apply Forall_map, Forall_forall. reflexivity. }
  unfold writeRocksDB. rewrite putAll_map. fold sorted.
  assert (Hexit : forall err0 : error,
            let '(n, err, s) :=
              (0, Some err0, mkWriterState contentCh0 [] 0) in
            Forall (fun kv => WallTime (mvccTimestamp (mvKey kv)) = walltime)
                   (sstAdds s) /\
            (exists k, sstAdds s = map (stamp walltime) (firstn k sorted)) /\
            (err = None -> sstAdds s = map (stamp walltime) sorted)).
  { intros err0. cbn [sstAdds]. split; [constructor|].
    split; [exists 0%nat; reflexivity|discriminate]. }
  destruct putErr as [err0|]; [apply Hexit|].
  destruct MakeRocksDBSstFileWriter as [sst|err0]; [|apply Hexit].
  clear Hexit.
  set (v0 := mkWriterVars sst _ None None 0).
  set (s0 := mkWriterState contentCh0 [] 0).
  destruct ((v <- writeEntries sstMaxSize walltime v0 (visited sorted) ;;
             iterEnd ;;; writeLast v) s0) as [res s] eqn:Hbody.
  assert (Hadds : exists k, sstAdds s = map (stamp walltime) (firstn k sorted)).
  { destruct (writeRocksDB_body_cases _ _ _ _ _ _ _ Hbody)
      as [(err & Hrun & _)|[(v & n & err & Hrun & _)|(v & s1 & Hrun & _ & Hlast)]];
      destruct (writeEntries_adds _ _ _ v0 s0 _ _ eq_refl Hrun) as ((k & Hk) & _);
      destruct (visited_prefix sorted k) as (k' & Hk');
      exists k'; rewrite <- Hk'; try exact Hk.
    destruct (writeLast_cases _ _ _ _ Hlast) as (-> & _). exact Hk. }
  assert (Hall : forall n, res = Ok n -> sstAdds s = map (stamp walltime) sorted).
  { intros n ->.
    destruct (writeRocksDB_body_cases _ _ _ _ _ _ _ Hbody)
      as [(err & _ & Hres)|[(v & n' & err & _ & _ & Hres)
                           |(v & s1 & Hrun & Hiter & Hlast)]];
      try discriminate.
    destruct (writeEntries_adds _ _ _ v0 s0 _ _ eq_refl Hrun) as (_ & Hok).
    specialize (Hok v eq_refl). unfold visited in Hok. rewrite Hiter in Hok.
    destruct (writeLast_cases _ _ _ _ Hlast) as (-> & _). exact Hok. }
  destruct Hadds as (k & Hk).
  destruct res as [n|err]; (split; [rewrite Hk; apply Hstamped|]);
    (split; [exists k; exact Hk|]); [intros _; exact (Hall n eq_refl)|discriminate].
Qed.


(** ** Properties of the finalizer *)

Lemma insertFile_Permutation (f : BackupDescriptor_File)
    (sorted : list BackupDescriptor_File) :
  Permutation (insertFile f sorted) (f :: sorted).
Proof.
  induction sorted as [|g sorted IH]; cbn [insertFile]; [reflexivity|].
  destruct (fileLess f g); [reflexivity|].
  rewrite IH. apply perm_swap.
Qed.

Lemma sortFiles_Permutation (files : list BackupDescriptor_File) :
  Permutation (sortFiles files) files.
Proof.
  unfold sortFiles.
  assert (H : forall acc, Permutation (fold_left (fun sorted f => insertFile f sorted)
                                         files acc) (acc ++ files)).
  { induction files as [|f files IH]; intros acc; cbn [fold_left].
    - rewrite app_nil_r. reflexivity.
    - rewrite IH, insertFile_Permutation.
      change (f :: acc) with ([f] ++ acc).
      rewrite (Permutation_app_comm [f] acc), <- app_assoc. reflexivity. }
  exact (H []).
Qed.

(** The loop of makeBackup, when no checksum and no write fails: each
    segment is written under the next number and recorded with its
    checksum. *)
Lemma writeSegments_succeeds (contentCh : list sstContent) :
  forall (checksums : list bytes) (i : Z) (s : backupState),
    Forall2 (fun sst c => SHA512ChecksumData (data sst) = Ok c) contentCh checksums ->
    (forall written name content,
        In (name, content) (segmentFiles (i + 1) contentCh) ->
        writeFileErr written name content = None) ->
    exists s',
      writeSegments i contentCh s = (Ok (i + len contentCh), s') /\
      es s' = es s ++ segmentFiles (i + 1) contentCh /\
      Files (backupDesc s')
        = Files (backupDesc s) ++ fileEntries (i + 1) contentCh checksums.
Proof.
  induction contentCh as [|sst contentCh IH]; intros checksums i s Hsum Hwrite.
  - exists s. cbn. rewrite Z.add_0_r, !app_nil_r. repeat split.
  - inversion Hsum as [|? c ? checksums' Hc Hrest]; subst.
    cbn [writeSegments]. unfold bind at 1.
    unfold writeSegment, bind, setDesc, modify, lift, WriteFile, ret.
    rewrite Hc. cbn [es backupDesc].
    rewrite (Hwrite _ _ (data sst)) by (left; reflexivity).
    cbn [es backupDesc].
    edestruct (IH checksums' (i + 1)) as (s' & Hrun & Hes & Hfiles);
      [exact Hrest| |].
    { intros written name content Hin. apply Hwrite. right. exact Hin. }
    exists s'. rewrite Hrun. cbn [es backupDesc Files] in Hes, Hfiles.
    rewrite len_cons, Hes, Hfiles, <- !app_assoc.
    split; [f_equal; f_equal; lia|]. split; reflexivity.
Qed.

(** finalizeCSVBackup keeps the entries of the descriptor, in another
    order, and writes at most the descriptor. *)
Lemma finalizeCSVBackup_effect (parentID : Z) (tableDesc : TableDescriptor)
    (execCfg : option (Z * string)) (s s' : backupState) (res : result unit) :
  finalizeCSVBackup parentID tableDesc execCfg s = (res, s') ->
  Permutation (Files (backupDesc s')) (Files (backupDesc s)) /\
  ((es s' = es s /\ res <> Ok tt) \/
   (exists descBuf,
      res = Ok tt /\ Marshal (backupDesc s') = Ok descBuf /\
      es s' = es s ++ [(BackupDescriptorName, descBuf)])).
Proof.
  unfold finalizeCSVBackup.
  destruct (len (Files (backupDesc s)) =? 0).
  - intros [= <- <-]. split; [reflexivity|left]. split; [reflexivity|discriminate].
  - unfold bind, setDesc, modify, lift, WriteFile. cbn [es backupDesc].
    match goal with |- context [Marshal ?d] => set (desc := d) end.
    assert (Hperm : Permutation (Files desc) (Files (backupDesc s)))
      by apply sortFiles_Permutation.
    destruct (Marshal desc) as [descBuf|err] eqn:Hmarshal.
    + cbn [es backupDesc].
      destruct (writeFileErr (es s) BackupDescriptorName descBuf);
        intros [= <- <-]; cbn [es backupDesc]; (split; [exact Hperm|]).
      * left. split; [reflexivity|discriminate].
      * right. exists descBuf. repeat split. exact Hmarshal.
    + intros [= <- <-]. cbn [es backupDesc]. split; [exact Hperm|left].
      split; [reflexivity|discriminate].
Qed.

(** C4. When the descriptor's file list is empty, finalizeCSVBackup fails
    with "no files in backup" and leaves the destination and the
    descriptor as they are; makeBackup on a channel that closes with no
    segment has written nothing and returns zero, and its error, once the
    destination is open, is this one. *)
Theorem finalizeCSVBackup_no_files :
  forall (parentID : Z) (tableDesc : TableDescriptor)
         (execCfg : option (Z * string)) (s : backupState),
    Files (backupDesc s) = [] ->
    finalizeCSVBackup parentID tableDesc execCfg s
      = (Err (errNew "no files in backup"), s) /\
    forall destDir walltime es0,
      let '(n, err, s') :=
        makeBackup parentID tableDesc destDir [] walltime execCfg es0 in
      n = 0 /\ es s' = es0 /\
      (exportStorageErr destDir = None -> err = Some (errNew "no files in backup")).
Proof.
  intros parentID tableDesc execCfg s Hfiles. split.
  - unfold finalizeCSVBackup. rewrite Hfiles. reflexivity.
  - intros destDir walltime es0. unfold makeBackup.
    destruct (exportStorageErr destDir); [repeat split; discriminate|].
    cbn. repeat split.
Qed.

(** C7, as amended. On every run of makeBackup in which no checksum and
    no write of a segment fails, the i-th segment received is written to
    the destination under the name "i.sst", i counted from 1, before
    anything else; the descriptor's entries are those of the segments,
    each with its name, its span and the SHA-512 checksum of its bytes;
    and the count returned is the number of segments written, the length
    of the descriptor's file list. The descriptor is written after the
    segments when the run succeeds, and nothing else is. *)
Theorem makeBackup_names_and_counts :
  forall (parentID : Z) (tableDesc : TableDescriptor) (destDir : string)
         (contentCh : list sstContent) (checksums : list bytes) (walltime : Z)
         (execCfg : option (Z * string)) (es0 : ExportStorage),
    exportStorageErr destDir = None ->
    Forall2 (fun sst c => SHA512ChecksumData (data sst) = Ok c) contentCh checksums ->
    (forall written name content,
        In (name, content) (segmentFiles 1 contentCh) ->
        writeFileErr written name content = None) ->
    let '(n, err, s) :=
      makeBackup parentID tableDesc destDir contentCh walltime execCfg es0 in
    n = len contentCh /\
    n = len (Files (backupDesc s)) /\
    Permutation (Files (backupDesc s)) (fileEntries 1 contentCh checksums) /\
    exists rest,
      es s = es0 ++ segmentFiles 1 contentCh ++ rest /\
      (err = None ->
       exists descBuf, Marshal (backupDesc s) = Ok descBuf
                       /\ rest = [(BackupDescriptorName, descBuf)]) /\
      (err <> None -> rest = []).
Proof.
  intros parentID tableDesc destDir contentCh checksums walltime execCfg es0
         Hopen Hsum Hwrite.
  unfold makeBackup. rewrite Hopen.
  destruct (writeSegments_succeeds contentCh checksums 0
              (mkBackupState es0 (newBackupDescriptor walltime)) Hsum Hwrite)
    as (s1 & Hrun & Hes & Hfiles).
  rewrite Hrun. cbn [es backupDesc newBackupDescriptor Files app Z.add] in Hes, Hfiles.
  assert (Hlen : len (fileEntries 1 contentCh checksums) = len contentCh).
  { clear -Hsum. generalize 1. induction Hsum as [|sst c cs cs' _ _ IH]; intros i.
    - reflexivity.
    - cbn [fileEntries]. rewrite !len_cons, IH. reflexivity. }
  destruct (finalizeCSVBackup parentID tableDesc execCfg s1) as [res s2] eqn:Hfin.
  destruct (finalizeCSVBackup_effect _ _ _ _ _ _ Hfin) as (Hperm & Hcase).
  rewrite Hfiles in Hperm.
  assert (Hcount : len (Files (backupDesc s2)) = len contentCh).
  { unfold len at 1. rewrite (Permutation_length Hperm). exact Hlen. }
  destruct Hcase as [(Hes2 & Hres)|(descBuf & -> & Hmarshal & Hes2)].
  - destruct res as [[]|err]; [congruence|].
    split; [exact Hcount|]. split; [reflexivity|]. split; [exact Hperm|].
    exists []. rewrite app_nil_r, Hes2, Hes.
    split; [reflexivity|]. split; [discriminate|reflexivity].
  - split; [exact Hcount|]. split; [reflexivity|]. split; [exact Hperm|].
    exists [(BackupDescriptorName, descBuf)]. rewrite Hes2, Hes, <- app_assoc.
    split; [reflexivity|]. split; [|congruence].
    intros _. exists descBuf. split; [exact Hmarshal|reflexivity].
Qed.

(** ** Properties of the plan hook *)

Lemma bind_Ok {S A B : Type} (m : M S A) (k : A -> M S B) (s s' : S) (b : B) :
  bind m k s = (Ok b, s') ->
  exists a s1, m s = (Ok a, s1) /\ k a s1 = (Ok b, s').
Proof.
  unfold bind. destruct (m s) as [[a|err] s1]; [eauto|discriminate].
Qed.

Lemma lift_Ok {S A : Type} (res : result A) (s s' : S) (a : A) :
  lift res s = (Ok a, s') -> res = Ok a /\ s' = s.
Proof. unfold lift. intros [= -> ->]. split; reflexivity. Qed.

Lemma check_Ok {S : Type} (o : option error) (s s' : S) (u : unit) :
  check o s = (Ok u, s') -> o = None /\ s' = s.
Proof.
  unfold check, fail, ret. destruct o; [discriminate|].
  intros [= _ ->]. split; reflexivity.
Qed.

Lemma pure_bind {S A B : Type} (m : M S A) (k : A -> M S B) :
  pure m -> (forall a, pure (k a)) -> pure (bind m k).
Proof.
  intros Hm Hk s res s'. unfold bind.
  destruct (m s) as [[a|err] s1] eqn:Hms.
  - intros Hka. rewrite (Hk a _ _ _ Hka). exact (Hm _ _ _ Hms).
  - intros [= _ <-]. exact (Hm _ _ _ Hms).
Qed.

Lemma pure_lift {S A : Type} (res : result A) : pure (@lift S A res).
Proof. intros s res' s' [= _ <-]. reflexivity. Qed.

Lemma pure_ret {S A : Type} (a : A) : pure (@ret S A a).
Proof. intros s res' s' [= _ <-]. reflexivity. Qed.

Lemma pure_fail {S A : Type} (err : error) : pure (@fail S A err).
Proof. intros s res' s' [= _ <-]. reflexivity. Qed.

Lemma pure_optional {S A B : Type} (o : option A) (k : A -> M S B) (dflt : B) :
  (forall a, pure (k a)) -> pure (optional o k dflt).
Proof. intros Hk. destruct o; [apply Hk|apply pure_ret]. Qed.

Create HintDb pure.
#[local] Hint Resolve pure_lift pure_ret pure_fail : pure.

(** Lines 730-815 send nothing on resultsCh. *)
Lemma importSetup_pure (importStmt : Import) (filesFn : result (list string))
    (createFileFn : result string) (optsFn : result (list (string * string))) :
  pure (importSetup importStmt filesFn createFileFn optsFn).
Proof.
  unfold importSetup.
  repeat (apply pure_bind; [|intros ?]);
    repeat (apply pure_optional; intros ?); auto with pure.
  - destruct (negb _); [|auto with pure].
    destruct (lookup _ restoreOptIntoDB); [auto with pure|].
    destruct (negb _); auto with pure.
  - destruct (lookup _ importOptionTemp); auto with pure.
  - destruct (CreateDefs importStmt); [auto with pure|].
    repeat (apply pure_bind; [|intros ?]); auto with pure.
    destruct (negb _); auto with pure.
Qed.

(** The options they leave are those of [optsFn], and [transformOnly]
    says whether transform_only is among them. *)
Lemma importSetup_opts (importStmt : Import) (filesFn : result (list string))
    (createFileFn : result string) (optsFn : result (list (string * string)))
    (resultsCh resultsCh' : list (list Datum)) (a : importArgs) :
  importSetup importStmt filesFn createFileFn optsFn resultsCh = (Ok a, resultsCh') ->
  optsFn = Ok (a_opts a) /\
  a_transformOnly a =
    match lookup (a_opts a) importOptionTransformOnly with
    | Some _ => true
    | None => false
    end.
Proof.
  unfold importSetup. intros H.
  apply bind_Ok in H. destruct H as (opts & s1 & Hopts & H).
  apply lift_Ok in Hopts. destruct Hopts as [Hopts _].
  repeat (apply bind_Ok in H; destruct H as (? & ? & _ & H)).
  unfold ret in H. injection H as <- _. cbn [a_opts a_transformOnly].
  split; [exact Hopts|reflexivity].
Qed.

(** C10. On a successful transform-only import the function of the plan
    hook sends one row: the job's id, the status "succeeded", the
    fraction 1.0 and four counts that are 0, whatever the transform
    counted (rows, KVs, segments, bytes): the transform's counts are
    dropped, and the row holds constants beside the job's id. *)
Theorem importFn_transform_only_row :
  forall (importStmt : Import) (filesFn : result (list string))
         (createFileFn : result string) (optsFn : result (list (string * string)))
         (opts : list (string * string)) (resultsCh resultsCh' : list (list Datum)),
    optsFn = Ok opts ->
    lookup opts importOptionTransformOnly <> None ->
    importFn importStmt filesFn createFileFn optsFn resultsCh = (Ok tt, resultsCh') ->
    resultsCh' =
      resultsCh ++ [[DInt jobID; DString "succeeded"; DFloat 1%float;
                     DInt 0; DInt 0; DInt 0; DInt 0]].
Proof.
  intros importStmt filesFn createFileFn optsFn opts resultsCh resultsCh'
         Hopts Honly H.
  unfold importFn in H.
  apply bind_Ok in H. destruct H as (a & s1 & Hsetup & H).
  pose proof (importSetup_pure _ _ _ _ _ _ _ Hsetup) as ->.
  destruct (importSetup_opts _ _ _ _ _ _ _ Hsetup) as (Ha & Htransform).
  rewrite Hopts in Ha. injection Ha as Ha. rewrite <- Ha in Htransform.
  clear Ha Hsetup.
  apply bind_Ok in H. destruct H as (tableDesc & s2 & Hdesc & H).
  apply lift_Ok in Hdesc. destruct Hdesc as [_ ->].
  apply bind_Ok in H. destruct H as (jobDesc & s3 & Hjob & H).
  apply lift_Ok in Hjob. destruct Hjob as [_ ->].
  apply bind_Ok in H. destruct H as (u1 & s4 & Hc1 & H).
  apply check_Ok in Hc1. destruct Hc1 as [_ ->].
  apply bind_Ok in H. destruct H as (u2 & s5 & Hc2 & H).
  apply check_Ok in Hc2. destruct Hc2 as [_ ->].
  apply bind_Ok in H. destruct H as (u3 & s6 & Hc3 & H).
  apply check_Ok in Hc3. destruct Hc3 as [_ ->].
  apply bind_Ok in H. destruct H as (u4 & s7 & Hc4 & H).
  apply check_Ok in Hc4. destruct Hc4 as [_ ->].
  rewrite Htransform in H.
  destruct (lookup opts importOptionTransformOnly); [|congruence].
  unfold modify in H. injection H as <-. reflexivity.
Qed.

(** ** Properties of the sampler *)

(** With a sample size other than zero, the [i]-th KV meets the [i]-th
    draw. *)
Lemma sampleKVs_sampledRows (cpSampleSize : Z) (kvCh : list KeyValue) :
  forall (i : nat) (s s' : samplerState) (res : result unit),
    (cpSampleSize <> 0 -> draws s = i) ->
    sampleKVs (chooseSampleFunc cpSampleSize) kvCh s = (res, s') ->
    (exists k, sampleCh s' = sampleCh s ++ firstn k (sampledRows cpSampleSize i kvCh)) /\
    (forall u, res = Ok u ->
       sampleCh s' = sampleCh s ++ sampledRows cpSampleSize i kvCh).
Proof.
  induction kvCh as [|kv kvCh IH]; intros i s s' res Hdraws Hrun.
  - cbn in Hrun. injection Hrun as <- <-.
    split; [exists 0%nat|intros]; cbn; rewrite app_nil_r; reflexivity.
  - cbn [sampleKVs sampledRows] in *. unfold bind in Hrun.
    assert (Hfn : chooseSampleFunc cpSampleSize kv (draws s)
                  = (taken cpSampleSize i kv,
                     if cpSampleSize =? 0 then draws s else S i)).
    { unfold chooseSampleFunc, taken, sampleAll, sample.
      destruct (Z.eqb_spec cpSampleSize 0) as [Hz|Hnz]; [reflexivity|].
      rewrite (Hdraws Hnz). reflexivity. }
    rewrite Hfn in Hrun. clear Hfn.
    set (n := if cpSampleSize =? 0 then draws s else S i) in Hrun.
    assert (Hn : cpSampleSize <> 0 -> n = S i).
    { intros Hnz. subst n. destruct (Z.eqb_spec cpSampleSize 0); congruence. }
    destruct (taken cpSampleSize i kv).
    + destruct (samplerCtx (samplerPolls s)) as [err|].
      * injection Hrun as <- <-. cbn [sampleCh].
        split; [exists 0%nat; cbn; rewrite app_nil_r; reflexivity|discriminate].
      * eapply (IH (S i)) in Hrun; [|exact Hn].
        destruct Hrun as ((k & Hk) & Hall).
        cbn [sampleCh] in Hk, Hall. rewrite <- app_assoc in Hk, Hall. split.
        -- exists (S k). exact Hk.
        -- exact Hall.
    + eapply (IH (S i)) in Hrun; [|exact Hn].
      destruct Hrun as ((k & Hk) & Hall).
      cbn [sampleCh app] in *. split; [exists k; exact Hk|exact Hall].
Qed.

(** The stage fails only when its context is done, and with the error
    of the context; when it goes through, no draw was made with a sample
    size of zero, and one for each KV otherwise. *)
Lemma sampleKVs_result (cpSampleSize : Z) (kvCh : list KeyValue) :
  forall (s s' : samplerState) (res : result unit),
    sampleKVs (chooseSampleFunc cpSampleSize) kvCh s = (res, s') ->
    match res with
    | Ok _ =>
        draws s' = if cpSampleSize =? 0 then draws s
                   else (draws s + List.length kvCh)%nat
    | Err e => exists n, samplerCtx n = Some e
    end /\
    ((forall n, samplerCtx n = None) -> res = Ok tt).
Proof.
  induction kvCh as [|kv kvCh IH]; intros s s' res Hrun.
  - cbn in Hrun. injection Hrun as <- <-.
    split; [|reflexivity]. destruct (cpSampleSize =? 0); [reflexivity|].
    cbn [List.length]. rewrite Nat.add_0_r. reflexivity.
  - cbn [sampleKVs] in Hrun. unfold bind in Hrun.
    assert (Hfn : chooseSampleFunc cpSampleSize kv (draws s)
                  = (taken cpSampleSize (draws s) kv,
                     if cpSampleSize =? 0 then draws s else S (draws s))).
    { unfold chooseSampleFunc, taken, sampleAll, sample.
      destruct (Z.eqb_spec cpSampleSize 0); reflexivity. }
    rewrite Hfn in Hrun. clear Hfn.
    assert (Hnext : forall s1,
               draws s1 = (if cpSampleSize =? 0 then draws s else S (draws s)) ->
               sampleKVs (chooseSampleFunc cpSampleSize) kvCh s1 = (res, s') ->
               match res with
               | Ok _ =>
                   draws s' = if cpSampleSize =? 0 then draws s
                              else (draws s + List.length (kv :: kvCh))%nat
               | Err e => exists n, samplerCtx n = Some e
               end /\
               ((forall n, samplerCtx n = None) -> res = Ok tt)).
    { intros s1 Hs1 Hrest. destruct (IH _ _ _ Hrest) as [Hres Hnever].
      split; [|exact Hnever].
      destruct res as [u|e]; [|exact Hres].
      rewrite Hres, Hs1. destruct (cpSampleSize =? 0); [reflexivity|].
      cbn [List.length]. lia. }
    destruct (taken cpSampleSize (draws s) kv).
    + destruct (samplerCtx (samplerPolls s)) as [err|] eqn:Hctx.
      * injection Hrun as <- <-. split; [exists (samplerPolls s); exact Hctx|].
        intros Hnever. rewrite Hnever in Hctx. discriminate.
      * apply (fun H => Hnext _ H Hrun). reflexivity.
    + apply (fun H => Hnext _ H Hrun). reflexivity.
Qed.

(** The rows of the KVs taken, with a sample size of zero: all of them. *)
Lemma sampledRows_all (i : nat) (kvCh : list KeyValue) :
  sampledRows 0 i kvCh = map (fun kv => (kvKey kv, RawBytes (kvValue kv))) kvCh.
Proof.
  revert i. induction kvCh as [|kv kvCh IH]; intros i; [reflexivity|].
  cbn [sampledRows map]. unfold taken. cbn [Z.eqb orb app].
  rewrite IH. reflexivity.
Qed.

(** With another sample size: the KVs whose ratio exceeds their draw. *)
Lemma sampledRows_by_draw (cpSampleSize : Z) (i : nat) (kvCh : list KeyValue) :
  cpSampleSize <> 0 ->
  sampledRows cpSampleSize i kvCh
  = flat_map
      (fun d =>
         if PrimFloat.ltb (rndFloat64 (fst d))
              (PrimFloat.div
                 (float64 (len (kvKey (snd d)) + len (RawBytes (kvValue (snd d)))))
                 (float64 cpSampleSize))
         then [(kvKey (snd d), RawBytes (kvValue (snd d)))] else [])
      (combine (seq i (List.length kvCh)) kvCh).
Proof.
  intros Hnz. revert i. induction kvCh as [|kv kvCh IH]; intros i; [reflexivity|].
  cbn [sampledRows List.length seq combine flat_map fst snd].
  rewrite IH. unfold taken.
  destruct (Z.eqb_spec cpSampleSize 0); [contradiction|]. reflexivity.
Qed.

(** C9. In the sampler a sample size of zero takes every KV, and makes no
    draw; with another sample size a KV is taken exactly when
    (|key| + |value|) / sampleSize, in float64, exceeds the draw made for
    it, the i-th draw of the generator for the i-th KV, so that it is
    taken with the probability that a draw of the generator falls below
    this ratio. The stage fails only when its context is done, with the
    context's error; when the context is never done it returns no error.
    The rows sent are those of the KVs taken, in order, up to the one at
    which the stage is cancelled, and all of them when it returns no
    error: every KV with a sample size of zero, and otherwise the KVs
    whose ratio exceeds their draw. *)
Theorem sampleStage_takes_by_size :
  forall (cpSampleSize : Z) (kvCh : list KeyValue),
    (forall kv n, chooseSampleFunc 0 kv n = (true, n)) /\
    (cpSampleSize <> 0 ->
     forall kv n,
       chooseSampleFunc cpSampleSize kv n
       = (PrimFloat.ltb (rndFloat64 n)
            (PrimFloat.div (float64 (len (kvKey kv) + len (RawBytes (kvValue kv))))
                           (float64 cpSampleSize)),
          S n)) /\
    let '(err, s) := sampleStage cpSampleSize kvCh in
    (exists k, sampleCh s = firstn k (sampledRows cpSampleSize 0 kvCh)) /\
    (err = None -> sampleCh s = sampledRows cpSampleSize 0 kvCh) /\
    ((forall n, samplerCtx n = None) -> err = None) /\
    (forall e, err = Some e -> exists n, samplerCtx n = Some e) /\
    (err = None ->
     draws s = if cpSampleSize =? 0 then 0%nat else List.length kvCh) /\
    (cpSampleSize = 0 ->
     sampledRows cpSampleSize 0 kvCh
     = map (fun kv => (kvKey kv, RawBytes (kvValue kv))) kvCh) /\
    (cpSampleSize <> 0 ->
     sampledRows cpSampleSize 0 kvCh
     = flat_map
         (fun d =>
            if PrimFloat.ltb (rndFloat64 (fst d))
                 (PrimFloat.div
                    (float64 (len (kvKey (snd d)) + len (RawBytes (kvValue (snd d)))))
                    (float64 cpSampleSize))
            then [(kvKey (snd d), RawBytes (kvValue (snd d)))] else [])
         (combine (seq 0 (List.length kvCh)) kvCh)).
Proof.
  intros cpSampleSize kvCh. split; [reflexivity|]. split.
  - intros Hnz kv n. unfold chooseSampleFunc.
    destruct (Z.eqb_spec cpSampleSize 0); [contradiction|reflexivity].
  - unfold sampleStage.
    destruct (sampleKVs _ kvCh _) as [res s] eqn:Hrun.
    destruct (sampleKVs_result _ _ _ _ _ Hrun) as [Hres Hnever].
    apply (sampleKVs_sampledRows _ _ 0%nat) in Hrun; [|reflexivity].
    destruct Hrun as (Hk & Hall).
    cbn [sampleCh draws app] in Hk, Hall, Hres.
    assert (Hrows0 : cpSampleSize = 0 ->
                     sampledRows cpSampleSize 0 kvCh
                     = map (fun kv => (kvKey kv, RawBytes (kvValue kv))) kvCh).
    { intros ->. apply sampledRows_all. }
    pose proof (sampledRows_by_draw cpSampleSize 0 kvCh) as Hrows.
    destruct res as [[]|err].
    + split; [exact Hk|]. split; [intros _; exact (Hall tt eq_refl)|].
      split; [reflexivity|]. split; [discriminate|].
      split; [intros _; exact Hres|]. split; assumption.
    + split; [exact Hk|]. split; [discriminate|].
      split; [intros Hctx; specialize (Hnever Hctx); discriminate|].
      split; [intros e [= <-]; exact Hres|].
      split; [discriminate|]. split; assumption.
Qed.

(** ** Further properties of the reader *)

Lemma checkRecord_width (expectedCols i : Z) (record record' : list string) :
  checkRecord expectedCols i record = Ok record' -> len record' = expectedCols.
Proof.
  unfold checkRecord.
  destruct (len record =? expectedCols) eqn:Hlen.
  - intros [= <-]. apply Z.eqb_eq. exact Hlen.
  - destruct (len record =? expectedCols + 1) eqn:Hextra; cbn [andb]; [|discriminate].
    destruct (nth_error record (Z.to_nat expectedCols)) as [field|] eqn:Hnth;
      [|discriminate].
    destruct (String.eqb field ""); [|discriminate].
    intros [= <-]. apply Z.eqb_eq in Hextra.
    assert (Hlt : (Z.to_nat expectedCols < List.length record)%nat)
      by (apply nth_error_Some; congruence).
    unfold len in *. rewrite length_firstn. lia.
Qed.

(** What the loop over the records of a file has sent and counted when it
    stops, whatever stopped it. *)
Lemma readRecords_sent (expectedCols : Z) (dataFile : string)
    (reads : list (result (list string))) :
  forall (i : Z) (s s' : readerState) (res : result unit),
    1 <= i ->
    readRecords expectedCols dataFile reads i s = (res, s') ->
    exists sent,
      recordCh s' = recordCh s ++ sent /\
      count s' = count s + len sent /\
      Forall (fun cr => len (r cr) = expectedCols /\ file cr = dataFile /\ 1 <= row cr)
             sent.
Proof.
  induction reads as [|[record|err] reads IH]; intros i s s' res Hi Hrun.
  - cbn [readRecords] in Hrun. injection Hrun as _ <-.
    exists []. rewrite app_nil_r. split; [reflexivity|]. split; [cbn; lia|constructor].
  - cbn [readRecords] in Hrun. unfold bind at 1, lift in Hrun.
    destruct (checkRecord expectedCols i record) as [record'|err] eqn:Hcheck.
    + unfold bind at 1, sendRecord, bind at 1, readerPoll in Hrun.
      destruct (readerCtx (readerPolls s)) as [e|].
      * injection Hrun as _ <-. cbn [recordCh count].
        exists []. rewrite app_nil_r. split; [reflexivity|].
        split; [cbn; lia|constructor].
      * cbn [modify recordCh count readerPolls] in Hrun.
        apply IH in Hrun; [|lia]. destruct Hrun as (sent & Hch & Hcount & Hwf).
        cbn [recordCh count] in Hch, Hcount.
        exists (mkCsvRecord record' dataFile i :: sent).
        rewrite Hch, Hcount, <- app_assoc, len_cons. cbn [app].
        split; [reflexivity|]. split; [lia|].
        constructor; [|exact Hwf]. cbn [r file row].
        split; [exact (checkRecord_width _ _ _ _ Hcheck)|]. split; [reflexivity|lia].
    + injection Hrun as _ <-.
      exists []. rewrite app_nil_r. split; [reflexivity|].
      split; [cbn; lia|constructor].
  - cbn [readRecords] in Hrun. injection Hrun as _ <-.
    exists []. rewrite app_nil_r. split; [reflexivity|]. split; [cbn; lia|constructor].
Qed.

(** The same for the loop over the files, with the shape of its errors. *)
Lemma readFiles_sent (comma comment expectedCols : Z) (dataFiles : list string) :
  forall (s s' : readerState) (res : result unit),
    readFiles comma comment expectedCols dataFiles s = (res, s') ->
    exists sent,
      recordCh s' = recordCh s ++ sent /\
      count s' = count s + len sent /\
      Forall (wellFormedRecord expectedCols dataFiles) sent /\
      forall err, res = Err err ->
        (exists n, readerCtx n = Some err)
        \/ (exists dataFile cause, In dataFile dataFiles /\ err = errWrap cause dataFile).
Proof.
  induction dataFiles as [|dataFile dataFiles IH]; intros s s' res Hrun.
  - cbn [readFiles] in Hrun. injection Hrun as <- <-.
    exists []. rewrite app_nil_r. split; [reflexivity|]. split; [cbn; lia|].
    split; [constructor|discriminate].
  - cbn [readFiles] in Hrun. unfold bind at 1, readerPoll in Hrun.
    destruct (readerCtx (readerPolls s)) as [e|] eqn:Hpoll.
    + injection Hrun as <- <-. cbn [recordCh count].
      exists []. rewrite app_nil_r. split; [reflexivity|]. split; [cbn; lia|].
      split; [constructor|]. intros err [= <-]. left. eauto.
    + set (s1 := mkReaderState (recordCh s) (count s) (S (readerPolls s))) in Hrun.
      destruct (readFile comma comment expectedCols dataFile s1) as [[[]|err] s2]
        eqn:Hfile.
      * assert (Hfst : exists sent1,
                  recordCh s2 = recordCh s ++ sent1 /\ count s2 = count s + len sent1 /\
                  Forall (wellFormedRecord expectedCols (dataFile :: dataFiles)) sent1).
        { unfold readFile, bind at 1, lift in Hfile.
          destruct (openCSV dataFile comma comment) as [reads|err]; [|discriminate].
          apply readRecords_sent in Hfile; [|lia].
          destruct Hfile as (sent1 & Hch & Hcount & Hwf).
          exists sent1. split; [exact Hch|]. split; [exact Hcount|].
          eapply Forall_impl; [|exact Hwf].
          intros cr (Hw & Hf & Hr). split; [exact Hw|]. split; [left; congruence|exact Hr]. }
        destruct Hfst as (sent1 & Hch1 & Hcount1 & Hwf1).
        apply IH in Hrun. destruct Hrun as (sent2 & Hch2 & Hcount2 & Hwf2 & Herr).
        exists (sent1 ++ sent2).
        rewrite Hch2, Hch1, Hcount2, Hcount1, len_app, <- app_assoc.
        split; [reflexivity|]. split; [lia|]. split.
        -- apply Forall_app. split; [exact Hwf1|].
           eapply Forall_impl; [|exact Hwf2].
           intros cr (Hw & Hf & Hr). split; [exact Hw|]. split; [right; exact Hf|exact Hr].
        -- intros err Hres. destruct (Herr err Hres) as [Hc|(f & cause & Hin & ->)].
           ++ left. exact Hc.
           ++ right. exists f, cause. split; [right; exact Hin|reflexivity].
      * injection Hrun as <- <-.
        unfold readFile, bind at 1, lift in Hfile.
        assert (Hfst : exists sent1,
                  recordCh s2 = recordCh s ++ sent1 /\ count s2 = count s + len sent1 /\
                  Forall (wellFormedRecord expectedCols (dataFile :: dataFiles)) sent1).
        { destruct (openCSV dataFile comma comment) as [reads|err'].
          - apply readRecords_sent in Hfile; [|lia].
            destruct Hfile as (sent1 & Hch & Hcount & Hwf).
            exists sent1. split; [exact Hch|]. split; [exact Hcount|].
            eapply Forall_impl; [|exact Hwf].
            intros cr (Hw & Hf & Hr). split; [exact Hw|].
            split; [left; congruence|exact Hr].
          - injection Hfile as _ <-. exists []. cbn [recordCh count s1].
            rewrite app_nil_r. split; [reflexivity|]. split; [cbn; lia|constructor]. }
        destruct Hfst as (sent1 & Hch1 & Hcount1 & Hwf1).
        exists sent1. split; [exact Hch1|]. split; [exact Hcount1|].
        split; [exact Hwf1|]. intros err0 [= <-]. right.
        exists dataFile, err. split; [left; reflexivity|reflexivity].
Qed.

(** X1. Every record that readCSV sends has exactly the expected number
    of fields, comes from one of the data files and carries a row number
    counted from 1, whatever the files hold and however the call ends. *)
Theorem readCSV_sends_well_formed_records :
  forall (comma comment expectedCols : Z) (dataFiles : list string)
         (recordCh0 : list csvRecord),
    let '(n, err, s) := readCSV comma comment expectedCols dataFiles recordCh0 in
    exists sent,
      recordCh s = recordCh0 ++ sent /\
      Forall (wellFormedRecord expectedCols dataFiles) sent.
Proof.
  intros comma comment expectedCols dataFiles recordCh0. unfold readCSV.
  destruct (readFiles _ comment expectedCols dataFiles (mkReaderState recordCh0 0 0))
    as [[[]|err] s] eqn:Hrun;
    apply readFiles_sent in Hrun; destruct Hrun as (sent & Hch & _ & Hwf & _);
    exists sent; (split; [exact Hch|exact Hwf]).
Qed.

(** X2. The count that readCSV returns is the number of records it has
    sent when it returns no error, and 0 when it returns an error, also
    after records were sent. *)
Theorem readCSV_counts_records_sent :
  forall (comma comment expectedCols : Z) (dataFiles : list string)
         (recordCh0 : list csvRecord),
    let '(n, err, s) := readCSV comma comment expectedCols dataFiles recordCh0 in
    match err with
    | None => len (recordCh s) = len recordCh0 + n
    | Some _ => n = 0
    end.
Proof.
  intros comma comment expectedCols dataFiles recordCh0. unfold readCSV.
  destruct (readFiles _ comment expectedCols dataFiles (mkReaderState recordCh0 0 0))
    as [[[]|err] s] eqn:Hrun; [|reflexivity].
  apply readFiles_sent in Hrun. destruct Hrun as (sent & Hch & Hcount & _).
  cbn [recordCh count] in Hch, Hcount. rewrite Hch, len_app. lia.
Qed.

(** X3. An error of readCSV is the context's error as it is, when the
    context was found done between two files, and otherwise carries the
    name of the data file that was being read. *)
Theorem readCSV_errors_name_the_file :
  forall (comma comment expectedCols : Z) (dataFiles : list string)
         (recordCh0 : list csvRecord) (err : error),
    snd (fst (readCSV comma comment expectedCols dataFiles recordCh0)) = Some err ->
    (exists n, readerCtx n = Some err)
    \/ (exists dataFile cause, In dataFile dataFiles /\ err = errWrap cause dataFile).
Proof.
  intros comma comment expectedCols dataFiles recordCh0 err. unfold readCSV.
  destruct (readFiles _ comment expectedCols dataFiles (mkReaderState recordCh0 0 0))
    as [[[]|err'] s] eqn:Hrun; cbn [fst snd]; [discriminate|].
  intros [= ->]. apply readFiles_sent in Hrun.
  destruct Hrun as (_ & _ & _ & _ & Herr). apply Herr. reflexivity.
Qed.

(** ** Further properties of the table descriptor check *)

(** X4. makeCSVTableDescriptor returns a descriptor exactly when the
    statement has no IF NOT EXISTS, no INTERLEAVE and no AS, sql.MakeTableDesc
    builds that descriptor, and none of its visible columns has a DEFAULT
    expression; hidden columns may have one. *)
Theorem makeCSVTableDescriptor_accepts_iff :
  forall (create : CreateTable) (parentID tableID walltime : Z)
         (tableDesc : TableDescriptor),
    makeCSVTableDescriptor create parentID tableID walltime = Ok tableDesc <->
    (IfNotExists create = false /\ Interleave create = None /\ AsSource create = None /\
     MakeTableDesc create parentID tableID walltime = Ok tableDesc /\
     Forall (fun col => DefaultExpr col = None) (VisibleColumns tableDesc)).
Proof.
  intros create parentID tableID walltime tableDesc. unfold makeCSVTableDescriptor.
  split.
  - destruct (IfNotExists create); [discriminate|].
    destruct (Interleave create); [discriminate|].
    destruct (AsSource create); [discriminate|].
    destruct (MakeTableDesc create parentID tableID walltime) as [desc|err];
      [|discriminate].
    destruct (rejectDefaults (VisibleColumns desc)) as [err|] eqn:Hdef; [discriminate|].
    intros [= <-]. repeat split.
    clear -Hdef. induction (VisibleColumns desc) as [|col cols IH]; [constructor|].
    cbn [rejectDefaults] in Hdef. destruct (DefaultExpr col) eqn:Hcol; [discriminate|].
    constructor; [exact Hcol|exact (IH Hdef)].
  - intros (-> & -> & -> & -> & Hcols).
    rewrite (rejectDefaults_None _ Hcols). reflexivity.
Qed.

(** ** Further properties of the finalizer *)

Lemma fileEntries_len (contentCh : list sstContent) (checksums : list bytes) :
  forall i,
    List.length contentCh = List.length checksums ->
    len (fileEntries i contentCh checksums) = len contentCh.
Proof.
  revert checksums. induction contentCh as [|sst contentCh IH];
    intros [|c checksums] i Hlen; try discriminate; [reflexivity|].
  cbn [fileEntries]. rewrite !len_cons, IH; [reflexivity|].
  cbn [List.length] in Hlen. congruence.
Qed.

(** What the loop over the segments has written and recorded when it
    stops, whatever stopped it. *)
Lemma writeSegments_written (contentCh : list sstContent) :
  forall (i : Z) (s s' : backupState) (res : result Z),
    writeSegments i contentCh s = (res, s') ->
    exists k checksums,
      (k <= List.length contentCh)%nat /\
      Forall2 (fun sst c => SHA512ChecksumData (data sst) = Ok c)
              (firstn k contentCh) checksums /\
      es s' = es s ++ segmentFiles (i + 1) (firstn k contentCh) /\
      Files (backupDesc s')
        = Files (backupDesc s) ++ fileEntries (i + 1) (firstn k contentCh) checksums /\
      (EndTime (backupDesc s') = EndTime (backupDesc s) /\
       NodeID (backupDesc s') = NodeID (backupDesc s) /\
       ClusterID (backupDesc s') = ClusterID (backupDesc s)) /\
      match res with
      | Ok i' =>
          k = List.length contentCh /\ i' = i + len contentCh /\
          EntryCounts_DataSize (backupDesc s')
            = EntryCounts_DataSize (backupDesc s) + totalSize contentCh
      | Err _ => (k < List.length contentCh)%nat
      end.
Proof.
  induction contentCh as [|sst contentCh IH]; intros i s s' res Hrun.
  - cbn [writeSegments ret] in Hrun. injection Hrun as <- <-.
    exists 0%nat, []. cbn [firstn segmentFiles fileEntries List.length totalSize fold_right].
    rewrite !app_nil_r. split; [lia|]. split; [constructor|].
    repeat split; unfold len; cbn; lia.
  - cbn [writeSegments] in Hrun. unfold bind at 1 in Hrun.
    unfold writeSegment, bind, setDesc, modify, lift, WriteFile, ret in Hrun.
    cbn [es backupDesc] in Hrun.
    destruct (SHA512ChecksumData (data sst)) as [c|err] eqn:Hc.
    + destruct (writeFileErr (es s) (fmt_d (i + 1) ++ ".sst") (data sst)) as [err|]
        eqn:Hwrite.
      * injection Hrun as <- <-. exists 0%nat, [].
        cbn [firstn segmentFiles fileEntries es backupDesc Files EndTime NodeID
             ClusterID List.length].
        rewrite !app_nil_r. split; [lia|]. split; [constructor|].
        repeat split. lia.
      * cbn [es backupDesc] in Hrun. apply IH in Hrun.
        destruct Hrun as (k & checksums & Hk & Hsum & Hes & Hfiles & Hkept & Hres).
        cbn [es backupDesc Files EndTime NodeID ClusterID EntryCounts_DataSize]
          in Hes, Hfiles, Hkept, Hres.
        exists (S k), (c :: checksums).
        cbn [firstn segmentFiles fileEntries List.length totalSize fold_right].
        rewrite Hes, Hfiles, <- !app_assoc. cbn [app].
        split; [lia|]. split; [constructor; assumption|].
        split; [reflexivity|]. split; [reflexivity|]. split; [exact Hkept|].
        destruct res as [i'|err].
        -- destruct Hres as (-> & -> & ->). rewrite len_cons.
           fold (totalSize contentCh). repeat split; lia.
        -- lia.
    + injection Hrun as <- <-. exists 0%nat, [].
      cbn [firstn segmentFiles fileEntries es backupDesc Files EndTime NodeID
           ClusterID List.length].
      rewrite !app_nil_r. split; [lia|]. split; [constructor|].
      repeat split. lia.
Qed.

(** What a successful finalizeCSVBackup leaves in the descriptor and in
    the destination. *)
Lemma finalizeCSVBackup_Ok (parentID : Z) (tableDesc : TableDescriptor)
    (execCfg : option (Z * string)) (s s' : backupState) :
  finalizeCSVBackup parentID tableDesc execCfg s = (Ok tt, s') ->
  Files (backupDesc s) <> [] /\
  backupDesc s'
    = mkBackupDescriptor (EndTime (backupDesc s)) (sortFiles (Files (backupDesc s)))
        (EntryCounts_DataSize (backupDesc s)) [TableSpan tableDesc]
        [DatabaseDescriptor csvDatabaseName parentID; WrapTable tableDesc]
        BackupFormatInitialVersion buildInfo
        match execCfg with Some (n, _) => n | None => NodeID (backupDesc s) end
        match execCfg with Some (_, c) => c | None => ClusterID (backupDesc s) end /\
  exists descBuf,
    Marshal (backupDesc s') = Ok descBuf /\
    es s' = es s ++ [(BackupDescriptorName, descBuf)].
Proof.
  unfold finalizeCSVBackup.
  destruct (len (Files (backupDesc s)) =? 0) eqn:Hlen; [discriminate|].
  unfold bind, setDesc, modify, lift, WriteFile. cbn [es backupDesc].
  match goal with |- context [Marshal ?d] => set (desc := d) end.
  destruct (Marshal desc) as [descBuf|err] eqn:Hmarshal; [|discriminate].
  cbn [es backupDesc].
  destruct (writeFileErr (es s) BackupDescriptorName descBuf); [discriminate|].
  intros [= <-]. cbn [es backupDesc]. split.
  - intros Hnil. rewrite Hnil in Hlen. discriminate.
  - split; [reflexivity|]. exists descBuf. split; [exact Hmarshal|reflexivity].
Qed.

(** X5. However makeBackup ends, what it has written to the destination
    is the first [k] segments, in the order received, under the names
    "1.sst" to "k.sst", and after them at most the descriptor; the
    descriptor is written only when the call succeeds, and then every
    segment was written and there was at least one. *)
Theorem makeBackup_writes_segments_then_descriptor :
  forall (parentID : Z) (tableDesc : TableDescriptor) (destDir : string)
         (contentCh : list sstContent) (walltime : Z)
         (execCfg : option (Z * string)) (es0 : ExportStorage),
    let '(n, err, s) :=
      makeBackup parentID tableDesc destDir contentCh walltime execCfg es0 in
    exists k rest,
      (k <= List.length contentCh)%nat /\
      es s = es0 ++ segmentFiles 1 (firstn k contentCh) ++ rest /\
      len (Files (backupDesc s)) = Z.of_nat k /\
      (rest = [] \/ exists descBuf, rest = [(BackupDescriptorName, descBuf)]) /\
      (rest <> [] <-> err = None) /\
      (err = None -> k = List.length contentCh /\ k <> 0%nat /\ n = Z.of_nat k).
Proof.
  intros parentID tableDesc destDir contentCh walltime execCfg es0. unfold makeBackup.
  destruct (exportStorageErr destDir) as [err|].
  { exists 0%nat, []. cbn. rewrite app_nil_r. split; [lia|]. split; [reflexivity|].
    split; [reflexivity|]. split; [left; reflexivity|]. split; [|discriminate].
    split; [congruence|discriminate]. }
  destruct (writeSegments 0 contentCh (mkBackupState es0 (newBackupDescriptor walltime)))
    as [[i|err] s1] eqn:Hrun;
    apply writeSegments_written in Hrun;
    destruct Hrun as (k & checksums & Hk & Hsum & Hes & Hfiles & _ & Hres);
    cbn [es backupDesc newBackupDescriptor Files app Z.add] in Hes, Hfiles;
    assert (Hlen : len (Files (backupDesc s1)) = Z.of_nat k)
      by (rewrite Hfiles, fileEntries_len by exact (Forall2_length Hsum);
          unfold len; rewrite length_firstn; lia).
  - destruct Hres as (-> & _ & _). rewrite firstn_all in Hes.
    destruct (finalizeCSVBackup parentID tableDesc execCfg s1) as [res s2] eqn:Hfin.
    destruct (finalizeCSVBackup_effect _ _ _ _ _ _ Hfin) as (Hperm & Hcase).
    assert (Hlen2 : len (Files (backupDesc s2)) = Z.of_nat (List.length contentCh))
      by (unfold len at 1; rewrite (Permutation_length Hperm); exact Hlen).
    destruct Hcase as [(Hes2 & Hres)|(descBuf & -> & _ & Hes2)].
    + destruct res as [[]|err]; [congruence|].
      exists (List.length contentCh), []. rewrite firstn_all, app_nil_r, Hes2, Hes.
      split; [lia|]. split; [reflexivity|]. split; [exact Hlen2|].
      split; [left; reflexivity|]. split; [|discriminate].
      split; [congruence|discriminate].
    + exists (List.length contentCh), [(BackupDescriptorName, descBuf)].
      rewrite firstn_all, Hes2, Hes, <- app_assoc.
      split; [lia|]. split; [reflexivity|]. split; [exact Hlen2|].
      split; [right; eauto|]. split; [split; [reflexivity|discriminate]|].
      intros _. split; [reflexivity|]. split; [|exact Hlen2].
      apply finalizeCSVBackup_Ok in Hfin. destruct Hfin as (Hne & _).
      intros Hzero. apply Hne. apply length_zero_iff_nil.
      unfold len in Hlen. lia.
  - exists k, []. rewrite app_nil_r. split; [lia|]. split; [exact Hes|].
    split; [exact Hlen|]. split; [left; reflexivity|]. split; [|discriminate].
    split; [congruence|discriminate].
Qed.

(** X6. The descriptor that a successful makeBackup has written: its end
    time is the wall time of the pipeline, its data size the sum of the
    sizes of the segments, its only span the table's, its descriptors the
    database "csv" under the parent id and the table, with the format
    version and the build info; the node and cluster ids are those of the
    executor configuration when there is one; and what is written under
    the descriptor's name, last, is its serialization. *)
Theorem makeBackup_descriptor_contents :
  forall (parentID : Z) (tableDesc : TableDescriptor) (destDir : string)
         (contentCh : list sstContent) (walltime : Z)
         (execCfg : option (Z * string)) (es0 : ExportStorage),
    let '(n, err, s) :=
      makeBackup parentID tableDesc destDir contentCh walltime execCfg es0 in
    err = None ->
    EndTime (backupDesc s) = mkTimestamp walltime 0 /\
    EntryCounts_DataSize (backupDesc s) = totalSize contentCh /\
    Spans (backupDesc s) = [TableSpan tableDesc] /\
    Descriptors (backupDesc s)
      = [DatabaseDescriptor csvDatabaseName parentID; WrapTable tableDesc] /\
    FormatVersion (backupDesc s) = BackupFormatInitialVersion /\
    BuildInfo (backupDesc s) = buildInfo /\
    NodeID (backupDesc s) = match execCfg with Some (id, _) => id | None => 0 end /\
    ClusterID (backupDesc s)
      = match execCfg with Some (_, id) => id | None => ""%string end /\
    exists descBuf written,
      Marshal (backupDesc s) = Ok descBuf /\
      es s = written ++ [(BackupDescriptorName, descBuf)].
Proof.
  intros parentID tableDesc destDir contentCh walltime execCfg es0. unfold makeBackup.
  destruct (exportStorageErr destDir) as [err|]; [discriminate|].
  destruct (writeSegments 0 contentCh (mkBackupState es0 (newBackupDescriptor walltime)))
    as [[i|err] s1] eqn:Hrun; [|discriminate].
  apply writeSegments_written in Hrun.
  destruct Hrun as (k & checksums & _ & _ & _ & _ & (Hend & Hnode & Hcluster)
                    & _ & _ & Hsize).
  cbn [backupDesc newBackupDescriptor EndTime NodeID ClusterID EntryCounts_DataSize
       Z.add] in Hend, Hnode, Hcluster, Hsize.
  destruct (finalizeCSVBackup parentID tableDesc execCfg s1) as [[[]|err] s2] eqn:Hfin;
    [|discriminate].
  intros _. apply finalizeCSVBackup_Ok in Hfin.
  destruct Hfin as (_ & Hdesc & descBuf & Hmarshal & Hes).
  rewrite Hdesc in *. cbn [EndTime EntryCounts_DataSize Spans Descriptors FormatVersion
                           BuildInfo NodeID ClusterID].
  split; [exact Hend|]. split; [exact Hsize|]. split; [reflexivity|].
  split; [reflexivity|]. split; [reflexivity|]. split; [reflexivity|].
  split; [destruct execCfg as [[? ?]|]; [reflexivity|exact Hnode]|].
  split; [destruct execCfg as [[? ?]|]; [reflexivity|exact Hcluster]|].
  exists descBuf, (es s1). split; [exact Hmarshal|exact Hes].
Qed.

(** ** Further properties of the plan hook *)

(** X7. The function of the plan hook sends rows only after the
    conversion has succeeded and the job was marked finished: when it
    fails before (options, table definition, job, transform), resultsCh is
    as it was found; otherwise it has got the row of a transform-only
    import, or what the RESTORE sent. *)
Theorem importFn_sends_rows_only_after_conversion :
  forall (importStmt : Import) (filesFn : result (list string))
         (createFileFn : result string) (optsFn : result (list (string * string)))
         (resultsCh : list (list Datum)),
    let '(res, resultsCh') :=
      importFn importStmt filesFn createFileFn optsFn resultsCh in
    (resultsCh' = resultsCh /\ res <> Ok tt)
    \/ exists a tableDesc,
         importSetup importStmt filesFn createFileFn optsFn resultsCh
           = (Ok a, resultsCh) /\
         makeCSVTableDescriptor (a_create a) defaultCSVParentID defaultCSVTableID hookNow
           = Ok tableDesc /\
         importTransform a tableDesc hookNow = None /\
         jobFinishedWith None = None /\
         resultsCh' =
           resultsCh ++
           (if a_transformOnly a
            then [[DInt jobID; DString StatusSucceeded; DFloat 1%float;
                   DInt 0; DInt 0; DInt 0; DInt 0]]
            else fst (doRestorePlan (a_temp a) (a_targetDB a))).
Proof.
  intros importStmt filesFn createFileFn optsFn resultsCh.
  unfold importFn, bind.
  destruct (importSetup importStmt filesFn createFileFn optsFn resultsCh)
    as [[a|err] s1] eqn:Hsetup;
    pose proof (importSetup_pure _ _ _ _ _ _ _ Hsetup) as ->;
    [|left; split; [reflexivity|discriminate]].
  unfold lift.
  destruct (makeCSVTableDescriptor (a_create a) defaultCSVParentID defaultCSVTableID
              hookNow) as [tableDesc|err] eqn:Hdesc;
    [|left; split; [reflexivity|discriminate]].
  destruct (importJobDescription importStmt (Defs (a_create a)) (a_files a) (a_opts a));
    [|left; split; [reflexivity|discriminate]].
  unfold check, fail, ret.
  destruct jobCreated; [left; split; [reflexivity|discriminate]|].
  destruct jobStarted; [left; split; [reflexivity|discriminate]|].
  destruct (importTransform a tableDesc hookNow) as [importErr|] eqn:Htransform.
  - destruct (jobFinishedWith (Some importErr));
      left; (split; [reflexivity|discriminate]).
  - destruct (jobFinishedWith None) eqn:Hfinished;
      [left; split; [reflexivity|discriminate]|].
    destruct (a_transformOnly a) eqn:Honly; unfold modify;
      [|destruct (doRestorePlan (a_temp a) (a_targetDB a)) as [rows [e|]] eqn:Hrestore];
      right; exists a, tableDesc; rewrite Honly, ?Hrestore;
      (split; [reflexivity|]); (split; [exact Hdesc|]); repeat split; assumption.
Qed.

(** X8. An import whose options have no [temp] fails and sends nothing;
    when the options and the files evaluate, the target database is
    settled and the delimiter and the comment, if given, are single
    runes, the error is "must provide a temporary storage location". *)
Theorem importFn_requires_temp :
  forall (importStmt : Import) (filesFn : result (list string))
         (createFileFn : result string) (opts : list (string * string))
         (resultsCh : list (list Datum)),
    lookup opts importOptionTemp = None ->
    exists err,
      importFn importStmt filesFn createFileFn (Ok opts) resultsCh
        = (Err err, resultsCh) /\
      ((exists files, filesFn = Ok files) ->
       (lookup opts importOptionTransformOnly <> None
        \/ lookup opts restoreOptIntoDB <> None \/ sessionDatabase <> ""%string) ->
       (forall override, lookup opts importOptionDelimiter = Some override ->
                         exists comma, GetSingleRune override = Ok comma) ->
       (forall override, lookup opts importOptionComment = Some override ->
                         exists comment, GetSingleRune override = Ok comment) ->
       err = errNew "must provide a temporary storage location").
Proof.
  intros importStmt filesFn createFileFn opts resultsCh Htemp.
  unfold importFn, bind at 1.
  assert (H : exists err,
             importSetup importStmt filesFn createFileFn (Ok opts) resultsCh
               = (Err err, resultsCh) /\
             ((exists files, filesFn = Ok files) ->
              (lookup opts importOptionTransformOnly <> None
               \/ lookup opts restoreOptIntoDB <> None \/ sessionDatabase <> ""%string) ->
              (forall override, lookup opts importOptionDelimiter = Some override ->
                                exists comma, GetSingleRune override = Ok comma) ->
              (forall override, lookup opts importOptionComment = Some override ->
                                exists comment, GetSingleRune override = Ok comment) ->
              err = errNew "must provide a temporary storage location")).
  { unfold importSetup, bind, lift, optional, fail, ret, wrapErr. rewrite Htemp.
    destruct filesFn as [files|err0];
      [|exists err0; split; [reflexivity|]; intros [files Hfiles]; discriminate].
    repeat match goal with
           | |- context [match lookup opts ?k with _ => _ end] =>
               destruct (lookup opts k) eqn:?
           | |- context [match GetSingleRune ?o with _ => _ end] =>
               destruct (GetSingleRune o) eqn:?
           | |- context [negb (String.eqb sessionDatabase ?e)] =>
               destruct (String.eqb sessionDatabase e) eqn:?
           | |- context [negb ?b] => progress cbn [negb]
           end;
      (eexists; split; [reflexivity|]); intros _ Hdb Hd Hc; try reflexivity;
      try (destruct (Hd _ eq_refl) as [? ?]; congruence);
      try (destruct (Hc _ eq_refl) as [? ?]; congruence);
      try (destruct Hdb as [Hdb|[Hdb|Hdb]]; [congruence|congruence|];
           match goal with
           | Hs : String.eqb sessionDatabase _ = true |- _ =>
               apply String.eqb_eq in Hs; contradiction
           end). }
  destruct H as (err & Hsetup & Herr). rewrite Hsetup.
  exists err. split; [reflexivity|exact Herr].
Qed.

(** X9. An import that is not transform-only, names no target database
    in its options and runs in a session without a database fails with
    "must specify target database", before anything is read or sent. *)
Theorem importFn_requires_target_database :
  forall (importStmt : Import) (files : list string) (createFileFn : result string)
         (opts : list (string * string)) (resultsCh : list (list Datum)),
    lookup opts importOptionTransformOnly = None ->
    lookup opts restoreOptIntoDB = None ->
    sessionDatabase = ""%string ->
    importFn importStmt (Ok files) createFileFn (Ok opts) resultsCh
    = (Err (errNew ("must specify target database with " ++ fmt_q restoreOptIntoDB
                    ++ " option")%string),
       resultsCh).
Proof.
  intros importStmt files createFileFn opts resultsCh Honly Hinto Hsession.
  unfold importFn, bind at 1.
  unfold importSetup, bind, lift. rewrite Honly, Hinto, Hsession. reflexivity.
Qed.

(** ** Further properties of the distributed transform *)

Lemma addRow_files (rows : list (string * Z * bytes * bytes * bytes)) :
  forall d, len (Files (fold_left addRow rows d)) = len (Files d) + len rows.
Proof.
  induction rows as [|[[[[name sz] checksum] spanStart] spanEnd] rows IH]; intros d.
  - cbn [fold_left]. unfold len at 3. cbn. lia.
  - cbn [fold_left]. rewrite IH. unfold addRow. cbn [Files].
    rewrite len_app, !len_cons. unfold len at 2. cbn [List.length]. lia.
Qed.

(** X10. doDistributedCSVTransform returns the number of rows that the
    workers returned, one per segment written, when it succeeds, and
    there is at least one; it returns 0 with every error, and when the
    workers return no row the error, once the destination is open, is
    "no files in backup". *)
Theorem doDistributedCSVTransform_counts_rows :
  forall (files : list string) (tableDesc : TableDescriptor) (temp : string)
         (comma comment : Z) (nullif : option string) (walltime : Z)
         (es0 : ExportStorage),
    let '(n, err) :=
      doDistributedCSVTransform files tableDesc temp comma comment nullif walltime
        es0 in
    match err with
    | None =>
        exists rows,
          distLoadCSV files tableDesc temp comma comment nullif walltime = Ok rows /\
          rows <> [] /\ n = len rows
    | Some e =>
        n = 0 /\
        (distLoadCSV files tableDesc temp comma comment nullif walltime = Ok [] ->
         exportStorageErr temp = None -> e = errNew "no files in backup")
    end.
Proof.
  intros files tableDesc temp comma comment nullif walltime es0.
  unfold doDistributedCSVTransform.
  destruct (distLoadCSV files tableDesc temp comma comment nullif walltime)
    as [rows|err] eqn:Hload; [|split; [reflexivity|discriminate]].
  destruct (exportStorageErr temp) as [err|] eqn:Hopen;
    [split; [reflexivity|discriminate]|].
  destruct (finalizeCSVBackup defaultCSVParentID tableDesc (Some hookExecCfg)
              (mkBackupState es0 (fold_left addRow rows (newBackupDescriptor walltime))))
    as [[[]|err] s] eqn:Hfin.
  - exists rows. split; [reflexivity|].
    pose proof (finalizeCSVBackup_effect _ _ _ _ _ _ Hfin) as [Hperm _].
    apply finalizeCSVBackup_Ok in Hfin. destruct Hfin as (Hne & _).
    cbn [backupDesc] in Hne, Hperm. split.
    + intros ->. apply Hne. reflexivity.
    + unfold len at 1. rewrite (Permutation_length Hperm).
      fold (len (Files (fold_left addRow rows (newBackupDescriptor walltime)))).
      rewrite addRow_files. cbn. lia.
  - split; [reflexivity|]. intros [= ->] _.
    cbn in Hfin. congruence.
Qed.

(** ** Properties of the converter *)

Lemma assignIdx_bound (m : list (Z * Z)) (id idx bound : Z) :
  Forall (fun b => 0 <= snd b < bound) m -> 0 <= idx < bound ->
  Forall (fun b => 0 <= snd b < bound) (assignIdx m id idx) /\
  len (assignIdx m id idx) <= len m + 1.
Proof.
  intros Hm Hidx. induction Hm as [|[id' idx'] m Hb Hm IH]; cbn [assignIdx].
  - split; [constructor; [exact Hidx|constructor]|]. unfold len. cbn. lia.
  - destruct (id' =? id).
    + split; [constructor; [exact Hidx|exact Hm]|]. rewrite !len_cons. lia.
    + destruct IH as (IHb & IHlen).
      split; [constructor; [exact Hb|exact IHb]|]. rewrite !len_cons. lia.
Qed.

Lemma lookupIdx_In (m : list (Z * Z)) (id idx : Z) :
  lookupIdx m id = Some idx -> exists id', In (id', idx) m.
Proof.
  induction m as [|[id' idx'] m IH]; cbn [lookupIdx]; [discriminate|].
  destruct (id' =? id).
  - intros [= ->]. exists id'. left. reflexivity.
  - intros H. destruct (IH H) as (id0 & Hin). exists id0. right. exact Hin.
Qed.

(** The index that keyDatumIdx gives for a column is in the range of
    keyDatums, whatever the column ids of the primary index are, also
    when an id comes twice: the store of lines 430-432 never goes out of
    range. *)
Lemma keyDatumInRange_true :
  forall (tableDesc : TableDescriptor) (col : ColumnDescriptor),
    keyDatumInRange tableDesc col = true.
Proof.
  intros tableDesc col. unfold keyDatumInRange, keyDatumIdx.
  assert (H : forall (ids : list Z) (m : list (Z * Z)) (bound : Z),
             Forall (fun b => 0 <= snd b < bound) m -> 0 <= len m <= bound ->
             let m' := fold_left
                         (fun m id =>
                            if existsb (fun col => colID col =? id)
                                       (VisibleColumns tableDesc)
                            then assignIdx m id (len m) else m) ids m in
             Forall (fun b => 0 <= snd b < bound + len ids) m').
  { induction ids as [|id ids IH]; intros m bound Hm Hlen; cbn [fold_left].
    - unfold len at 1. cbn. rewrite Z.add_0_r. exact Hm.
    - rewrite len_cons. replace (bound + (1 + len ids)) with ((bound + 1) + len ids) by lia.
      assert (Hm1 : Forall (fun b => 0 <= snd b < bound + 1) m)
        by (eapply Forall_impl; [|exact Hm]; cbn; intros; lia).
      destruct (existsb _ (VisibleColumns tableDesc)).
      + destruct (assignIdx_bound m id (len m) (bound + 1) Hm1) as (Hb & Hl); [lia|].
        apply IH; [exact Hb|]. unfold len in *. lia.
      + apply IH; [exact Hm1|lia]. }
  specialize (H (PrimaryIndexColumnIDs tableDesc) [] 0 (Forall_nil _)).
  cbn zeta in H. rewrite Z.add_0_l in H.
  destruct (lookupIdx _ (colID col)) as [idx|] eqn:Hlookup; [|reflexivity].
  destruct (lookupIdx_In _ _ _ Hlookup) as (id' & Hin).
  rewrite Forall_forall in H. specialize (H ltac:(unfold len; cbn; lia) (id', idx) Hin).
  cbn [snd] in H. apply andb_true_iff. split; [apply Z.leb_le|apply Z.ltb_lt]; lia.
Qed.

End CSV.

(** ** The order of keys *)

Lemma byte_to_N_inj (x y : byte) : Byte.to_N x = Byte.to_N y -> x = y.
Proof.
  intros H. pose proof (Byte.of_to_N x) as Hx. rewrite H, Byte.of_to_N in Hx.
  congruence.
Qed.

Lemma bytes_compare_refl (a : bytes) : bytes_compare a a = Eq.
Proof.
  induction a as [|x a IH]; [reflexivity|].
  cbn [bytes_compare]. rewrite N.compare_refl. exact IH.
Qed.

Lemma bytes_compare_eq (a b : bytes) : bytes_compare a b = Eq -> a = b.
Proof.
  revert b; induction a as [|x a IH]; intros [|y b]; cbn [bytes_compare];
    try discriminate; [reflexivity|].
  destruct (N.compare (Byte.to_N x) (Byte.to_N y)) eqn:Hxy; try discriminate.
  apply N.compare_eq_iff, byte_to_N_inj in Hxy. intros H.
  rewrite Hxy, (IH b H). reflexivity.
Qed.

Lemma bytes_compare_antisym (a b : bytes) :
  bytes_compare b a = CompOpp (bytes_compare a b).
Proof.
  revert b; induction a as [|x a IH]; intros [|y b]; cbn [bytes_compare];
    try reflexivity.
  rewrite (N.compare_antisym (Byte.to_N x) (Byte.to_N y)).
  destruct (N.compare (Byte.to_N x) (Byte.to_N y)); cbn [CompOpp];
    [apply IH|reflexivity|reflexivity].
Qed.

Lemma bytes_compare_lt_trans (a b c : bytes) :
  bytes_compare a b = Lt -> bytes_compare b c = Lt -> bytes_compare a c = Lt.
Proof.
  revert b c; induction a as [|x a IH]; intros [|y b] [|z c];
    cbn [bytes_compare]; try discriminate; try reflexivity.
  destruct (N.compare (Byte.to_N x) (Byte.to_N y)) eqn:Hxy; try discriminate;
    destruct (N.compare (Byte.to_N y) (Byte.to_N z)) eqn:Hyz; try discriminate.
  - apply N.compare_eq_iff in Hxy, Hyz. rewrite Hxy, Hyz, N.compare_refl.
    apply IH.
  - apply N.compare_eq_iff in Hxy. rewrite Hxy, Hyz. reflexivity.
  - apply N.compare_eq_iff in Hyz. rewrite <- Hyz, Hxy. reflexivity.
  - rewrite N.compare_lt_iff in Hxy, Hyz.
    assert (H : (Byte.to_N x < Byte.to_N z)%N) by lia.
    apply N.compare_lt_iff in H. rewrite H. reflexivity.
Qed.


Lemma insert_sorted (e : bytes * bytes) (sorted : list (bytes * bytes)) :
  LocallySorted (fun x y => bytes_le (fst x) (fst y)) sorted ->
  LocallySorted (fun x y => bytes_le (fst x) (fst y))
    (RocksDBMultiMap.insert e sorted).
Proof.
  assert (Hle : forall x : bytes * bytes, bytes_ltb (fst e) (fst x) = false -> bytes_le (fst x) (fst e)).
  { intros x Hex. unfold bytes_ltb in Hex. unfold bytes_le.
    rewrite bytes_compare_antisym.
    destruct (bytes_compare (fst e) (fst x)); discriminate. }
  assert (Hlt : forall x : bytes * bytes, bytes_ltb (fst e) (fst x) = true -> bytes_le (fst e) (fst x)).
  { intros x Hex. unfold bytes_ltb in Hex. unfold bytes_le.
    destruct (bytes_compare (fst e) (fst x)); discriminate. }
  induction 1 as [|x|x y rest Hrest IH Hxy]; cbn [RocksDBMultiMap.insert].
  - constructor.
  - destruct (bytes_ltb (fst e) (fst x)) eqn:Hex; repeat constructor; auto.
  - cbn [RocksDBMultiMap.insert] in IH.
    destruct (bytes_ltb (fst e) (fst x)) eqn:Hex.
    + repeat constructor; auto.
    + destruct (bytes_ltb (fst e) (fst y)) eqn:Hey; constructor; auto.
Qed.

Lemma insert_Permutation (e : bytes * bytes) (sorted : list (bytes * bytes)) :
  Permutation (RocksDBMultiMap.insert e sorted) (e :: sorted).
Proof.
  induction sorted as [|x sorted IH]; cbn [RocksDBMultiMap.insert]; [reflexivity|].
  destruct (bytes_ltb (fst e) (fst x)); [reflexivity|].
  rewrite IH. apply perm_swap.
Qed.

Lemma iterate_sorted (m : RocksDBMultiMap.t) :
  LocallySorted (fun x y => bytes_le (fst x) (fst y)) (RocksDBMultiMap.iterate m).
Proof.
  unfold RocksDBMultiMap.iterate.
  assert (H : forall acc,
            LocallySorted (fun x y => bytes_le (fst x) (fst y)) acc ->
            LocallySorted (fun x y => bytes_le (fst x) (fst y))
              (fold_left (fun sorted e => RocksDBMultiMap.insert e sorted) m acc)).
  { induction m as [|e m IH]; intros acc Hacc; cbn [fold_left]; [assumption|].
    apply IH, insert_sorted, Hacc. }
  apply H. constructor.
Qed.

Lemma iterate_Permutation (m : RocksDBMultiMap.t) :
  Permutation (RocksDBMultiMap.iterate m) m.
Proof.
  unfold RocksDBMultiMap.iterate.
  assert (H : forall acc,
            Permutation (fold_left (fun sorted e => RocksDBMultiMap.insert e sorted) m acc)
                        (acc ++ m)).
  { induction m as [|e m IH]; intros acc; cbn [fold_left].
    - rewrite app_nil_r. reflexivity.
    - rewrite IH, insert_Permutation. apply Permutation_middle. }
  exact (H []).
Qed.

(** When the first key of a new segment is the last key of the segment
    before, the turn of the loop fails with the duplicate-key error that
    names the key, and nothing is added or sent. *)
Lemma writeEntry_duplicate_of_last_key {W : Type} {sstW : SstFileWriter W}
    (MakeRocksDBSstFileWriter : result W) (fmt_key : bytes -> string)
    (writerCtx : Context) (sstMaxSize walltime : Z) (v : writerVars W)
    (e : bytes * bytes) (s : writerState) :
  v_firstKey v = None ->
  v_lastKey v = Some (fst e) ->
  writeEntry MakeRocksDBSstFileWriter fmt_key writerCtx sstMaxSize walltime v e s
  = (Err (errNew ("duplicate key: " ++ fmt_key (fst e))%string), s).
Proof.
  intros Hfirst Hlast. unfold writeEntry, bind, fail.
  rewrite Hfirst, Hlast. unfold Key_Equal, bytes_eqb. cbn [keyBytes].
  rewrite bytes_compare_refl. reflexivity.
Qed.

(** ** Duplicate keys in the sorter, with the reference SST writer *)

Section MemWriter.

Variable fmt_key : bytes -> string.

Lemma timestampLess_irrefl (ts : Timestamp) : timestampLess ts ts = false.
Proof.
  unfold timestampLess. rewrite !Z.ltb_irrefl, andb_false_r. reflexivity.
Qed.

Lemma last_snoc {A : Type} (e : A) (rest : list A) (x : A) :
  exists e' rest', (e :: rest) ++ [x] = e' :: rest' /\ last rest' e' = x.
Proof.
  exists e, (rest ++ [x]). split; [reflexivity|]. apply last_last.
Qed.

Lemma mem_writeEntry_Ok (sstMaxSize walltime : Z) (prev : option bytes)
    (v v' : writerVars memSst) (e : bytes * bytes) (s s' : writerState) :
  follows walltime prev v ->
  writeEntry (Ok newMemSst) fmt_key background sstMaxSize walltime v e s = (Ok v', s') ->
  (forall p, prev = Some p -> bytes_compare p (fst e) <> Eq) /\
  follows walltime (Some (fst e)) v'.
Proof.
  intros (Hlog & Hv) Hstep.
  pose proof (writeEntry_Ok_first _ _ _ _ _ _ _ _ _ _ Hstep) as Hfirst.
  destruct (writeEntry_Ok _ _ _ _ _ _ _ _ _ _ Hlog Hstep)
    as (sst' & Hadd & _ & Hkv & _ & Hcase).
  cbn [sstAdd memSstFileWriter] in Hadd. unfold memAdd in Hadd.
  assert (Hdistinct : forall p, prev = Some p -> bytes_compare p (fst e) <> Eq).
  { intros p ->. destruct (v_firstKey v) as [k|].
    - destruct Hv as (e0 & rest & Hentries & [= ->] & Hts).
      rewrite Hentries in Hadd.
      unfold mvccLess, stamp in Hadd. cbn [mvKey mvccKey mvccTimestamp] in Hadd.
      rewrite Hts in Hadd.
      destruct (bytes_compare _ (fst e)); try discriminate.
      rewrite timestampLess_irrefl in Hadd. discriminate.
    - destruct Hv as (_ & Hlast). specialize (Hfirst eq_refl).
      rewrite Hlast in Hfirst. unfold Key_Equal, bytes_eqb in Hfirst.
      cbn [keyBytes] in Hfirst. rewrite bytes_compare_antisym.
      destruct (bytes_compare (fst e) p); discriminate. }
  split; [exact Hdistinct|]. split; [rewrite Hkv; reflexivity|].
  assert (Hsst' : exists e' rest',
            memEntries sst' = e' :: rest' /\
            last rest' e' = stamp walltime e).
  { destruct (memEntries (v_sst v)) as [|e0 rest] eqn:Hentries.
    - injection Hadd as <-. exists (stamp walltime e), []. split; reflexivity.
    - destruct (mvccLess _ _); [|discriminate]. injection Hadd as <-.
      cbn [memEntries]. apply last_snoc. }
  destruct Hcase as [(_ & Hsst & Hfk & _)|(_ & Hmk & Hfk & Hlk & _)].
  - rewrite Hfk. unfold firstKeyWith.
    destruct Hsst' as (e' & rest' & Hentries & Hlast).
    assert (Hgoal : exists e0 rest0,
              memEntries (v_sst v') = e0 :: rest0 /\
              Some (fst e) = Some (mvccKey (mvKey (last rest0 e0))) /\
              mvccTimestamp (mvKey (last rest0 e0)) = mkTimestamp walltime 0).
    { exists e', rest'. rewrite Hsst, Hlast. repeat split. exact Hentries. }
    destruct (v_firstKey v); exact Hgoal.
  - rewrite Hfk. injection Hmk as <-. split; [reflexivity|exact Hlk].
Qed.

Lemma mem_writeEntries_Ok (sstMaxSize walltime : Z) (entries : list (bytes * bytes)) :
  forall (prev : option bytes) (v v' : writerVars memSst) (s s' : writerState),
    follows walltime prev v ->
    writeEntries (Ok newMemSst) fmt_key background sstMaxSize walltime v entries s
      = (Ok v', s') ->
    distinctFrom prev entries.
Proof.
  induction entries as [|e entries IH]; intros prev v v' s s' Hv Hrun; [exact I|].
  cbn [writeEntries] in Hrun. unfold bind in Hrun.
  destruct (writeEntry _ _ _ sstMaxSize walltime v e s) as [[v1|err] s1] eqn:Hstep;
    [|discriminate].
  destruct (mem_writeEntry_Ok _ _ _ _ _ _ _ _ Hv Hstep) as (Hdistinct & Hv1).
  split; [exact Hdistinct|]. exact (IH _ _ _ _ _ Hv1 Hrun).
Qed.

Lemma mem_writeEntries_Err (sstMaxSize walltime : Z) (entries : list (bytes * bytes)) :
  forall (prev : option bytes) (v : writerVars memSst) (s s' : writerState)
         (err : error),
    follows walltime prev v ->
    writeEntries (Ok newMemSst) fmt_key background sstMaxSize walltime v entries s
      = (Err err, s') ->
    exists e, In e entries /\ duplicateKeyError fmt_key (fst e) err.
Proof.
  induction entries as [|e entries IH]; intros prev v s s' err Hv Hrun;
    [discriminate|].
  cbn [writeEntries] in Hrun. unfold bind in Hrun.
  destruct (writeEntry _ _ _ sstMaxSize walltime v e s) as [[v1|err1] s1] eqn:Hstep.
  - destruct (mem_writeEntry_Ok _ _ _ _ _ _ _ _ Hv Hstep) as (_ & Hv1).
    destruct (IH _ _ _ _ _ Hv1 Hrun) as (e' & Hin & Herr).
    exists e'. split; [right; exact Hin|exact Herr].
  - injection Hrun as <- _. exists e. split; [left; reflexivity|].
    destruct Hv as (Hlog & _).
    destruct (writeEntry_Err_cases _ _ _ _ _ _ _ _ _ _ Hlog Hstep)
      as [(_ & _ & ->)|[(cause & _ & ->)|(sst' & _ & [H|[H|H]])]];
      try discriminate.
    + left. reflexivity.
    + right. exists cause. reflexivity.
Qed.

End MemWriter.

Lemma sorted_distinct_above (l : list (bytes * bytes)) :
  forall lo,
    LocallySorted (fun x y => bytes_le (fst x) (fst y)) l ->
    distinctFrom (Some lo) l ->
    (forall e rest, l = e :: rest -> bytes_le lo (fst e)) ->
    Forall (fun e => bytes_compare lo (fst e) = Lt) l /\ NoDup (map fst l).
Proof.
  induction l as [|e l IH]; intros lo Hsorted Hdistinct Hhead.
  - split; constructor.
  - destruct Hdistinct as (Hne & Hdistinct).
    assert (Hlt : bytes_compare lo (fst e) = Lt).
    { specialize (Hne lo eq_refl). specialize (Hhead e l eq_refl).
      unfold bytes_le in Hhead. destruct (bytes_compare lo (fst e)); congruence. }
    destruct (IH (fst e)) as (Habove & Hnodup); try assumption.
    + inversion Hsorted; [constructor|assumption].
    + intros e' rest' ->. inversion Hsorted; assumption.
    + split.
      * constructor; [exact Hlt|].
        apply Forall_forall. intros e' Hin.
        rewrite Forall_forall in Habove.
        exact (bytes_compare_lt_trans _ _ _ Hlt (Habove e' Hin)).
      * cbn [map]. constructor; [|exact Hnodup].
        intros Hin. apply in_map_iff in Hin. destruct Hin as (e' & Hkey & Hin).
        rewrite Forall_forall in Habove. specialize (Habove e' Hin).
        rewrite Hkey, bytes_compare_refl in Habove. discriminate.
Qed.

Lemma sorted_distinct_NoDup (l : list (bytes * bytes)) :
  LocallySorted (fun x y => bytes_le (fst x) (fst y)) l ->
  distinctFrom None l ->
  NoDup (map fst l).
Proof.
  destruct l as [|e l]; intros Hsorted Hdistinct; [constructor|].
  destruct Hdistinct as (_ & Hdistinct).
  destruct (sorted_distinct_above l (fst e)) as (Habove & Hnodup); try assumption.
  - inversion Hsorted; [constructor|assumption].
  - intros e' rest' ->. inversion Hsorted; assumption.
  - cbn [map]. constructor; [|exact Hnodup].
    intros Hin. apply in_map_iff in Hin. destruct Hin as (e' & Hkey & Hin).
    rewrite Forall_forall in Habove. specialize (Habove e' Hin).
    rewrite Hkey, bytes_compare_refl in Habove. discriminate.
Qed.

(** X11. With the reference SST writer and a context that is not cancelled,
    writeRocksDB fails on every input in which a key comes twice, with
    one of its two duplicate-key errors, for a key of the input. *)
Theorem writeRocksDB_rejects_duplicate_keys :
  forall (fmt_key : bytes -> string) (kvCh : list KeyValue) (sstMaxSize : Z)
         (contentCh0 : list sstContent) (walltime now : Z),
    ~ NoDup (map kvKey kvCh) ->
    let '(n, err, s) :=
      writeRocksDB (Ok newMemSst) fmt_key background None None kvCh sstMaxSize contentCh0
        walltime now in
    n = 0 /\
    exists e k, err = Some e /\ In k (map kvKey kvCh) /\ duplicateKeyError fmt_key k e.
Proof.
  intros fmt_key kvCh sstMaxSize contentCh0 walltime now Hdup.
  unfold writeRocksDB, visited, iterEnd, bind, ret.
  set (sorted := RocksDBMultiMap.iterate (putAll kvCh)).
  set (v0 := mkWriterVars newMemSst _ None None 0).
  set (s0 := mkWriterState contentCh0 [] 0).
  assert (Hv0 : follows walltime None v0) by (repeat split).
  assert (Hkeys : Permutation (map fst sorted) (map kvKey kvCh)).
  { unfold sorted. rewrite iterate_Permutation, putAll_map, map_map.
    reflexivity. }
  destruct (writeEntries _ _ _ sstMaxSize walltime v0 sorted s0)
    as [[v|err] s1] eqn:Hrun.
  - exfalso. apply Hdup.
    apply (Permutation_NoDup Hkeys), sorted_distinct_NoDup.
    + apply iterate_sorted.
    + exact (mem_writeEntries_Ok _ _ _ _ _ _ _ _ _ Hv0 Hrun).
  - destruct (mem_writeEntries_Err _ _ _ _ _ _ _ _ _ Hv0 Hrun) as (e & Hin & Herr).
    split; [reflexivity|]. exists err, (fst e). split; [reflexivity|].
    split; [|exact Herr].
    apply (Permutation_in _ Hkeys), in_map, Hin.
Qed.

(** ** Further properties of the sorter and writer *)

Lemma bytes_le_refl (a : bytes) : bytes_le a a.
Proof. unfold bytes_le. rewrite bytes_compare_refl. discriminate. Qed.

Lemma bytes_le_cases (a b : bytes) :
  bytes_le a b -> a = b \/ bytes_compare a b = Lt.
Proof.
  unfold bytes_le. destruct (bytes_compare a b) eqn:Hc; intros H.
  - left. apply bytes_compare_eq. exact Hc.
  - right. reflexivity.
  - congruence.
Qed.

Lemma bytes_le_lt_trans (a b c : bytes) :
  bytes_le a b -> bytes_compare b c = Lt -> bytes_compare a c = Lt.
Proof.
  intros Hab Hbc. destruct (bytes_le_cases _ _ Hab) as [->|Hlt]; [exact Hbc|].
  exact (bytes_compare_lt_trans _ _ _ Hlt Hbc).
Qed.

Lemma bytes_le_trans (a b c : bytes) : bytes_le a b -> bytes_le b c -> bytes_le a c.
Proof.
  intros Hab Hbc. destruct (bytes_le_cases _ _ Hbc) as [<-|Hlt]; [exact Hab|].
  unfold bytes_le. rewrite (bytes_le_lt_trans _ _ _ Hab Hlt). discriminate.
Qed.

Lemma bytes_le_nil (a : bytes) : bytes_le a [] -> a = [].
Proof. destruct a; [reflexivity|]. unfold bytes_le. cbn. congruence. Qed.

Lemma Key_Next_after (k : bytes) : bytes_compare k (Key_Next k) = Lt.
Proof.
  unfold Key_Next. induction k as [|x k IH]; [reflexivity|].
  cbn [app bytes_compare]. rewrite N.compare_refl. exact IH.
Qed.

Lemma Key_Next_least (a b : bytes) :
  bytes_compare a b = Lt -> bytes_le (Key_Next a) b.
Proof.
  unfold Key_Next, bytes_le. revert b.
  induction a as [|x a IH]; intros [|y b]; cbn [app bytes_compare]; try discriminate.
  - intros _. change (Byte.to_N x00) with 0%N.
    destruct (Byte.to_N y) eqn:Hy; cbn [N.compare]; [|discriminate].
    destruct b; discriminate.
  - destruct (N.compare (Byte.to_N x) (Byte.to_N y)); [apply IH|discriminate..].
Qed.

Lemma LocallySorted_snoc {A : Type} (R : A -> A -> Prop) (l : list A) (b : A) :
  LocallySorted R l ->
  (forall pre a, l = pre ++ [a] -> R a b) ->
  LocallySorted R (l ++ [b]).
Proof.
  induction 1 as [|a|a a' l Hl IH Ha]; intros Hlast.
  - constructor.
  - cbn. constructor; [constructor|]. exact (Hlast [] a eq_refl).
  - cbn [app]. constructor; [|exact Ha]. apply IH.
    intros pre x Heq. apply (Hlast (a :: pre) x). cbn. f_equal. exact Heq.
Qed.

Lemma sorted_head_least (e : bytes * bytes) (l : list (bytes * bytes)) :
  LocallySorted (fun x y => bytes_le (fst x) (fst y)) (e :: l) ->
  forall x, In x l -> bytes_le (fst e) (fst x).
Proof.
  revert e. induction l as [|e' l IH]; intros e Hsorted x Hin; [contradiction|].
  inversion Hsorted as [| |? ? ? Hrest Hle]; subst.
  destruct Hin as [<-|Hin]; [exact Hle|].
  exact (bytes_le_trans _ _ _ Hle (IH e' Hrest x Hin)).
Qed.

Lemma iterate_head_empty (kvCh : list KeyValue) :
  In [] (map kvKey kvCh) ->
  exists e rest, RocksDBMultiMap.iterate (putAll kvCh) = e :: rest /\ fst e = [].
Proof.
  intros Hin. pose proof (iterate_sorted (putAll kvCh)) as Hsorted.
  assert (Hin' : exists x, In x (RocksDBMultiMap.iterate (putAll kvCh)) /\ fst x = []).
  { apply in_map_iff in Hin. destruct Hin as (kv & Hkey & Hkv).
    exists (kvKey kv, RawBytes (kvValue kv)). split; [|exact Hkey].
    apply (Permutation_in _ (Permutation_sym (iterate_Permutation _))).
    rewrite putAll_map. apply in_map_iff. exists kv. split; [reflexivity|exact Hkv]. }
  destruct Hin' as (x & Hx & Hkey).
  destruct (RocksDBMultiMap.iterate (putAll kvCh)) as [|e rest]; [contradiction|].
  exists e, rest. split; [reflexivity|].
  destruct Hx as [->|Hx]; [exact Hkey|].
  apply bytes_le_nil. rewrite <- Hkey.
  exact (sorted_head_least e rest Hsorted x Hx).
Qed.

Section SorterOrder.

Context {W : Type} {sstW : SstFileWriter W}.
Variable MakeRocksDBSstFileWriter : result W.
Variable fmt_key : bytes -> string.
Variable writerCtx : Context.
Variable putErr : option error.
Variable iterErr : option (nat * error).

Lemma writeEntry_ordered (sstMaxSize walltime : Z) (prev : option bytes)
    (v v' : writerVars W) (e : bytes * bytes) (s s' : writerState) :
  orderedAt MakeRocksDBSstFileWriter prev v (contentCh s) ->
  (forall p, prev = Some p -> bytes_le p (fst e)) ->
  writeEntry MakeRocksDBSstFileWriter fmt_key writerCtx sstMaxSize walltime v e s
    = (Ok v', s') ->
  orderedAt MakeRocksDBSstFileWriter (Some (fst e)) v' (contentCh s').
Proof.
  intros (Hlog & (Hne & Hsorted) & Hlast & Hfirst) Hprev Hstep.
  pose proof (writeEntry_Ok_first _ _ _ _ _ _ _ _ _ _ Hstep) as Hcheck.
  destruct (writeEntry_Ok _ _ _ _ _ _ _ _ _ _ Hlog Hstep)
    as (sst' & _ & _ & Hkv & _ & Hcase).
  assert (Hf : exists f,
             firstKeyWith v e = Some f /\
             (forall k, v_lastKey v = Some k -> bytes_compare k f = Lt) /\
             bytes_le f (fst e)).
  { unfold firstKeyWith. destruct (v_firstKey v) as [f|].
    - destruct Hfirst as (Hlow & p & Hp & Hfp & _). exists f.
      split; [reflexivity|]. split; [exact Hlow|].
      exact (bytes_le_trans _ _ _ Hfp (Hprev p Hp)).
    - destruct Hfirst as (_ & Hp). exists (fst e). split; [reflexivity|].
      split; [|apply bytes_le_refl].
      intros k Hk. specialize (Hcheck eq_refl). rewrite Hk in Hcheck, Hp.
      unfold Key_Equal, bytes_eqb in Hcheck. cbn [keyBytes] in Hcheck.
      destruct (bytes_le_cases _ _ (Hprev k Hp)) as [->|Hlt]; [|exact Hlt].
      rewrite bytes_compare_refl in Hcheck. discriminate. }
  destruct Hf as (f & Hf & Hlow & Hfe).
  assert (Hlog' : Logical (mvccTimestamp (mvKey (v_kv v'))) = 0)
    by (rewrite Hkv; reflexivity).
  destruct Hcase as [(_ & _ & Hfk & Hlk & Hch)|(_ & Hmk & Hfk & Hlk & d & _ & Hch)].
  - rewrite Hch. split; [exact Hlog'|]. split; [split; assumption|].
    rewrite Hlk, Hfk, Hf. split; [exact Hlast|]. split; [exact Hlow|].
    exists (fst e). split; [reflexivity|]. split; [exact Hfe|].
    rewrite Hkv. reflexivity.
  - rewrite Hch, Hf. split; [exact Hlog'|]. split; [split|].
    + apply Forall_app. split; [exact Hne|]. constructor; [|constructor].
      unfold spanNonEmpty. cbn [span spanKey spanEndKey keyBytes].
      exact (bytes_le_lt_trans _ _ _ Hfe (Key_Next_after (fst e))).
    + apply LocallySorted_snoc; [exact Hsorted|].
      intros pre a Heq. unfold spanBefore. cbn [span spanKey spanEndKey keyBytes].
      destruct (v_lastKey v) as [k|].
      * destruct Hlast as (pre' & sc & Hsegs & Hend).
        rewrite Hsegs in Heq. apply app_inj_tail in Heq. destruct Heq as [_ <-].
        rewrite Hend. apply Key_Next_least, Hlow. reflexivity.
      * rewrite Hlast in Heq. destruct pre; discriminate.
    + rewrite Hlk, Hfk. split; [|split; [exact Hmk|reflexivity]].
      eexists _, _. split; reflexivity.
Qed.

Lemma writeEntries_ordered (sstMaxSize walltime : Z) (entries : list (bytes * bytes)) :
  forall (prev : option bytes) (v v' : writerVars W) (s s' : writerState),
    orderedAt MakeRocksDBSstFileWriter prev v (contentCh s) ->
    LocallySorted (fun x y => bytes_le (fst x) (fst y)) entries ->
    (forall p e rest, prev = Some p -> entries = e :: rest -> bytes_le p (fst e)) ->
    writeEntries MakeRocksDBSstFileWriter fmt_key writerCtx sstMaxSize walltime v
      entries s = (Ok v', s') ->
    exists prev', orderedAt MakeRocksDBSstFileWriter prev' v' (contentCh s').
Proof.
  induction entries as [|e entries IH]; intros prev v v' s s' Hv Hsorted Hhead Hrun.
  - cbn [writeEntries] in Hrun. injection Hrun as <- <-. exists prev. exact Hv.
  - cbn [writeEntries] in Hrun. unfold bind in Hrun.
    destruct (writeEntry _ _ _ sstMaxSize walltime v e s) as [[v1|err] s1] eqn:Hstep;
      [|discriminate].
    apply (IH (Some (fst e)) v1 v' s1 s').
    + eapply writeEntry_ordered; [exact Hv| |exact Hstep].
      intros p Hp. exact (Hhead p e entries Hp eq_refl).
    + inversion Hsorted; [constructor|assumption].
    + intros p e' rest [= <-] ->. inversion Hsorted; assumption.
    + exact Hrun.
Qed.

(** The segments of a successful sorter are in order. *)
Lemma writeRocksDB_ordered :
  forall (kvCh : list KeyValue) (sstMaxSize walltime now : Z),
    (forall sst0, MakeRocksDBSstFileWriter = Ok sst0 -> sstDataSize sst0 <= 0) ->
    let '(n, err, s) :=
      writeRocksDB MakeRocksDBSstFileWriter fmt_key writerCtx putErr iterErr
        kvCh sstMaxSize [] walltime now in
    err = None -> segmentsInOrder (contentCh s).
Proof.
  intros kvCh sstMaxSize walltime now Hfresh. unfold writeRocksDB.
  destruct putErr; [discriminate|].
  destruct MakeRocksDBSstFileWriter as [sst0|err] eqn:Hmake; [|discriminate].
  match goal with
  | |- context [writeEntries _ _ _ _ _ ?v _] => set (v0 := v)
  end.
  set (s0 := mkWriterState [] [] 0).
  destruct (bind _ _ s0) as [[n|err] s] eqn:Hrun; [|discriminate].
  intros _.
  rewrite <- Hmake in Hrun.
  destruct (writeRocksDB_body_cases _ _ _ _ _ _ _ _ _ _ _ Hrun)
    as [(err & _ & Herr)|[(v & k & err & _ & _ & Herr)|(v & s1 & Hloop & Hiter & Hlast)]];
    try discriminate.
  unfold visited in Hloop. rewrite Hiter in Hloop.
  assert (Hv0 : orderedAt MakeRocksDBSstFileWriter None v0 (contentCh s0)).
  { split; [reflexivity|]. split; [split; constructor|]. split; [reflexivity|].
    split; [exact Hmake|reflexivity]. }
  destruct (writeEntries_ordered _ _ _ _ _ _ _ _ Hv0 (iterate_sorted _)
              ltac:(discriminate) Hloop)
    as (prev & _ & (Hne & Hsorted) & Hlk & Hfk).
  destruct (writeLast_cases _ _ _ _ _ Hlast)
    as (_ & [(Hch & _)|(d & _ & Hsize & _ & Hch)]); rewrite Hch.
  - split; assumption.
  - destruct (v_firstKey v) as [f|].
    + destruct Hfk as (Hlow & p & _ & Hfp & Hkey). split.
      * apply Forall_app. split; [exact Hne|]. constructor; [|constructor].
        unfold spanNonEmpty. cbn [span spanKey spanEndKey keyBytes]. rewrite Hkey.
        exact (bytes_le_lt_trans _ _ _ Hfp (Key_Next_after p)).
      * apply LocallySorted_snoc; [exact Hsorted|].
        intros pre a Heq. unfold spanBefore. cbn [span spanKey spanEndKey keyBytes].
        destruct (v_lastKey v) as [k|].
        -- destruct Hlk as (pre' & sc & Hsegs & Hend).
           rewrite Hsegs in Heq. apply app_inj_tail in Heq. destruct Heq as [_ <-].
           rewrite Hend. apply Key_Next_least, Hlow. reflexivity.
        -- rewrite Hlk in Heq. destruct pre; discriminate.
    + destruct Hfk as (Hsst & _). rewrite Hmake in Hsst.
      specialize (Hfresh _ Hsst). lia.
Qed.

(** X12. The spans of the segments that writeRocksDB sends on a successful run
    hold keys, follow one another in the order of keys and do not
    overlap, when a fresh SST writer holds no data. *)
Theorem writeRocksDB_spans_in_order :
  forall (kvCh : list KeyValue) (sstMaxSize walltime now : Z),
    (forall sst0, MakeRocksDBSstFileWriter = Ok sst0 -> sstDataSize sst0 <= 0) ->
    let '(n, err, s) :=
      writeRocksDB MakeRocksDBSstFileWriter fmt_key writerCtx putErr iterErr
        kvCh sstMaxSize [] walltime now in
    err = None -> segmentsInOrder (contentCh s).
Proof. exact writeRocksDB_ordered. Qed.

Lemma writeEntries_count (sstMaxSize walltime : Z) (entries : list (bytes * bytes)) :
  forall (v v' : writerVars W) (s s' : writerState),
    Logical (mvccTimestamp (mvKey (v_kv v))) = 0 ->
    writeEntries MakeRocksDBSstFileWriter fmt_key writerCtx sstMaxSize walltime v
      entries s = (Ok v', s') ->
    v_count v' = v_count v + len entries.
Proof.
  induction entries as [|e entries IH]; intros v v' s s' Hlog Hrun.
  - cbn [writeEntries] in Hrun. injection Hrun as <- _. cbn. lia.
  - cbn [writeEntries] in Hrun. unfold bind in Hrun.
    destruct (writeEntry _ _ _ sstMaxSize walltime v e s) as [[v1|err] s1] eqn:Hstep;
      [|discriminate].
    destruct (writeEntry_Ok _ _ _ _ _ _ _ _ _ _ Hlog Hstep)
      as (_ & _ & _ & Hkv & Hcount & _).
    rewrite (IH v1 v' s1 s'), Hcount, len_cons; [lia| |exact Hrun].
    rewrite Hkv. reflexivity.
Qed.

Lemma iterate_len (kvCh : list KeyValue) :
  len (RocksDBMultiMap.iterate (putAll kvCh)) = len kvCh.
Proof.
  unfold len. rewrite (Permutation_length (iterate_Permutation _)), putAll_map.
  rewrite length_map. reflexivity.
Qed.

(** The count of the sorter, by its error. *)
Lemma writeRocksDB_count_cases :
  forall (kvCh : list KeyValue) (sstMaxSize : Z) (contentCh0 : list sstContent)
         (walltime now : Z),
    let '(n, err, s) :=
      writeRocksDB MakeRocksDBSstFileWriter fmt_key writerCtx putErr iterErr
        kvCh sstMaxSize contentCh0 walltime now in
    match err with
    | None => n = len kvCh
    | Some _ => n = 0
    end.
Proof.
  intros kvCh sstMaxSize contentCh0 walltime now. unfold writeRocksDB.
  destruct putErr; [reflexivity|].
  destruct MakeRocksDBSstFileWriter as [sst0|err] eqn:Hmake; [|reflexivity].
  match goal with
  | |- context [writeEntries _ _ _ _ _ ?v _] => set (v0 := v)
  end.
  set (s0 := mkWriterState contentCh0 [] 0).
  destruct (bind _ _ s0) as [[n|err] s] eqn:Hrun; [|reflexivity].
  destruct (writeRocksDB_body_cases _ _ _ _ _ _ _ _ _ _ _ Hrun)
    as [(err & _ & Herr)|[(v & k & err & _ & _ & Herr)|(v & s1 & Hloop & Hiter & Hlast)]];
    try discriminate.
  unfold visited in Hloop. rewrite Hiter in Hloop.
  rewrite <- Hmake in Hloop. apply writeEntries_count in Hloop; [|reflexivity].
  rewrite iterate_len in Hloop. cbn [v_count v0] in Hloop.
  unfold writeLast, bind, ret in Hlast.
  destruct (sstDataSize (v_sst v) >? 0).
  - destruct (writeSST _ _ _ _ s1) as [[[]|err] s2]; [|discriminate].
    injection Hlast as <- _. lia.
  - injection Hlast as <- _. lia.
Qed.

(** X13. The count that writeRocksDB returns is the number of KVs it received
    when it returns no error, and 0 when it returns an error. *)
Theorem writeRocksDB_counts_entries :
  forall (kvCh : list KeyValue) (sstMaxSize : Z) (contentCh0 : list sstContent)
         (walltime now : Z),
    let '(n, err, s) :=
      writeRocksDB MakeRocksDBSstFileWriter fmt_key writerCtx putErr iterErr
        kvCh sstMaxSize contentCh0 walltime now in
    match err with
    | None => n = len kvCh
    | Some _ => n = 0
    end.
Proof. exact writeRocksDB_count_cases. Qed.

(** X14. A KV with an empty key makes writeRocksDB fail with "duplicate key",
    although no key need come twice: the empty key comes first in the
    order of keys, and the check of the first key of a segment against
    the last key of the segment before, which is nil at the start, takes
    an empty key for a nil one. Nothing is added or sent. *)
Theorem writeRocksDB_refuses_empty_key :
  forall (kvCh : list KeyValue) (sstMaxSize : Z) (contentCh0 : list sstContent)
         (walltime now : Z) (sst0 : W),
    putErr = None -> iterErr = None -> MakeRocksDBSstFileWriter = Ok sst0 ->
    In [] (map kvKey kvCh) ->
    writeRocksDB MakeRocksDBSstFileWriter fmt_key writerCtx putErr iterErr
      kvCh sstMaxSize contentCh0 walltime now
    = (0, Some (errNew ("duplicate key: " ++ fmt_key [])%string),
       mkWriterState contentCh0 [] 0).
Proof.
  intros kvCh sstMaxSize contentCh0 walltime now sst0 Hput Hiter Hmake Hin.
  unfold writeRocksDB, visited. rewrite Hput, Hiter, Hmake.
  destruct (iterate_head_empty kvCh Hin) as (e & rest & -> & Hkey).
  cbn [writeEntries]. unfold bind at 1 2. unfold writeEntry at 1.
  cbn [v_firstKey v_lastKey]. unfold bind at 1, Key_Equal, fail.
  rewrite Hkey. reflexivity.
Qed.

End SorterOrder.

Lemma sorted_NoDup_strict (l : list (bytes * bytes)) :
  LocallySorted (fun x y => bytes_le (fst x) (fst y)) l ->
  NoDup (map fst l) ->
  LocallySorted (fun x y => bytes_compare (fst x) (fst y) = Lt) l.
Proof.
  induction 1 as [|a|a b l Hl IH Hab]; intros Hnodup; [constructor..|].
  cbn [map] in Hnodup. inversion Hnodup as [|? ? Hnotin Hrest]; subst.
  constructor; [exact (IH Hrest)|].
  destruct (bytes_le_cases _ _ Hab) as [Heq|Hlt]; [|exact Hlt].
  exfalso. apply Hnotin. left. symmetry. exact Heq.
Qed.

Section MemWriterSucceeds.

Variable fmt_key : bytes -> string.

Lemma mem_writeEntry_succeeds (sstMaxSize walltime : Z) (prev : option bytes)
    (v : writerVars memSst) (e : bytes * bytes) (s : writerState) :
  follows walltime prev v ->
  (forall p, prev = Some p -> bytes_compare p (fst e) = Lt) ->
  (prev = None -> fst e <> []) ->
  exists v' s',
    writeEntry (Ok newMemSst) fmt_key background sstMaxSize walltime v e s
    = (Ok v', s').
Proof.
  intros (Hlog & Hv) Hlt Hne.
  assert (Hcheck : match v_firstKey v with
                   | None => Key_Equal (Some (fst e)) (v_lastKey v) = false
                   | Some _ => True
                   end).
  { destruct (v_firstKey v); [exact I|]. destruct Hv as (_ & ->).
    unfold Key_Equal, bytes_eqb. destruct prev as [p|]; cbn [keyBytes].
    - rewrite bytes_compare_antisym, (Hlt p eq_refl). reflexivity.
    - destruct (bytes_compare (fst e) []) eqn:Hc; try reflexivity.
      apply bytes_compare_eq in Hc. destruct (Hne eq_refl Hc). }
  assert (Hadd : exists sst',
            memAdd (v_sst v)
              (mkMVCCKeyValue
                 (mkMVCCKey (fst e)
                    (mkTimestamp walltime (Logical (mvccTimestamp (mvKey (v_kv v))))))
                 (snd e)) = Ok sst').
  { unfold memAdd. destruct (v_firstKey v).
    - destruct Hv as (e0 & rest & -> & Hprev & _).
      unfold mvccLess. cbn [mvKey mvccKey].
      rewrite (Hlt _ Hprev). eexists. reflexivity.
    - destruct Hv as (-> & _). eexists. reflexivity. }
  destruct Hadd as (sst' & Hadd).
  unfold writeEntry, bind, callAdd, writeSST, bind, lift, ret, fail, modify, writerPoll.
  cbn [sstAdd sstFinish sstDataSize memSstFileWriter memFinish background].
  rewrite Hadd.
  destruct (v_firstKey v); [|rewrite Hcheck];
    destruct (memDataSize sst' >? sstMaxSize); eexists _, _; reflexivity.
Qed.

Lemma mem_writeEntries_succeed (sstMaxSize walltime : Z)
    (entries : list (bytes * bytes)) :
  forall (prev : option bytes) (v : writerVars memSst) (s : writerState),
    follows walltime prev v ->
    LocallySorted (fun x y => bytes_compare (fst x) (fst y) = Lt) entries ->
    (forall p e rest, prev = Some p -> entries = e :: rest ->
                      bytes_compare p (fst e) = Lt) ->
    (forall e rest, prev = None -> entries = e :: rest -> fst e <> []) ->
    exists v' s',
      writeEntries (Ok newMemSst) fmt_key background sstMaxSize walltime v entries s
      = (Ok v', s').
Proof.
  induction entries as [|e entries IH]; intros prev v s Hv Hsorted Hlt Hne.
  - eexists _, _. reflexivity.
  - destruct (mem_writeEntry_succeeds sstMaxSize walltime prev v e s Hv)
      as (v1 & s1 & Hstep).
    + intros p Hp. exact (Hlt p e entries Hp eq_refl).
    + intros Hp. exact (Hne e entries Hp eq_refl).
    + cbn [writeEntries]. unfold bind. rewrite Hstep.
      destruct (mem_writeEntry_Ok _ _ _ _ _ _ _ _ _ Hv Hstep) as (_ & Hv1).
      apply (IH (Some (fst e)) v1 s1 Hv1).
      * inversion Hsorted; [constructor|assumption].
      * intros p e' rest [= <-] ->. inversion Hsorted; assumption.
      * discriminate.
Qed.

(** X15. With the reference SST writer, a context that is not cancelled and a
    store that does not fail, writeRocksDB succeeds exactly on the inputs
    whose keys are distinct and not empty. *)
Theorem writeRocksDB_succeeds_iff_keys_distinct :
  forall (kvCh : list KeyValue) (sstMaxSize : Z) (contentCh0 : list sstContent)
         (walltime now : Z),
    snd (fst (writeRocksDB (Ok newMemSst) fmt_key background None None kvCh
                sstMaxSize contentCh0 walltime now)) = None
    <-> NoDup (map kvKey kvCh) /\ ~ In [] (map kvKey kvCh).
Proof.
  intros kvCh sstMaxSize contentCh0 walltime now.
  unfold writeRocksDB, visited, iterEnd.
  set (sorted := RocksDBMultiMap.iterate (putAll kvCh)).
  set (v0 := mkWriterVars newMemSst _ None None 0).
  set (s0 := mkWriterState contentCh0 [] 0).
  assert (Hv0 : follows walltime None v0) by (repeat split).
  assert (Hkeys : Permutation (map fst sorted) (map kvKey kvCh)).
  { unfold sorted. rewrite iterate_Permutation, putAll_map, map_map. reflexivity. }
  unfold bind at 1.
  destruct (writeEntries _ _ _ sstMaxSize walltime v0 sorted s0)
    as [[v|err] s1] eqn:Hrun.
  - assert (Hlast : exists n s2, (ret tt ;;; writeLast background v)%go s1 = (Ok n, s2)).
    { unfold bind, ret, writeLast, bind, writeSST, bind, lift, modify, writerPoll, ret.
      cbn [sstFinish sstDataSize memSstFileWriter memFinish background].
      destruct (memDataSize (v_sst v) >? 0); eexists _, _; reflexivity. }
    destruct Hlast as (n & s2 & ->). cbn [fst snd].
    split; [intros _|reflexivity]. split.
    + apply (Permutation_NoDup Hkeys), sorted_distinct_NoDup.
      * apply iterate_sorted.
      * exact (mem_writeEntries_Ok _ _ _ _ _ _ _ _ _ Hv0 Hrun).
    + intros Hin. destruct (iterate_head_empty kvCh Hin) as (e & rest & Hsorted & Hkey).
      fold sorted in Hsorted. rewrite Hsorted in Hrun.
      cbn [writeEntries] in Hrun. unfold bind in Hrun.
      destruct (writeEntry _ _ _ sstMaxSize walltime v0 e s0) as [[v1|err] s'] eqn:Hstep;
        [|discriminate].
      pose proof (writeEntry_Ok_first _ _ _ _ _ _ _ _ _ _ Hstep eq_refl) as Hcheck.
      rewrite Hkey in Hcheck. discriminate.
  - cbn [fst snd]. split; [discriminate|]. intros (Hnodup & Hne). exfalso.
    destruct (mem_writeEntries_succeed sstMaxSize walltime sorted None v0 s0 Hv0)
      as (v' & s' & Hok).
    + apply sorted_NoDup_strict; [apply iterate_sorted|].
      exact (Permutation_NoDup (Permutation_sym Hkeys) Hnodup).
    + discriminate.
    + intros e rest _ Hsorted Hkey. apply Hne.
      apply (Permutation_in _ Hkeys). rewrite Hsorted. left. exact Hkey.
    + congruence.
Qed.

End MemWriterSucceeds.

(** ** Properties of the SST writer processor *)

Lemma sorted_last_greatest (l : list (bytes * bytes)) :
  LocallySorted (fun x y => bytes_le (fst x) (fst y)) l ->
  forall x, In x l -> bytes_le (fst x) (lastKeyOf l).
Proof.
  induction 1 as [|a|a b l Hl IH Hab]; intros x Hin.
  - contradiction.
  - destruct Hin as [<-|[]]. apply bytes_le_refl.
  - assert (Hlast : lastKeyOf (a :: b :: l) = lastKeyOf (b :: l)) by reflexivity.
    rewrite Hlast. destruct Hin as [<-|Hin]; [|exact (IH x Hin)].
    exact (bytes_le_trans _ _ _ Hab (IH b (or_introl eq_refl))).
Qed.

Section SstWriter.

Context {W : Type} {sstW : SstFileWriter W}.
Variable MakeRocksDBSstFileWriter : result W.
Variable fmt_key : bytes -> string.
Variable SHA512ChecksumData : bytes -> result bytes.
Variable writeFileErr : ExportStorage -> string -> bytes -> option error.
Variable exportStorageErr : string -> option error.
Variable swPutErr : nat -> option error.
Variable swCloseErr : option error.
Variable swIterErr : option (nat * error).
Variable EmitRow : sstRow -> result ConsumerStatus.

Lemma decodeRow_Ok (row : EncDatumRow) (key val : bytes) :
  decodeRow row = Ok (key, val) -> row = [Ok key; Ok val].
Proof.
  unfold decodeRow.
  destruct row as [|[k|e0] [|[v|e1] [|ed row]]]; try discriminate.
  intros [= -> ->]. reflexivity.
Qed.

Lemma swReadRows_Ok (input : list (result EncDatumRow)) :
  forall (n : nat) (store store' : RocksDBMultiMap.t),
    swReadRows swPutErr input n store = Ok store' ->
    exists rows, input = rowsOf rows /\ store' = store ++ rows.
Proof.
  induction input as [|[row|err] input IH]; intros n store store' Hread.
  - injection Hread as <-. exists []. rewrite app_nil_r. split; reflexivity.
  - cbn [swReadRows] in Hread.
    destruct (decodeRow row) as [[key val]|err] eqn:Hrow; [|discriminate].
    destruct (swPutErr n); [discriminate|].
    apply IH in Hread. destruct Hread as (rows & -> & ->).
    exists ((key, val) :: rows). unfold RocksDBMultiMap.Put. rewrite <- app_assoc.
    rewrite (decodeRow_Ok _ _ _ Hrow). split; reflexivity.
  - discriminate.
Qed.

Lemma swAddEntries_cases (walltimeNanos : Z) (entries : list (bytes * bytes)) :
  forall (v : sstWriterVars W) (s s' : sstWriterState)
         (res : result (sstWriterVars W)),
    swAddEntries fmt_key walltimeNanos v entries s = (res, s') ->
    swStore s' = swStore s /\ swOut s' = swOut s /\
    (exists k, swAdds s' = swAdds s ++ map (stamp walltimeNanos) (firstn k entries)) /\
    forall v', res = Ok v' ->
      swAdds s' = swAdds s ++ map (stamp walltimeNanos) entries /\
      build walltimeNanos (sw_sst v) entries = Ok (sw_sst v') /\
      sw_firstKey v'
        = match sw_firstKey v with None => firstKeyOf entries | Some k => Some k end /\
      sw_lastKey v'
        = match entries with [] => sw_lastKey v | _ :: _ => endKeyOf entries end.
Proof.
  induction entries as [|e entries IH]; intros v s s' res Hrun.
  - cbn [swAddEntries ret] in Hrun. injection Hrun as <- <-.
    split; [reflexivity|]. split; [reflexivity|]. split.
    + exists 0%nat. cbn. rewrite app_nil_r. reflexivity.
    + intros v' [= <-]. cbn. rewrite app_nil_r.
      repeat split. destruct (sw_firstKey v); reflexivity.
  - cbn [swAddEntries] in Hrun. unfold bind, swAddEntry in Hrun.
    fold (stamp walltimeNanos e) in Hrun.
    destruct (sstAdd (sw_sst v) (stamp walltimeNanos e)) as [sst|err] eqn:Hadd.
    + apply IH in Hrun. cbn [swStore swOut swAdds sw_sst sw_firstKey sw_lastKey] in Hrun.
      destruct Hrun as (Hstore & Hout & (k & Hk) & Hok).
      split; [exact Hstore|]. split; [exact Hout|]. split.
      * exists (S k). rewrite Hk, <- app_assoc. reflexivity.
      * intros v' Hres. destruct (Hok v' Hres) as (Hadds & Hbuild & Hfirst & Hlast).
        rewrite Hadds, <- app_assoc. cbn [build map app]. rewrite Hadd.
        split; [reflexivity|]. split; [exact Hbuild|]. split.
        -- rewrite Hfirst. destruct (sw_firstKey v); reflexivity.
        -- rewrite Hlast. unfold endKeyOf. destruct entries as [|e' entries'];
             reflexivity.
    + injection Hrun as <- <-. cbn [swStore swOut swAdds].
      split; [reflexivity|]. split; [reflexivity|]. split; [|discriminate].
      exists 1%nat. reflexivity.
Qed.

(** X16. The processor fails on the first row that does not hold exactly two
    datums, with "expected 2 datums, got N", when the rows before it went
    to the multi-map; it has then added nothing to an SST, written no
    file and emitted no row. *)
Theorem sstWriterRun_rejects_wrong_width :
  forall (uri name : string) (walltimeNanos : Z) (good : list (bytes * bytes))
         (bad : EncDatumRow) (rest : list (result EncDatumRow)) (es0 : ExportStorage),
    (forall n, (n < List.length good)%nat -> swPutErr n = None) ->
    List.length bad <> 2%nat ->
    
      sstWriterRun MakeRocksDBSstFileWriter fmt_key SHA512ChecksumData writeFileErr
      exportStorageErr swPutErr swCloseErr swIterErr EmitRow
      uri name walltimeNanos (rowsOf good ++ Ok bad :: rest) es0
    = (Some (errNew ("expected 2 datums, got " ++ fmt_d (len bad))%string),
       mkSstWriterState es0 [] []).
Proof.
  intros uri name walltimeNanos good bad rest es0 Hput Hbad.
  unfold sstWriterRun.
  assert (H : forall n store,
             (forall m, (m < List.length good)%nat -> swPutErr (n + m) = None) ->
             swReadRows swPutErr (rowsOf good ++ Ok bad :: rest) n store
             = Err (errNew ("expected 2 datums, got " ++ fmt_d (len bad))%string)).
  { clear Hput. induction good as [|[key val] good IH]; intros n store Hput.
    - cbn [rowsOf map app swReadRows]. unfold decodeRow.
      destruct bad as [|ed0 [|ed1 [|ed2 bad]]]; try reflexivity.
      exfalso. apply Hbad. reflexivity.
    - cbn [rowsOf map app swReadRows decodeRow fst snd].
      specialize (Hput 0%nat) as Hzero. rewrite Nat.add_0_r in Hzero.
      rewrite Hzero by (cbn; lia). apply IH.
      intros m Hm. replace (S n + m)%nat with (n + S m)%nat by lia.
      apply Hput. cbn. lia. }
  rewrite H; [reflexivity|]. intros m Hm. apply Hput. exact Hm.
Qed.

(** What a successful run of the processor has done. *)
Lemma sstWriterRun_Ok :
  forall (uri name : string) (walltimeNanos : Z)
         (input : list (result EncDatumRow)) (es0 : ExportStorage),
    let '(err, s) := 
      sstWriterRun MakeRocksDBSstFileWriter fmt_key SHA512ChecksumData writeFileErr
      exportStorageErr swPutErr swCloseErr swIterErr EmitRow
      uri name walltimeNanos input es0 in
    err = None ->
    exists rows sst0 w data checksum,
      input = rowsOf rows /\
      MakeRocksDBSstFileWriter = Ok sst0 /\
      build walltimeNanos sst0 (RocksDBMultiMap.iterate rows) = Ok w /\
      swAdds s = map (stamp walltimeNanos) (RocksDBMultiMap.iterate rows) /\
      sstFinish w = Ok data /\
      SHA512ChecksumData data = Ok checksum /\
      swStore s = es0 ++ [(name, data)] /\
      swOut s = [(name, len data, checksum,
                  keyBytes (firstKeyOf (RocksDBMultiMap.iterate rows)),
                  keyBytes (endKeyOf (RocksDBMultiMap.iterate rows)))].
Proof.
  intros uri name walltimeNanos input es0. unfold sstWriterRun.
  destruct (swReadRows swPutErr input 0 RocksDBMultiMap.empty) as [store|err] eqn:Hread;
    [|discriminate].
  apply swReadRows_Ok in Hread. destruct Hread as (rows & -> & ->).
  unfold RocksDBMultiMap.empty. cbn [app].
  destruct swCloseErr; [discriminate|].
  destruct MakeRocksDBSstFileWriter as [sst0|err]; [|discriminate].
  unfold bind at 1.
  destruct (swAddEntries _ _ _ _ _) as [[v|err] s1] eqn:Hadd; [|discriminate].
  destruct swIterErr as [[k err]|]; [discriminate|].
  apply swAddEntries_cases in Hadd.
  destruct Hadd as (Hstore & Hout & _ & Hok).
  destruct (Hok v eq_refl) as (Hadds & Hbuild & Hfirst & Hlast).
  cbn [swStore swOut swAdds sw_sst sw_firstKey sw_lastKey app] in *.
  unfold check, bind, ret, lift, fail.
  destruct (sstFinish (sw_sst v)) as [data|err] eqn:Hfinish; [|discriminate].
  destruct (SHA512ChecksumData data) as [checksum|err] eqn:Hsum; [|discriminate].
  destruct (exportStorageErr uri); [discriminate|].
  unfold swWriteFile. rewrite Hstore.
  destruct (writeFileErr es0 name data); [discriminate|].
  unfold swEmit. cbn [swStore swAdds swOut].
  destruct (EmitRow _) as [[]|err]; try discriminate.
  intros _. exists rows, sst0, (sw_sst v), data, checksum.
  cbn [swStore swAdds swOut]. rewrite Hout, Hadds, Hfirst.
  repeat split; try assumption.
  cbn [app]. repeat f_equal.
  rewrite Hlast. unfold endKeyOf. destruct (RocksDBMultiMap.iterate rows); reflexivity.
Qed.

(** X17. On a successful run the processor has received one row of two datums
    for each pair, has added all the pairs to one SST in the order of
    their keys, under the wall time of its spec, has written the SST's
    bytes under its name and nothing else, and has emitted one row: the
    name, the length of the bytes, their checksum, the first key and the
    successor of the last key (both empty when there was no pair). *)
Theorem sstWriterRun_writes_one_file :
  forall (uri name : string) (walltimeNanos : Z)
         (input : list (result EncDatumRow)) (es0 : ExportStorage),
    let '(err, s) := 
      sstWriterRun MakeRocksDBSstFileWriter fmt_key SHA512ChecksumData writeFileErr
      exportStorageErr swPutErr swCloseErr swIterErr EmitRow
      uri name walltimeNanos input es0 in
    err = None ->
    exists rows sst0 w data checksum,
      input = rowsOf rows /\
      MakeRocksDBSstFileWriter = Ok sst0 /\
      build walltimeNanos sst0 (RocksDBMultiMap.iterate rows) = Ok w /\
      swAdds s = map (stamp walltimeNanos) (RocksDBMultiMap.iterate rows) /\
      sstFinish w = Ok data /\
      SHA512ChecksumData data = Ok checksum /\
      swStore s = es0 ++ [(name, data)] /\
      swOut s = [(name, len data, checksum,
                  keyBytes (firstKeyOf (RocksDBMultiMap.iterate rows)),
                  keyBytes (endKeyOf (RocksDBMultiMap.iterate rows)))].
Proof. exact sstWriterRun_Ok. Qed.

(** X18. On a successful run on an input that is not empty, the span that the
    emitted row gives, from its fourth to its fifth column, covers the
    key of every pair received: none is before its start, all are before
    its end. *)
Theorem sstWriterRun_span_covers_keys :
  forall (uri name : string) (walltimeNanos : Z) (rows : list (bytes * bytes))
         (es0 : ExportStorage),
    let '(err, s) := 
      sstWriterRun MakeRocksDBSstFileWriter fmt_key SHA512ChecksumData writeFileErr
      exportStorageErr swPutErr swCloseErr swIterErr EmitRow
      uri name walltimeNanos (rowsOf rows) es0 in
    err = None ->
    forall (file : string) (sz : Z) (checksum spanStart spanEnd key : bytes),
      In (file, sz, checksum, spanStart, spanEnd) (swOut s) ->
      In key (map fst rows) ->
      bytes_le spanStart key /\ bytes_compare key spanEnd = Lt.
Proof.
  intros uri name walltimeNanos rows es0.
  pose proof (sstWriterRun_Ok uri name walltimeNanos (rowsOf rows) es0)
    as Hone.
  destruct (sstWriterRun MakeRocksDBSstFileWriter fmt_key SHA512ChecksumData writeFileErr
      exportStorageErr swPutErr swCloseErr swIterErr EmitRow uri name walltimeNanos
      (rowsOf rows) es0) as [err s].
  intros Herr. destruct (Hone Herr)
    as (rows' & sst0 & w & data & checksum' & Hrows & _ & _ & _ & _ & _ & _ & Hout).
  assert (rows' = rows) as ->.
  { clear -Hrows. revert rows' Hrows.
    induction rows as [|[k v] rows IH]; intros [|[k' v'] rows'] H; try discriminate;
      [reflexivity|].
    cbn in H. injection H as -> -> H. f_equal. apply IH. exact H. }
  intros file sz checksum spanStart spanEnd key Hin Hkey.
  rewrite Hout in Hin. destruct Hin as [[= _ _ _ <- <-]|[]].
  pose proof (iterate_sorted rows) as Hsorted.
  apply in_map_iff in Hkey. destruct Hkey as (x & <- & Hx).
  apply (Permutation_in _ (Permutation_sym (iterate_Permutation rows))) in Hx.
  destruct (RocksDBMultiMap.iterate rows) as [|e sorted] eqn:Hiter; [contradiction|].
  cbn [firstKeyOf endKeyOf keyBytes]. split.
  - destruct Hx as [<-|Hx]; [apply bytes_le_refl|].
    exact (sorted_head_least e sorted Hsorted x Hx).
  - exact (bytes_le_lt_trans _ _ _ (sorted_last_greatest _ Hsorted x Hx)
             (Key_Next_after _)).
Qed.

End SstWriter.

(** ** Further properties of the local pipeline *)

Lemma group_Wait_None (handed : list (option error)) :
  group_Wait handed = None <-> Forall (fun err => err = None) handed.
Proof.
  induction handed as [|[err|] handed IH]; cbn [group_Wait].
  - split; [constructor|reflexivity].
  - split; [discriminate|]. intros H. inversion H. discriminate.
  - rewrite IH. split; [constructor; [reflexivity|assumption]|].
    intros H. inversion H. assumption.
Qed.

Lemma group_Wait_Some (handed : list (option error)) (err : error) :
  group_Wait handed = Some err -> In (Some err) handed.
Proof.
  induction handed as [|[err'|] handed IH]; cbn [group_Wait]; [discriminate| |].
  - intros [= ->]. left. reflexivity.
  - intros H. right. exact (IH H).
Qed.

Section LocalPipeline.

Variable openCSV : string -> Z -> Z -> result (list (result (list string))).
Variable readerCtx : Context.
Context {W : Type} {sstW : SstFileWriter W}.
Variable MakeRocksDBSstFileWriter : result W.
Variable fmt_key : bytes -> string.
Variable writerCtx : Context.
Variable putErr : option error.
Variable iterErr : option (nat * error).
Variable SHA512ChecksumData : bytes -> result bytes.
Variable writeFileErr : ExportStorage -> string -> bytes -> option error.
Variable exportStorageErr : string -> option error.
Variable TableSpan : TableDescriptor -> Span.
Variable Marshal : BackupDescriptor -> result bytes.
Variable BackupDescriptorName : string.
Variable BackupFormatInitialVersion : Z.
Variable buildInfo : string.
Variable convertRecords :
  option string -> TableDescriptor -> list csvRecord -> list KeyValue * option error.
Variable sorterNow : Z.

(** A successful sorter has counted its input and sent segments in
    order, none when its input was empty. *)
Lemma writeRocksDB_success (kvCh : list KeyValue) (sstMaxSize walltime now n : Z)
    (s : writerState) :
  (forall sst0, MakeRocksDBSstFileWriter = Ok sst0 -> sstDataSize sst0 <= 0) ->
  writeRocksDB MakeRocksDBSstFileWriter fmt_key writerCtx putErr iterErr
    kvCh sstMaxSize [] walltime now = (n, None, s) ->
  n = len kvCh /\ segmentsInOrder (contentCh s) /\ (kvCh = [] -> contentCh s = []).
Proof.
  intros Hfresh Hrun.
  pose proof (writeRocksDB_count_cases MakeRocksDBSstFileWriter fmt_key writerCtx
                putErr iterErr kvCh sstMaxSize [] walltime now) as Hcount.
  pose proof (writeRocksDB_ordered MakeRocksDBSstFileWriter fmt_key writerCtx
                putErr iterErr kvCh sstMaxSize walltime now Hfresh) as Hspans.
  rewrite Hrun in Hcount, Hspans.
  split; [exact Hcount|]. split; [exact (Hspans eq_refl)|].
  intros ->. unfold writeRocksDB in Hrun. cbn [putAll fold_left] in Hrun.
  destruct putErr; [discriminate|].
  destruct MakeRocksDBSstFileWriter as [sst0|err] eqn:Hmake; [|discriminate].
  unfold visited, iterEnd in Hrun.
  assert (Hnil : RocksDBMultiMap.iterate RocksDBMultiMap.empty = []) by reflexivity.
  rewrite Hnil in Hrun.
  assert (Hvis : match iterErr with Some (k, _) => firstn k [] | None => @nil (bytes * bytes) end = [])
    by (destruct iterErr as [[[|k] e]|]; reflexivity).
  rewrite Hvis in Hrun. cbn [writeEntries] in Hrun. unfold bind, ret in Hrun.
  destruct iterErr as [[k e]|]; [discriminate|].
  unfold writeLast, bind, ret in Hrun. cbn [v_sst] in Hrun.
  specialize (Hfresh sst0 eq_refl).
  destruct (sstDataSize sst0 >? 0) eqn:Hsize; [lia|].
  injection Hrun as _ <-. reflexivity.
Qed.

(** With no KV the sorter sends no segment, however it ends. *)
Lemma writeRocksDB_no_input (sstMaxSize walltime now : Z) :
  (forall sst0, MakeRocksDBSstFileWriter = Ok sst0 -> sstDataSize sst0 <= 0) ->
  contentCh (snd (writeRocksDB MakeRocksDBSstFileWriter fmt_key writerCtx putErr iterErr
                    [] sstMaxSize [] walltime now)) = [].
Proof.
  intros Hfresh. unfold writeRocksDB. cbn [putAll fold_left].
  destruct putErr; [reflexivity|].
  destruct MakeRocksDBSstFileWriter as [sst0|err] eqn:Hmake; [|reflexivity].
  unfold visited, iterEnd.
  assert (Hnil : RocksDBMultiMap.iterate RocksDBMultiMap.empty = []) by reflexivity.
  rewrite Hnil.
  assert (Hvis : match iterErr with
                 | Some (k, _) => firstn k []
                 | None => @nil (bytes * bytes)
                 end = [])
    by (destruct iterErr as [[[|k] e]|]; reflexivity).
  rewrite Hvis. cbn [writeEntries]. unfold bind, ret.
  destruct iterErr as [[k e]|]; [reflexivity|].
  unfold writeLast, bind, ret. cbn [v_sst].
  specialize (Hfresh sst0 eq_refl).
  destruct (sstDataSize sst0 >? 0) eqn:Hsize; [lia|reflexivity].
Qed.

(** A successful finalizer has written every segment and then the
    descriptor, and there was a segment. *)
Lemma makeBackup_success (parentID : Z) (tableDesc : TableDescriptor)
    (destDir : string) (contentCh : list sstContent) (walltime : Z)
    (execCfg : option (Z * string)) (es0 : ExportStorage) (n : Z) (s : backupState) :
  makeBackup SHA512ChecksumData writeFileErr exportStorageErr TableSpan Marshal
    BackupDescriptorName BackupFormatInitialVersion buildInfo parentID tableDesc
    destDir contentCh walltime execCfg es0 = (n, None, s) ->
  n = len contentCh /\ contentCh <> [] /\
  exists descBuf,
    es s = es0 ++ segmentFiles 1 contentCh ++ [(BackupDescriptorName, descBuf)].
Proof.
  unfold makeBackup. destruct (exportStorageErr destDir); [discriminate|].
  destruct (writeSegments _ _ 0 contentCh _) as [[i|err] s1] eqn:Hrun; [|discriminate].
  apply writeSegments_written in Hrun.
  destruct Hrun as (k & checksums & _ & Hsum & Hes & Hfiles & _ & -> & _ & _).
  rewrite firstn_all in Hes, Hfiles, Hsum.
  cbn [es backupDesc newBackupDescriptor Files app Z.add] in Hes, Hfiles.
  destruct (finalizeCSVBackup _ _ _ _ _ _ _ _ _ s1) as [[[]|err] s2] eqn:Hfin;
    [|discriminate].
  intros [= <- <-].
  pose proof (finalizeCSVBackup_effect _ _ _ _ _ _ _ _ _ _ _ _ Hfin) as (Hperm & _).
  apply finalizeCSVBackup_Ok in Hfin. destruct Hfin as (Hne & _ & descBuf & _ & Hes2).
  split; [|split].
  - unfold len at 1. rewrite (Permutation_length Hperm), Hfiles.
    apply fileEntries_len. exact (Forall2_length Hsum).
  - intros ->. apply Hne. rewrite Hfiles. reflexivity.
  - exists descBuf. rewrite Hes2, Hes, <- app_assoc. reflexivity.
Qed.

(** X19. A successful local transform: every stage has succeeded; the reader
    has sent well-formed records, the converter has made KVs of them,
    the sorter has cut them into segments whose spans are in order, and
    the finalizer has written the segments under "1.sst", "2.sst", ...
    and then the descriptor. The three counts are the numbers of
    records, of KVs and of segments, and there was at least one KV and
    one segment. *)
Theorem doLocalCSVTransform_success :
  forall (order : list goroutine) (parentID : Z) (tableDesc : TableDescriptor)
         (dest : string) (dataFiles : list string) (comma comment : Z)
         (nullif : option string) (sstMaxSize walltime : Z)
         (execCfg : option (Z * string)) (es0 : ExportStorage),
    (forall g, In g order) ->
    (forall sst0, MakeRocksDBSstFileWriter = Ok sst0 -> sstDataSize sst0 <= 0) ->
    let '(csvCount, kvCount, sstCount, err, bs) :=
      doLocalCSVTransform openCSV readerCtx MakeRocksDBSstFileWriter fmt_key writerCtx
        putErr iterErr SHA512ChecksumData writeFileErr exportStorageErr TableSpan
        Marshal BackupDescriptorName BackupFormatInitialVersion buildInfo
        convertRecords sorterNow order parentID tableDesc dest dataFiles comma
        comment nullif sstMaxSize walltime execCfg es0 in
    err = None ->
    exists records kvCh segs descBuf,
      Forall (wellFormedRecord (len (VisibleColumns tableDesc)) dataFiles) records /\
      convertRecords nullif tableDesc records = (kvCh, None) /\
      csvCount = len records /\ kvCount = len kvCh /\ sstCount = len segs /\
      1 <= kvCount /\ 1 <= sstCount /\
      segmentsInOrder segs /\
      es bs = es0 ++ segmentFiles 1 segs ++ [(BackupDescriptorName, descBuf)].
Proof.
  intros order parentID tableDesc dest dataFiles comma comment nullif sstMaxSize
         walltime execCfg es0 Horder Hfresh.
  unfold doLocalCSVTransform.
  destruct (readCSV openCSV readerCtx comma comment (len (VisibleColumns tableDesc))
              dataFiles []) as [[csvCount errReader] rs] eqn:Hread.
  destruct (convertRecords nullif tableDesc (recordCh rs)) as [kvCh errConverter]
    eqn:Hconvert.
  destruct (writeRocksDB MakeRocksDBSstFileWriter fmt_key writerCtx putErr iterErr
              kvCh sstMaxSize [] walltime sorterNow) as [[kvCount errWriter] ws]
    eqn:Hwrite.
  destruct (makeBackup SHA512ChecksumData writeFileErr exportStorageErr TableSpan
              Marshal BackupDescriptorName BackupFormatInitialVersion buildInfo
              parentID tableDesc dest (contentCh ws) walltime execCfg es0)
    as [[sstCount errFinalizer] bs] eqn:Hbackup.
  intros Hwait. apply group_Wait_None in Hwait. rewrite Forall_forall in Hwait.
  assert (Hstage : forall g,
             match g with
             | gReader => errReader
             | gConverter => errConverter
             | gWriter => errWriter
             | gFinalizer => errFinalizer
             end = None).
  { intros g. apply Hwait.
    apply (in_map (fun g => match g with
                            | gReader => errReader
                            | gConverter => errConverter
                            | gWriter => errWriter
                            | gFinalizer => errFinalizer
                            end) order g (Horder g)). }
  pose proof (Hstage gReader) as Hr. pose proof (Hstage gConverter) as Hc.
  pose proof (Hstage gWriter) as Hw. pose proof (Hstage gFinalizer) as Hf.
  cbn beta iota in Hr, Hc, Hw, Hf. clear Hstage Hwait. subst.
  destruct (writeRocksDB_success _ _ _ _ _ _ Hfresh Hwrite) as (-> & Hspans & Hnone).
  destruct (makeBackup_success _ _ _ _ _ _ _ _ _ Hbackup) as (-> & Hsegs & descBuf & Hes).
  unfold readCSV in Hread.
  destruct (readFiles _ _ _ _ _ _ _) as [[[]|err] s] eqn:Hfiles; [|discriminate].
  injection Hread as <- <-. apply readFiles_sent in Hfiles.
  destruct Hfiles as (sent & Hch & Hcount & Hwf & _).
  cbn [recordCh count app Z.add] in Hch, Hcount.
  exists sent, kvCh, (contentCh ws), descBuf. rewrite <- Hch.
  split; [rewrite Hch; exact Hwf|]. split; [exact Hconvert|].
  split; [rewrite Hcount, Hch; reflexivity|]. split; [reflexivity|].
  split; [reflexivity|]. split.
  - destruct kvCh as [|kv kvCh]; [destruct (Hsegs (Hnone eq_refl))|].
    rewrite len_cons. unfold len. lia.
  - split; [|split; [exact Hspans|exact Hes]].
    destruct (contentCh ws) as [|sc segs]; [destruct (Hsegs eq_refl)|].
    rewrite len_cons. unfold len. lia.
Qed.

(** X20. When the converter sends no KV, as for data files without rows, the
    local transform returns an error and has written nothing to the
    destination: the sorter sends no segment and the finalizer refuses
    a backup without files. *)
Theorem doLocalCSVTransform_fails_without_rows :
  forall (order : list goroutine) (parentID : Z) (tableDesc : TableDescriptor)
         (dest : string) (dataFiles : list string) (comma comment : Z)
         (nullif : option string) (sstMaxSize walltime : Z)
         (execCfg : option (Z * string)) (es0 : ExportStorage),
    In gFinalizer order ->
    (forall sst0, MakeRocksDBSstFileWriter = Ok sst0 -> sstDataSize sst0 <= 0) ->
    fst (convertRecords nullif tableDesc
           (recordCh (snd (readCSV openCSV readerCtx comma comment
                             (len (VisibleColumns tableDesc)) dataFiles [])))) = [] ->
    let '(csvCount, kvCount, sstCount, err, bs) :=
      doLocalCSVTransform openCSV readerCtx MakeRocksDBSstFileWriter fmt_key writerCtx
        putErr iterErr SHA512ChecksumData writeFileErr exportStorageErr TableSpan
        Marshal BackupDescriptorName BackupFormatInitialVersion buildInfo
        convertRecords sorterNow order parentID tableDesc dest dataFiles comma
        comment nullif sstMaxSize walltime execCfg es0 in
    err <> None /\ sstCount = 0 /\ es bs = es0.
Proof.
  intros order parentID tableDesc dest dataFiles comma comment nullif sstMaxSize
         walltime execCfg es0 Horder Hfresh Hnone.
  unfold doLocalCSVTransform.
  destruct (readCSV openCSV readerCtx comma comment (len (VisibleColumns tableDesc))
              dataFiles []) as [[csvCount errReader] rs] eqn:Hread.
  cbn [snd] in Hnone.
  destruct (convertRecords nullif tableDesc (recordCh rs)) as [kvCh errConverter]
    eqn:Hconvert.
  cbn [fst] in Hnone. subst kvCh.
  pose proof (writeRocksDB_no_input sstMaxSize walltime sorterNow Hfresh) as Hsegs.
  destruct (writeRocksDB MakeRocksDBSstFileWriter fmt_key writerCtx putErr iterErr
              [] sstMaxSize [] walltime sorterNow) as [[kvCount errWriter] ws].
  cbn [snd] in Hsegs. rewrite Hsegs.
  assert (Hbackup : exists err,
            makeBackup SHA512ChecksumData writeFileErr exportStorageErr TableSpan
              Marshal BackupDescriptorName BackupFormatInitialVersion buildInfo
              parentID tableDesc dest [] walltime execCfg es0
            = (0, Some err, mkBackupState es0 (newBackupDescriptor walltime))).
  { unfold makeBackup. destruct (exportStorageErr dest) as [err|]; eexists; reflexivity. }
  destruct Hbackup as (err & ->).
  split; [|split; reflexivity].
  intros Hwait. apply group_Wait_None in Hwait. rewrite Forall_forall in Hwait.
  specialize (Hwait (Some err)). 
  assert (Hin : In (Some err)
            (map (fun g => match g with
                           | gReader => errReader
                           | gConverter => errConverter
                           | gWriter => errWriter
                           | gFinalizer => Some err
                           end) order))
    by exact (in_map _ order gFinalizer Horder).
  specialize (Hwait Hin). discriminate.
Qed.

End LocalPipeline.

(** ** Properties of the description of the import job *)

Lemma list_byte_of_string_inj (a b : string) :
  list_byte_of_string a = list_byte_of_string b -> a = b.
Proof.
  intros H. rewrite <- (string_of_list_byte_of_string a),
              <- (string_of_list_byte_of_string b), H. reflexivity.
Qed.

Lemma string_ltb_irrefl (a : string) : string_ltb a a = false.
Proof. unfold string_ltb, bytes_ltb. rewrite bytes_compare_refl. reflexivity. Qed.

Lemma string_ltb_trans (a b c : string) :
  string_ltb a b = true -> string_ltb b c = true -> string_ltb a c = true.
Proof.
  unfold string_ltb, bytes_ltb. intros Hab Hbc.
  destruct (bytes_compare (list_byte_of_string a) (list_byte_of_string b)) eqn:H1;
    try discriminate.
  destruct (bytes_compare (list_byte_of_string b) (list_byte_of_string c)) eqn:H2;
    try discriminate.
  rewrite (bytes_compare_lt_trans _ _ _ H1 H2). reflexivity.
Qed.

Lemma string_ltb_total (a b : string) :
  string_ltb a b = false -> a <> b -> string_ltb b a = true.
Proof.
  unfold string_ltb, bytes_ltb. intros Hab Hne.
  rewrite (bytes_compare_antisym (list_byte_of_string a)).
  destruct (bytes_compare (list_byte_of_string a) (list_byte_of_string b)) eqn:Hc;
    try discriminate; [|reflexivity].
  destruct Hne. apply list_byte_of_string_inj, bytes_compare_eq, Hc.
Qed.

Lemma insertOption_Permutation (o : KVOption) (sorted : list KVOption) :
  Permutation (insertOption o sorted) (o :: sorted).
Proof.
  induction sorted as [|x sorted IH]; cbn [insertOption]; [reflexivity|].
  destruct (string_ltb (optKey o) (optKey x)); [reflexivity|].
  rewrite IH. apply perm_swap.
Qed.

Lemma sortOptions_Permutation (options : list KVOption) :
  Permutation (sortOptions options) options.
Proof.
  unfold sortOptions.
  assert (H : forall acc, Permutation (fold_left (fun sorted o => insertOption o sorted)
                                         options acc) (acc ++ options)).
  { induction options as [|o options IH]; intros acc; cbn [fold_left].
    - rewrite app_nil_r. reflexivity.
    - rewrite IH, insertOption_Permutation. apply Permutation_middle. }
  exact (H []).
Qed.

Lemma insertOption_sorted (o : KVOption) (sorted : list KVOption) :
  optionsSorted sorted ->
  ~ In (optKey o) (map optKey sorted) ->
  optionsSorted (insertOption o sorted).
Proof.
  unfold optionsSorted.
  induction 1 as [|a|a b l Hl IH Hab]; intros Hnew; cbn [insertOption].
  - constructor.
  - destruct (string_ltb (optKey o) (optKey a)) eqn:Hoa.
    + constructor; [constructor|exact Hoa].
    + constructor; [constructor|]. apply string_ltb_total; [exact Hoa|].
      intros Heq. apply Hnew. left. symmetry. exact Heq.
  - destruct (string_ltb (optKey o) (optKey a)) eqn:Hoa.
    + constructor; [constructor; assumption|exact Hoa].
    + assert (Hrest : ~ In (optKey o) (map optKey (b :: l)))
        by (intros Hin; apply Hnew; right; exact Hin).
      specialize (IH Hrest). cbn [insertOption] in IH |- *.
      destruct (string_ltb (optKey o) (optKey b)) eqn:Hob.
      * constructor; [exact IH|]. apply string_ltb_total; [exact Hoa|].
        intros Heq. apply Hnew. left. symmetry. exact Heq.
      * constructor; [exact IH|exact Hab].
Qed.

Lemma sortOptions_sorted (options : list KVOption) :
  NoDup (map optKey options) -> optionsSorted (sortOptions options).
Proof.
  unfold sortOptions.
  assert (H : forall acc,
             optionsSorted acc -> NoDup (map optKey (acc ++ options)) ->
             optionsSorted (fold_left (fun sorted o => insertOption o sorted)
                              options acc)).
  { induction options as [|o options IH]; intros acc Hacc Hnodup; cbn [fold_left].
    - exact Hacc.
    - apply IH.
      + apply insertOption_sorted; [exact Hacc|].
        rewrite map_app in Hnodup. cbn [map] in Hnodup.
        apply NoDup_remove_2 in Hnodup. intros Hin. apply Hnodup.
        apply in_or_app. left. exact Hin.
      + eapply Permutation_NoDup; [|exact Hnodup].
        rewrite !map_app. cbn [map].
        rewrite (Permutation_map optKey (insertOption_Permutation o acc)). cbn [map].
        rewrite <- Permutation_middle. reflexivity. }
  intros Hnodup. apply H; [constructor|exact Hnodup].
Qed.

Lemma optionsSorted_head (o : KVOption) (l : list KVOption) :
  optionsSorted (o :: l) ->
  Forall (fun x => string_ltb (optKey o) (optKey x) = true) l.
Proof.
  unfold optionsSorted. revert o.
  induction l as [|a l IH]; intros o Hsorted; [constructor|].
  inversion Hsorted as [| |? ? ? Hrest Hoa]; subst.
  constructor; [exact Hoa|].
  eapply Forall_impl; [|exact (IH a Hrest)].
  intros x Hax. exact (string_ltb_trans _ _ _ Hoa Hax).
Qed.

Lemma optionsSorted_unique (l : list KVOption) :
  forall l', optionsSorted l -> optionsSorted l' -> Permutation l l' -> l = l'.
Proof.
  induction l as [|a l IH]; intros l' Hl Hl' Hperm.
  - apply Permutation_nil in Hperm. congruence.
  - destruct l' as [|b l'];
      [apply Permutation_sym, Permutation_nil in Hperm; discriminate|].
    pose proof (optionsSorted_head _ _ Hl) as Ha.
    pose proof (optionsSorted_head _ _ Hl') as Hb.
    rewrite Forall_forall in Ha, Hb.
    assert (Hab : a = b).
    { assert (Hina : In a (b :: l'))
        by (apply (Permutation_in _ Hperm); left; reflexivity).
      assert (Hinb : In b (a :: l))
        by (apply (Permutation_in _ (Permutation_sym Hperm)); left; reflexivity).
      destruct Hina as [->|Hina]; [reflexivity|].
      destruct Hinb as [->|Hinb]; [reflexivity|].
      pose proof (string_ltb_trans _ _ _ (Ha b Hinb) (Hb a Hina)) as Hcycle.
      rewrite string_ltb_irrefl in Hcycle. discriminate. }
    subst b. f_equal. apply IH.
    + inversion Hl; [constructor|assumption].
    + inversion Hl'; [constructor|assumption].
    + exact (Permutation_cons_inv Hperm).
Qed.

Section JobDescriptions.

Variable SanitizeExportStorageURI : string -> result string.
Variable AsStringWithFlags : Import -> list string -> list KVOption -> string.

Lemma cleanFiles_Ok (files : list string) :
  forall files',
    JobDescription.cleanFiles SanitizeExportStorageURI files = Ok files' ->
    Forall2 (fun file clean => SanitizeExportStorageURI file = Ok clean) files files'.
Proof.
  induction files as [|file files IH]; intros files' H; cbn in H.
  - injection H as <-. constructor.
  - destruct (SanitizeExportStorageURI file) as [clean|err] eqn:Hclean; [|discriminate].
    destruct (JobDescription.cleanFiles SanitizeExportStorageURI files) as [rest|err];
      [|discriminate].
    injection H as <-. constructor; [exact Hclean|]. apply IH. reflexivity.
Qed.

(** What the loop over the options returns. *)
Lemma kvOptions_Ok (opts : list (string * string)) :
  forall (options options' : list KVOption) (flag flag' : bool),
    JobDescription.kvOptions SanitizeExportStorageURI opts options flag
      = Ok (options', flag') ->
    options' = options ++ map (optionOf SanitizeExportStorageURI) opts /\
    flag' = (flag || existsb (fun kv => String.eqb (fst kv) importOptionTransformOnly)
                             opts)%bool /\
    forall v, In (importOptionTemp, v) opts ->
              exists clean, SanitizeExportStorageURI v = Ok clean.
Proof.
  induction opts as [|[k v] opts IH]; intros options options' flag flag' H.
  - cbn in H. injection H as <- <-. rewrite app_nil_r, orb_false_r.
    repeat split. intros v [].
  - cbn [JobDescription.kvOptions] in H.
    destruct (String.eqb k importOptionTemp) eqn:Htemp.
    + destruct (SanitizeExportStorageURI v) as [clean|err] eqn:Hclean; [|discriminate].
      apply IH in H. destruct H as (-> & -> & Hopts).
      rewrite <- app_assoc. cbn [map app existsb fst snd].
      unfold optionOf at 2. cbn [fst snd]. rewrite Htemp, Hclean.
      split; [reflexivity|].
      split; [destruct (String.eqb k importOptionTransformOnly), flag; reflexivity|].
      intros v' [[= _ <-]|Hin]; [eauto|exact (Hopts v' Hin)].
    + apply IH in H. destruct H as (-> & -> & Hopts).
      rewrite <- app_assoc. cbn [map app existsb fst snd].
      unfold optionOf at 2. cbn [fst snd]. rewrite Htemp.
      split; [reflexivity|].
      split; [destruct (String.eqb k importOptionTransformOnly), flag; reflexivity|].
      intros v' [[= -> _]|Hin]; [|exact (Hopts v' Hin)].
      rewrite String.eqb_refl in Htemp. discriminate.
Qed.

Lemma kvOptions_Err (opts : list (string * string)) :
  forall (options : list KVOption) (flag : bool) (err : error),
    JobDescription.kvOptions SanitizeExportStorageURI opts options flag = Err err ->
    exists v, In (importOptionTemp, v) opts /\ SanitizeExportStorageURI v = Err err.
Proof.
  induction opts as [|[k v] opts IH]; intros options flag err H; [discriminate|].
  cbn [JobDescription.kvOptions] in H.
  destruct (String.eqb k importOptionTemp) eqn:Htemp.
  - apply String.eqb_eq in Htemp. subst k.
    destruct (SanitizeExportStorageURI v) as [clean|err'] eqn:Hclean.
    + apply IH in H. destruct H as (v' & Hin & Herr). exists v'.
      split; [right; exact Hin|exact Herr].
    + injection H as <-. exists v. split; [left; reflexivity|exact Hclean].
  - apply IH in H. destruct H as (v' & Hin & Herr). exists v'.
    split; [right; exact Hin|exact Herr].
Qed.

Lemma existsb_transformOnly (opts : list (string * string)) :
  existsb (fun kv => String.eqb (fst kv) importOptionTransformOnly) opts = true
  <-> In importOptionTransformOnly (map fst opts).
Proof.
  rewrite existsb_exists, in_map_iff. split.
  - intros (kv & Hin & Heq). apply String.eqb_eq in Heq. eauto.
  - intros (kv & Heq & Hin). exists kv. split; [exact Hin|].
    apply String.eqb_eq. exact Heq.
Qed.

Lemma optionOf_keys (opts : list (string * string)) :
  map optKey (map (optionOf SanitizeExportStorageURI) opts) = map fst opts.
Proof. rewrite map_map. reflexivity. Qed.

Lemma describedOptions_keys (opts : list (string * string)) :
  NoDup (map fst opts) ->
  NoDup (map optKey (describedOptions SanitizeExportStorageURI opts)) /\
  forall k, In k (map optKey (describedOptions SanitizeExportStorageURI opts))
            <-> k = importOptionTransformOnly \/ In k (map fst opts).
Proof.
  intros Hnodup. unfold describedOptions. rewrite map_app, optionOf_keys.
  destruct (existsb _ opts) eqn:Hhas.
  - rewrite app_nil_r. split; [exact Hnodup|].
    intros k. split; [intros H; right; exact H|].
    intros [->|H]; [|exact H]. apply existsb_transformOnly. exact Hhas.
  - cbn [map optKey]. split.
    + apply NoDup_app; [exact Hnodup|repeat constructor; intros []|].
      intros k Hin [<-|[]]. apply existsb_transformOnly in Hin. congruence.
    + intros k. rewrite in_app_iff. cbn [In]. split.
      * intros [H|[<-|[]]]; [right; exact H|left; reflexivity].
      * intros [->|H]; [right; left; reflexivity|left; exact H].
Qed.

Lemma describedStatement_Ok (orig : Import) (defs : list TableDef)
    (files files' : list string) (opts : list (string * string)) (stmt : Import)
    (options : list KVOption) :
  JobDescription.describedStatement SanitizeExportStorageURI orig defs files opts
    = Ok (stmt, files', options) ->
  stmt = mkImport (importTable orig) None (Some defs) (FileFormat orig) /\
  Forall2 (fun file clean => SanitizeExportStorageURI file = Ok clean) files files' /\
  options = sortOptions (describedOptions SanitizeExportStorageURI opts) /\
  forall v, In (importOptionTemp, v) opts ->
            exists clean, SanitizeExportStorageURI v = Ok clean.
Proof.
  unfold JobDescription.describedStatement.
  destruct (JobDescription.cleanFiles SanitizeExportStorageURI files) as [cleaned|err]
    eqn:Hfiles; [|discriminate].
  destruct (JobDescription.kvOptions SanitizeExportStorageURI opts [] false)
    as [[made flag]|err] eqn:Hopts; [|discriminate].
  intros [= <- <- <-]. apply cleanFiles_Ok in Hfiles. apply kvOptions_Ok in Hopts.
  destruct Hopts as (-> & -> & Htemp). cbn [app orb].
  split; [reflexivity|]. split; [exact Hfiles|]. split; [|exact Htemp].
  unfold describedOptions. destruct (existsb _ opts); cbn [negb];
    [rewrite app_nil_r|]; reflexivity.
Qed.

Lemma temp_binding_unique (opts : list (string * string)) (k v v' : string) :
  NoDup (map fst opts) -> In (k, v) opts -> In (k, v') opts -> v = v'.
Proof.
  induction opts as [|[k0 v0] opts IH]; intros Hnodup Hv Hv'; [contradiction|].
  cbn [map fst] in Hnodup. inversion Hnodup as [|? ? Hnotin Hrest]; subst.
  assert (Hkey : forall w, In (k, w) opts -> In k (map fst opts)).
  { intros w Hw. apply in_map_iff. exists (k, w). split; [reflexivity|exact Hw]. }
  destruct Hv as [Hv|Hv], Hv' as [Hv'|Hv'].
  - congruence.
  - injection Hv as -> _. destruct (Hnotin (Hkey v' Hv')).
  - injection Hv' as -> _. destruct (Hnotin (Hkey v Hv)).
  - exact (IH Hrest Hv Hv').
Qed.

Lemma describedOptions_Permutation (opts opts' : list (string * string)) :
  Permutation opts opts' ->
  Permutation (describedOptions SanitizeExportStorageURI opts)
              (describedOptions SanitizeExportStorageURI opts').
Proof.
  intros Hperm. unfold describedOptions.
  assert (Hhas : existsb (fun kv => String.eqb (fst kv) importOptionTransformOnly) opts
                 = existsb (fun kv => String.eqb (fst kv) importOptionTransformOnly) opts').
  { apply eq_true_iff_eq. rewrite !existsb_transformOnly. split; intros Hin.
    - exact (Permutation_in _ (Permutation_map fst Hperm) Hin).
    - exact (Permutation_in _ (Permutation_sym (Permutation_map fst Hperm)) Hin). }
  rewrite Hhas. apply Permutation_app_tail, Permutation_map, Hperm.
Qed.

(** X21. The description of the job shows no URI as it was given: the files
    it prints are the sanitized ones, the value it prints for [temp] is
    the sanitized one, and the file of the table definition is left
    out. *)
Theorem importJobDescription_sanitizes_uris :
  forall (orig : Import) (defs : list TableDef) (files : list string)
         (opts : list (string * string)) (desc : string),
    JobDescription.importJobDescription SanitizeExportStorageURI AsStringWithFlags
      orig defs files opts = Ok desc ->
    exists stmt files' options,
      desc = AsStringWithFlags stmt files' options /\
      CreateFile stmt = None /\
      Forall2 (fun file clean => SanitizeExportStorageURI file = Ok clean) files files' /\
      forall o, In o options -> optKey o = importOptionTemp ->
        exists v clean,
          In (importOptionTemp, v) opts /\ SanitizeExportStorageURI v = Ok clean /\
          optValue o = Some clean.
Proof.
  intros orig defs files opts desc. unfold JobDescription.importJobDescription.
  destruct (JobDescription.describedStatement _ orig defs files opts)
    as [[[stmt files'] options]|err] eqn:Hstmt; [|discriminate].
  intros [= <-]. apply describedStatement_Ok in Hstmt.
  destruct Hstmt as (-> & Hfiles & -> & Htemp).
  eexists _, files', _. split; [reflexivity|]. split; [reflexivity|].
  split; [exact Hfiles|]. intros o Hin Hkey.
  apply (Permutation_in _ (sortOptions_Permutation _)) in Hin.
  unfold describedOptions in Hin. apply in_app_or in Hin. destruct Hin as [Hin|Hin].
  - apply in_map_iff in Hin. destruct Hin as ([k v] & <- & Hin).
    cbn [optionOf optKey fst] in Hkey. subst k.
    destruct (Htemp v Hin) as (clean & Hclean). exists v, clean.
    split; [exact Hin|]. split; [exact Hclean|].
    unfold optionOf. cbn [fst snd optValue]. rewrite Hclean. reflexivity.
  - destruct (existsb _ opts); [contradiction|]. destruct Hin as [<-|[]].
    discriminate Hkey.
Qed.

(** X22. The options that the description prints, for a map of options: they
    come in the strict order of their keys, their keys are those of the
    map and transform_only, which is there whether the map has it or
    not, and an option has a value exactly when its key is one that
    expects a value. *)
Theorem importJobDescription_options :
  forall (orig : Import) (defs : list TableDef) (files : list string)
         (opts : list (string * string)) (desc : string),
    NoDup (map fst opts) ->
    JobDescription.importJobDescription SanitizeExportStorageURI AsStringWithFlags
      orig defs files opts = Ok desc ->
    exists stmt files' options,
      desc = AsStringWithFlags stmt files' options /\
      optionsSorted options /\
      (forall k, In k (map optKey options)
                 <-> k = importOptionTransformOnly \/ In k (map fst opts)) /\
      Forall (fun o => optValue o <> None <-> importOptionExpectValues (optKey o) = true)
             options.
Proof.
  intros orig defs files opts desc Hnodup. unfold JobDescription.importJobDescription.
  destruct (JobDescription.describedStatement _ orig defs files opts)
    as [[[stmt files'] options]|err] eqn:Hstmt; [|discriminate].
  intros [= <-]. apply describedStatement_Ok in Hstmt.
  destruct Hstmt as (-> & _ & -> & _).
  destruct (describedOptions_keys opts Hnodup) as (Hkeys & Hin).
  eexists _, files', _. split; [reflexivity|].
  split; [exact (sortOptions_sorted _ Hkeys)|]. split.
  - intros k. rewrite <- Hin. split; intros H.
    + exact (Permutation_in _ (Permutation_map optKey (sortOptions_Permutation _)) H).
    + exact (Permutation_in _ (Permutation_sym
                                 (Permutation_map optKey (sortOptions_Permutation _))) H).
  - apply Forall_forall. intros o Ho.
    apply (Permutation_in _ (sortOptions_Permutation _)) in Ho.
    unfold describedOptions in Ho. apply in_app_or in Ho. destruct Ho as [Ho|Ho].
    + apply in_map_iff in Ho. destruct Ho as ([k v] & <- & _).
      unfold optionOf. cbn [fst snd optKey optValue].
      destruct (importOptionExpectValues k); split; congruence.
    + destruct (existsb _ opts); [contradiction|]. destruct Ho as [<-|[]].
      cbn [optKey optValue]. split; [congruence|discriminate].
Qed.

(** X23. The description does not depend on the order in which the loop meets
    the bindings of the map of options, which Go leaves open. *)
Theorem importJobDescription_order_independent :
  forall (orig : Import) (defs : list TableDef) (files : list string)
         (opts opts' : list (string * string)),
    NoDup (map fst opts) -> Permutation opts opts' ->
    JobDescription.importJobDescription SanitizeExportStorageURI AsStringWithFlags
      orig defs files opts
    = JobDescription.importJobDescription SanitizeExportStorageURI AsStringWithFlags
        orig defs files opts'.
Proof.
  intros orig defs files opts opts' Hnodup Hperm.
  assert (Hnodup' : NoDup (map fst opts'))
    by exact (Permutation_NoDup (Permutation_map fst Hperm) Hnodup).
  unfold JobDescription.importJobDescription, JobDescription.describedStatement.
  destruct (JobDescription.cleanFiles SanitizeExportStorageURI files) as [files'|err];
    [|reflexivity].
  destruct (JobDescription.kvOptions SanitizeExportStorageURI opts [] false)
    as [[made flag]|err] eqn:Hopts,
     (JobDescription.kvOptions SanitizeExportStorageURI opts' [] false)
    as [[made' flag']|err'] eqn:Hopts'.
  - apply kvOptions_Ok in Hopts, Hopts'.
    destruct Hopts as (-> & -> & _), Hopts' as (-> & -> & _). cbn [app orb].
    assert (Hsame : forall o : list (string * string),
               (if negb (existsb (fun kv => String.eqb (fst kv) importOptionTransformOnly) o)
                then map (optionOf SanitizeExportStorageURI) o
                     ++ [mkKVOption importOptionTransformOnly None]
                else map (optionOf SanitizeExportStorageURI) o)
               = describedOptions SanitizeExportStorageURI o).
    { intros o. unfold describedOptions. destruct (existsb _ o); cbn [negb];
        [rewrite app_nil_r|]; reflexivity. }
    rewrite !Hsame.
    rewrite (optionsSorted_unique
               (sortOptions (describedOptions SanitizeExportStorageURI opts))
               (sortOptions (describedOptions SanitizeExportStorageURI opts')));
      [reflexivity| | |].
    + apply sortOptions_sorted, describedOptions_keys, Hnodup.
    + apply sortOptions_sorted, describedOptions_keys, Hnodup'.
    + rewrite !sortOptions_Permutation. apply describedOptions_Permutation, Hperm.
  - exfalso. apply kvOptions_Ok in Hopts. destruct Hopts as (_ & _ & Htemp).
    apply kvOptions_Err in Hopts'. destruct Hopts' as (v & Hin & Herr).
    apply (Permutation_in _ (Permutation_sym Hperm)) in Hin.
    destruct (Htemp v Hin) as (clean & Hclean). congruence.
  - exfalso. apply kvOptions_Ok in Hopts'. destruct Hopts' as (_ & _ & Htemp).
    apply kvOptions_Err in Hopts. destruct Hopts as (v & Hin & Herr).
    apply (Permutation_in _ Hperm) in Hin.
    destruct (Htemp v Hin) as (clean & Hclean). congruence.
  - apply kvOptions_Err in Hopts, Hopts'.
    destruct Hopts as (v & Hin & Herr), Hopts' as (v' & Hin' & Herr').
    apply (Permutation_in _ (Permutation_sym Hperm)) in Hin'.
    rewrite (temp_binding_unique opts _ v v' Hnodup Hin Hin') in Herr. congruence.
Qed.

End JobDescriptions.

(** ** Further properties of the converter *)

Lemma setDatum_app (pre old : list rowDatum) (x d : rowDatum) :
  setDatum (pre ++ x :: old) (List.length pre) d = Some (pre ++ d :: old).
Proof.
  induction pre as [|p pre IH]; [reflexivity|].
  cbn [app List.length setDatum]. rewrite IH. reflexivity.
Qed.

Lemma setDatum_out (datums : list rowDatum) (i : nat) (d : rowDatum) :
  (List.length datums <= i)%nat -> setDatum datums i d = None.
Proof.
  revert i. induction datums as [|x datums IH]; intros i Hi; [reflexivity|].
  destruct i as [|i]; [cbn in Hi; lia|].
  cbn [setDatum]. rewrite IH; [reflexivity|cbn in Hi; lia].
Qed.

Lemma nth_error_middle {A : Type} (pre post : list A) (x : A) :
  nth_error (pre ++ x :: post) (List.length pre) = Some x.
Proof.
  induction pre as [|p pre IH]; [reflexivity|exact IH].
Qed.

Section Converter.

Variable fmt_q : string -> string.
Variable MakeRowInserter : TableDescriptor -> option error.
Variable ProcessDefaultColumns : TableDescriptor -> option error.
Variable ParseStringAs : ColumnDescriptor -> string -> result Datum.
Variable SQLString : ColumnDescriptor -> string.
Variable GenerateInsertRow : TableDescriptor -> list rowDatum -> result (list rowDatum).
Variable InsertRow : TableDescriptor -> list rowDatum -> list KeyValue * option error.
Variable converterCtx : Context.

(** One turn of the loop over the fields, at a field that has a column:
    the datum is stored and the loop goes on. *)
Lemma convertFields_step (nullif : option string) (tableDesc : TableDescriptor)
    (record : csvRecord) (field : string) (rest : list string)
    (colsPre colsRest : list ColumnDescriptor) (col : ColumnDescriptor)
    (pre old : list rowDatum) (x : rowDatum) :
  VisibleColumns tableDesc = colsPre ++ col :: colsRest ->
  List.length pre = List.length colsPre ->
  convertFields fmt_q ParseStringAs SQLString nullif tableDesc record (field :: rest)
    (List.length pre) (pre ++ x :: old)
  = if isNull nullif field
    then convertFields fmt_q ParseStringAs SQLString nullif tableDesc record rest
           (List.length (pre ++ [DNull])) ((pre ++ [DNull]) ++ old)
    else match ParseStringAs col field with
         | Err err =>
             Returned
               (Err (errWrap err
                       (file record ++ ": row " ++ fmt_d (row record) ++ ": parse "
                        ++ fmt_q (colName col) ++ " as " ++ SQLString col)%string))
         | Ok d =>
             convertFields fmt_q ParseStringAs SQLString nullif tableDesc record rest
               (List.length (pre ++ [parsed d])) ((pre ++ [parsed d]) ++ old)
         end.
Proof.
  intros Hvis Hpre.
  assert (Hcol : nth_error (VisibleColumns tableDesc) (List.length pre) = Some col).
  { rewrite Hvis, Hpre. apply nth_error_middle. }
  cbn [convertFields]. rewrite Hcol.
  destruct (isNull nullif field); [|destruct (ParseStringAs col field) as [d|err]];
    try reflexivity;
    rewrite setDatum_app, keyDatumInRange_true, length_app, Nat.add_1_r,
      <- app_assoc; reflexivity.
Qed.

(** A record whose fields all give a datum, each for its own column:
    the datums are those of the fields. *)
Lemma convertFields_Ok (nullif : option string) (tableDesc : TableDescriptor)
    (record : csvRecord) :
  forall (fields : list string) (colsRest colsPre : list ColumnDescriptor)
         (pre old ds : list rowDatum),
    VisibleColumns tableDesc = colsPre ++ colsRest ->
    List.length pre = List.length colsPre ->
    List.length old = List.length colsRest ->
    recordDatums ParseStringAs nullif colsRest fields = Some ds ->
    convertFields fmt_q ParseStringAs SQLString nullif tableDesc record fields
      (List.length pre) (pre ++ old)
    = Returned (Ok (pre ++ ds)).
Proof.
  induction fields as [|field fields IH];
    intros [|col colsRest] colsPre pre old ds Hvis Hpre Hold Hds;
    cbn [recordDatums] in Hds; try discriminate.
  - injection Hds as <-. destruct old; [reflexivity|discriminate].
  - destruct old as [|x old]; [discriminate|].
    rewrite (convertFields_step _ _ _ _ _ colsPre colsRest col) by assumption.
    assert (Hvis' : VisibleColumns tableDesc = (colsPre ++ [col]) ++ colsRest)
      by (rewrite <- app_assoc; exact Hvis).
    assert (Hlen : forall d, List.length (pre ++ [d]) = List.length (colsPre ++ [col]))
      by (intros d; rewrite !length_app, Hpre; reflexivity).
    injection Hold as Hold.
    destruct (isNull nullif field).
    + destruct (recordDatums ParseStringAs nullif colsRest fields) as [ds'|] eqn:Hrest;
        [|discriminate].
      injection Hds as <-.
      rewrite (IH colsRest (colsPre ++ [col]) (pre ++ [DNull]) old ds') by auto.
      rewrite <- app_assoc. reflexivity.
    + destruct (ParseStringAs col field) as [d|err]; [|discriminate].
      destruct (recordDatums ParseStringAs nullif colsRest fields) as [ds'|] eqn:Hrest;
        [|discriminate].
      injection Hds as <-.
      rewrite (IH colsRest (colsPre ++ [col]) (pre ++ [parsed d]) old ds') by auto.
      rewrite <- app_assoc. reflexivity.
Qed.

(** The first field that does not parse stops the record, with an error
    that names the file, the row and the column. *)
Lemma convertFields_parse_error (nullif : option string) (tableDesc : TableDescriptor)
    (record : csvRecord) (bad : string) (more : list string)
    (col : ColumnDescriptor) (colsAfter : list ColumnDescriptor) (err : error) :
  isNull nullif bad = false -> ParseStringAs col bad = Err err ->
  forall (good : list string) (colsGood colsPre : list ColumnDescriptor)
         (pre old ds : list rowDatum),
    VisibleColumns tableDesc = colsPre ++ colsGood ++ col :: colsAfter ->
    List.length pre = List.length colsPre ->
    List.length old = List.length (colsGood ++ col :: colsAfter) ->
    recordDatums ParseStringAs nullif colsGood good = Some ds ->
    convertFields fmt_q ParseStringAs SQLString nullif tableDesc record
      (good ++ bad :: more) (List.length pre) (pre ++ old)
    = Returned
        (Err (errWrap err
                (file record ++ ": row " ++ fmt_d (row record) ++ ": parse "
                 ++ fmt_q (colName col) ++ " as " ++ SQLString col)%string)).
Proof.
  intros Hnull Hparse.
  induction good as [|field good IH];
    intros [|c colsGood] colsPre pre old ds Hvis Hpre Hold Hds;
    cbn [recordDatums] in Hds; try discriminate.
  - destruct old as [|x old]; [discriminate|]. cbn [app] in *.
    rewrite (convertFields_step _ _ _ _ _ colsPre colsAfter col) by assumption.
    rewrite Hnull, Hparse. reflexivity.
  - destruct old as [|x old]; [discriminate|]. cbn [app] in *.
    rewrite (convertFields_step _ _ _ _ _ colsPre (colsGood ++ col :: colsAfter) c)
      by assumption.
    assert (Hvis' : VisibleColumns tableDesc
                    = (colsPre ++ [c]) ++ colsGood ++ col :: colsAfter)
      by (rewrite <- app_assoc; exact Hvis).
    assert (Hlen : forall d, List.length (pre ++ [d]) = List.length (colsPre ++ [c]))
      by (intros d; rewrite !length_app, Hpre; reflexivity).
    injection Hold as Hold.
    destruct (isNull nullif field).
    + destruct (recordDatums ParseStringAs nullif colsGood good) as [ds'|] eqn:Hrest;
        [|discriminate].
      apply (IH colsGood (colsPre ++ [c]) (pre ++ [DNull]) old ds'); auto.
    + destruct (ParseStringAs c field) as [d|e]; [|discriminate].
      destruct (recordDatums ParseStringAs nullif colsGood good) as [ds'|] eqn:Hrest;
        [|discriminate].
      apply (IH colsGood (colsPre ++ [c]) (pre ++ [parsed d]) old ds'); auto.
Qed.

(** A record with no more fields than the table has visible columns does
    not make the loop over its fields panic, and leaves the slice of
    datums at its length. *)
Lemma convertFields_returns (nullif : option string) (tableDesc : TableDescriptor)
    (record : csvRecord) :
  forall (fields : list string) (colsRest colsPre : list ColumnDescriptor)
         (pre old : list rowDatum),
    VisibleColumns tableDesc = colsPre ++ colsRest ->
    List.length pre = List.length colsPre ->
    List.length old = List.length colsRest ->
    (List.length fields <= List.length colsRest)%nat ->
    exists res,
      convertFields fmt_q ParseStringAs SQLString nullif tableDesc record fields
        (List.length pre) (pre ++ old) = Returned res /\
      forall datums', res = Ok datums' ->
                      List.length datums' = List.length (pre ++ old).
Proof.
  induction fields as [|field fields IH];
    intros colsRest colsPre pre old Hvis Hpre Hold Hfields.
  - eexists. split; [reflexivity|]. intros datums' [= <-]. reflexivity.
  - destruct colsRest as [|col colsRest]; [cbn in Hfields; lia|].
    destruct old as [|x old]; [discriminate|].
    rewrite (convertFields_step _ _ _ _ _ colsPre colsRest col) by assumption.
    assert (Hvis' : VisibleColumns tableDesc = (colsPre ++ [col]) ++ colsRest)
      by (rewrite <- app_assoc; exact Hvis).
    assert (Hlen : forall d, List.length (pre ++ [d]) = List.length (colsPre ++ [col]))
      by (intros d; rewrite !length_app, Hpre; reflexivity).
    assert (Hsame : forall d, List.length ((pre ++ [d]) ++ old)
                              = List.length (pre ++ x :: old))
      by (intros d; rewrite <- app_assoc; rewrite !length_app; reflexivity).
    injection Hold as Hold. cbn [List.length] in Hfields.
    assert (Hfields' : (List.length fields <= List.length colsRest)%nat) by lia.
    destruct (isNull nullif field).
    + destruct (IH colsRest (colsPre ++ [col]) (pre ++ [DNull]) old
                  Hvis' (Hlen _) Hold Hfields') as (res & Hres & Hres').
      exists res. split; [exact Hres|]. intros datums' H.
      rewrite (Hres' _ H). apply Hsame.
    + destruct (ParseStringAs col field) as [d|err].
      * destruct (IH colsRest (colsPre ++ [col]) (pre ++ [parsed d]) old
                    Hvis' (Hlen _) Hold Hfields') as (res & Hres & Hres').
        exists res. split; [exact Hres|]. intros datums' H.
        rewrite (Hres' _ H). apply Hsame.
      * eexists. split; [reflexivity|]. discriminate.
Qed.

(** A field beyond the last visible column makes the loop panic: the
    index is out of the range of the datums and of the columns. *)
Lemma convertFields_beyond (nullif : option string) (tableDesc : TableDescriptor)
    (record : csvRecord) (extra : string) (more : list string) :
  forall (good : list string) (colsRest colsPre : list ColumnDescriptor)
         (pre old ds : list rowDatum),
    VisibleColumns tableDesc = colsPre ++ colsRest ->
    List.length pre = List.length colsPre ->
    List.length old = List.length colsRest ->
    recordDatums ParseStringAs nullif colsRest good = Some ds ->
    convertFields fmt_q ParseStringAs SQLString nullif tableDesc record
      (good ++ extra :: more) (List.length pre) (pre ++ old)
    = Panicked.
Proof.
  induction good as [|field good IH];
    intros [|col colsRest] colsPre pre old ds Hvis Hpre Hold Hds;
    cbn [recordDatums] in Hds; try discriminate.
  - destruct old; [|discriminate]. rewrite app_nil_r in *.
    cbn [app convertFields].
    rewrite setDatum_out by lia.
    assert (Hnone : nth_error (VisibleColumns tableDesc) (List.length pre) = None)
      by (apply nth_error_None; rewrite Hvis, Hpre; lia).
    rewrite Hnone. destruct (isNull nullif extra); reflexivity.
  - destruct old as [|x old]; [discriminate|]. cbn [app].
    rewrite (convertFields_step _ _ _ _ _ colsPre colsRest col) by assumption.
    assert (Hvis' : VisibleColumns tableDesc = (colsPre ++ [col]) ++ colsRest)
      by (rewrite <- app_assoc; exact Hvis).
    assert (Hlen : forall d, List.length (pre ++ [d]) = List.length (colsPre ++ [col]))
      by (intros d; rewrite !length_app, Hpre; reflexivity).
    injection Hold as Hold.
    destruct (isNull nullif field).
    + destruct (recordDatums ParseStringAs nullif colsRest good) as [ds'|] eqn:Hrest;
        [|discriminate].
      apply (IH colsRest (colsPre ++ [col]) (pre ++ [DNull]) old ds'); auto.
    + destruct (ParseStringAs col field) as [d|e]; [|discriminate].
      destruct (recordDatums ParseStringAs nullif colsRest good) as [ds'|] eqn:Hrest;
        [|discriminate].
      apply (IH colsRest (colsPre ++ [col]) (pre ++ [parsed d]) old ds'); auto.
Qed.

(** Under a context that is never done every KV of a row is sent. *)
Lemma putKVs_sent (kvs : list KeyValue) :
  (forall n, converterCtx n = None) ->
  forall (insertErr : option error) (s : converterState),
    putKVs converterCtx kvs insertErr s
    = (insertErr,
       mkConverterState (kvCh s ++ kvs) (converterPolls s + List.length kvs)).
Proof.
  intros Hctx. induction kvs as [|kv kvs IH]; intros insertErr s.
  - cbn [putKVs List.length]. rewrite app_nil_r, Nat.add_0_r. destruct s; reflexivity.
  - cbn [putKVs]. rewrite Hctx, IH. cbn [kvCh converterPolls List.length].
    rewrite <- app_assoc, Nat.add_succ_r. reflexivity.
Qed.

Lemma recordDatums_length (nullif : option string) :
  forall (cols : list ColumnDescriptor) (fields : list string) (ds : list rowDatum),
    recordDatums ParseStringAs nullif cols fields = Some ds ->
    List.length ds = List.length cols /\ List.length fields = List.length cols.
Proof.
  induction cols as [|col cols IH]; intros [|field fields] ds H;
    cbn [recordDatums] in H; try discriminate.
  - injection H as <-. split; reflexivity.
  - destruct (if isNull nullif field then Ok DNull
              else match ParseStringAs col field with
                   | Ok d => Ok (parsed d)
                   | Err err => Err err
                   end) as [d|e]; [|discriminate].
    destruct (recordDatums ParseStringAs nullif cols fields) as [ds'|] eqn:Hrest;
      [|discriminate].
    injection H as <-. destruct (IH _ _ Hrest) as [H1 H2].
    cbn [List.length]. split; congruence.
Qed.

(** What a record that converts leaves: its KVs sent, and its datums in
    the slice. *)
Lemma recordKVs_Some (nullif : option string) (tableDesc : TableDescriptor)
    (record : csvRecord) :
  recordKVs ParseStringAs GenerateInsertRow InsertRow nullif tableDesc record <> None ->
  exists ds insertRow kvs,
    recordDatums ParseStringAs nullif (VisibleColumns tableDesc) (r record) = Some ds /\
    GenerateInsertRow tableDesc ds = Ok insertRow /\
    InsertRow tableDesc insertRow = (kvs, None) /\
    recordKVs ParseStringAs GenerateInsertRow InsertRow nullif tableDesc record
      = Some kvs.
Proof.
  unfold recordKVs.
  destruct (recordDatums ParseStringAs nullif _ (r record)) as [ds|]; [|congruence].
  destruct (GenerateInsertRow tableDesc ds) as [insertRow|e] eqn:Hgen; [|congruence].
  destruct (InsertRow tableDesc insertRow) as [kvs [e|]] eqn:Hins; [congruence|].
  intros _. exists ds, insertRow, kvs. rewrite Hgen, Hins. repeat split; reflexivity.
Qed.

(** The records that convert, under a context that is never done: their
    KVs are sent, in order, and the loop is at the record after them. *)
Lemma convertRows_converted (nullif : option string) (tableDesc : TableDescriptor)
    (rest : list csvRecord) :
  (forall n, converterCtx n = None) ->
  forall (records : list csvRecord) (datums : list rowDatum) (s : converterState),
    List.length datums = List.length (VisibleColumns tableDesc) ->
    Forall (fun record =>
              recordKVs ParseStringAs GenerateInsertRow InsertRow nullif tableDesc
                record <> None) records ->
    exists datums' polls,
      List.length datums' = List.length (VisibleColumns tableDesc) /\
      convertRows fmt_q ParseStringAs SQLString GenerateInsertRow InsertRow
        converterCtx nullif tableDesc (records ++ rest) datums s
      = convertRows fmt_q ParseStringAs SQLString GenerateInsertRow InsertRow
          converterCtx nullif tableDesc rest datums'
          (mkConverterState
             (kvCh s ++ recordsKVs ParseStringAs GenerateInsertRow InsertRow nullif
                          tableDesc records)
             polls).
Proof.
  intros Hctx. induction records as [|record records IH]; intros datums s Hlen Hall.
  - exists datums, (converterPolls s). split; [exact Hlen|].
    cbn [app recordsKVs flat_map]. rewrite app_nil_r. destruct s; reflexivity.
  - inversion Hall as [|? ? Hrecord Hrecords]; subst.
    destruct (recordKVs_Some _ _ _ Hrecord) as (ds & insertRow & kvs & Hds & Hgen & Hins & Hkvs).
    cbn [app convertRows].
    pose proof (convertFields_Ok nullif tableDesc record (r record)
                  (VisibleColumns tableDesc) [] [] datums ds eq_refl eq_refl Hlen Hds)
      as Hfields.
    cbn [app List.length] in Hfields. rewrite Hfields, Hgen, Hins, (putKVs_sent kvs Hctx).
    destruct (recordDatums_length _ _ _ _ Hds) as [Hlen' _].
    destruct (IH ds (mkConverterState (kvCh s ++ kvs)
                       (converterPolls s + List.length kvs)) Hlen' Hrecords)
      as (datums' & polls & Hdatums' & Hrun).
    exists datums', polls. split; [exact Hdatums'|].
    rewrite Hrun. cbn [kvCh recordsKVs flat_map]. rewrite Hkvs, <- app_assoc.
    reflexivity.
Qed.

(** Records with no more fields than the table has visible columns never
    make the loop panic. *)
Lemma convertRows_returns (nullif : option string) (tableDesc : TableDescriptor) :
  forall (records : list csvRecord) (datums : list rowDatum) (s : converterState),
    List.length datums = List.length (VisibleColumns tableDesc) ->
    Forall (fun record =>
              (List.length (r record) <= List.length (VisibleColumns tableDesc))%nat)
           records ->
    fst (convertRows fmt_q ParseStringAs SQLString GenerateInsertRow InsertRow
           converterCtx nullif tableDesc records datums s) <> Panicked.
Proof.
  induction records as [|record records IH]; intros datums s Hlen Hall;
    [discriminate|].
  inversion Hall as [|? ? Hrecord Hrecords]; subst.
  cbn [convertRows].
  destruct (convertFields_returns nullif tableDesc record (r record)
              (VisibleColumns tableDesc) [] [] datums eq_refl eq_refl Hlen Hrecord)
    as (res & Hres & Hkeeps).
  cbn [app List.length] in Hres, Hkeeps. rewrite Hres.
  destruct res as [datums'|err]; [|discriminate].
  destruct (GenerateInsertRow tableDesc datums') as [insertRow|err]; [|discriminate].
  destruct (InsertRow tableDesc insertRow) as [kvs err].
  destruct (putKVs converterCtx kvs None s) as [insertErr s'].
  destruct err as [err|]; [discriminate|].
  destruct insertErr as [err|]; [discriminate|].
  apply IH; [|exact Hrecords]. rewrite (Hkeeps _ eq_refl). exact Hlen.
Qed.

(** X24. Under a context that is never done, records that all convert (every
    field null or parsed as the type of its column, the row generated and
    inserted without error) make convertRecord return no error, after it
    has sent the KVs of every record, record after record, in the order
    in which the inserter gave them. *)
Theorem convertRecord_sends_the_kvs_of_every_record :
  forall (nullif : option string) (tableDesc : TableDescriptor)
         (records : list csvRecord) (kvCh0 : list KeyValue),
    (forall n, converterCtx n = None) ->
    MakeRowInserter tableDesc = None ->
    ProcessDefaultColumns tableDesc = None ->
    Forall (fun record =>
              recordKVs ParseStringAs GenerateInsertRow InsertRow nullif tableDesc
                record <> None) records ->
    let '(res, s) :=
      convertRecord fmt_q MakeRowInserter ProcessDefaultColumns ParseStringAs SQLString
        GenerateInsertRow InsertRow converterCtx nullif tableDesc records kvCh0 in
    res = Returned None /\
    kvCh s = kvCh0 ++ recordsKVs ParseStringAs GenerateInsertRow InsertRow nullif
                        tableDesc records.
Proof.
  intros nullif tableDesc records kvCh0 Hctx Hri Hdefaults Hall.
  unfold convertRecord. rewrite Hri, Hdefaults.
  destruct (convertRows_converted nullif tableDesc [] Hctx records
              (repeat nilDatum (List.length (VisibleColumns tableDesc)))
              (mkConverterState kvCh0 0) (repeat_length _ _) Hall)
    as (datums' & polls & _ & Hrun).
  rewrite app_nil_r in Hrun. rewrite Hrun. cbn [convertRows kvCh].
  split; reflexivity.
Qed.

(** X25. The first field that does not parse as the type of its column makes
    convertRecord return the parser's error wrapped with the name of the
    file, the number of the row and the name and the type of the column;
    the KVs of the records before it have been sent, and nothing of this
    record or of a later one. *)
Theorem convertRecord_parse_error_names_file_row_and_column :
  forall (nullif : option string) (tableDesc : TableDescriptor)
         (before : list csvRecord) (record : csvRecord) (rest : list csvRecord)
         (good : list string) (bad : string) (more : list string)
         (colsGood : list ColumnDescriptor) (col : ColumnDescriptor)
         (colsAfter : list ColumnDescriptor) (err : error) (kvCh0 : list KeyValue),
    (forall n, converterCtx n = None) ->
    MakeRowInserter tableDesc = None ->
    ProcessDefaultColumns tableDesc = None ->
    Forall (fun record =>
              recordKVs ParseStringAs GenerateInsertRow InsertRow nullif tableDesc
                record <> None) before ->
    r record = good ++ bad :: more ->
    VisibleColumns tableDesc = colsGood ++ col :: colsAfter ->
    recordDatums ParseStringAs nullif colsGood good <> None ->
    isNull nullif bad = false ->
    ParseStringAs col bad = Err err ->
    let '(res, s) :=
      convertRecord fmt_q MakeRowInserter ProcessDefaultColumns ParseStringAs SQLString
        GenerateInsertRow InsertRow converterCtx nullif tableDesc
        (before ++ record :: rest) kvCh0 in
    res = Returned
            (Some (errWrap err
                     (file record ++ ": row " ++ fmt_d (row record) ++ ": parse "
                      ++ fmt_q (colName col) ++ " as " ++ SQLString col)%string)) /\
    kvCh s = kvCh0 ++ recordsKVs ParseStringAs GenerateInsertRow InsertRow nullif
                        tableDesc before.
Proof.
  intros nullif tableDesc before record rest good bad more colsGood col colsAfter
         err kvCh0 Hctx Hri Hdefaults Hall Hfields Hvis Hgood Hnull Hparse.
  unfold convertRecord. rewrite Hri, Hdefaults.
  destruct (convertRows_converted nullif tableDesc (record :: rest) Hctx before
              (repeat nilDatum (List.length (VisibleColumns tableDesc)))
              (mkConverterState kvCh0 0) (repeat_length _ _) Hall)
    as (datums' & polls & Hlen & Hrun).
  rewrite Hrun. cbn [convertRows kvCh].
  destruct (recordDatums ParseStringAs nullif colsGood good) as [ds|] eqn:Hds;
    [|congruence].
  assert (Hold : List.length datums' = List.length (colsGood ++ col :: colsAfter))
    by (rewrite Hlen, Hvis; reflexivity).
  pose proof (convertFields_parse_error nullif tableDesc record bad more col colsAfter
                err Hnull Hparse good colsGood [] [] datums' ds Hvis eq_refl Hold Hds)
    as Hstop.
  cbn [app List.length] in Hstop. rewrite Hfields, Hstop.
  split; reflexivity.
Qed.

(** X26. convertRecord relies on the reader for the width of the records: a
    record with more fields than the table has visible columns, reached
    after records that convert, makes it panic on an index out of range
    instead of returning an error. *)
Theorem convertRecord_panics_on_wide_record :
  forall (nullif : option string) (tableDesc : TableDescriptor)
         (before : list csvRecord) (record : csvRecord) (rest : list csvRecord)
         (good : list string) (extra : string) (more : list string)
         (kvCh0 : list KeyValue),
    (forall n, converterCtx n = None) ->
    MakeRowInserter tableDesc = None ->
    ProcessDefaultColumns tableDesc = None ->
    Forall (fun record =>
              recordKVs ParseStringAs GenerateInsertRow InsertRow nullif tableDesc
                record <> None) before ->
    r record = good ++ extra :: more ->
    recordDatums ParseStringAs nullif (VisibleColumns tableDesc) good <> None ->
    fst (convertRecord fmt_q MakeRowInserter ProcessDefaultColumns ParseStringAs
           SQLString GenerateInsertRow InsertRow converterCtx nullif tableDesc
           (before ++ record :: rest) kvCh0)
    = Panicked.
Proof.
  intros nullif tableDesc before record rest good extra more kvCh0
         Hctx Hri Hdefaults Hall Hfields Hgood.
  unfold convertRecord. rewrite Hri, Hdefaults.
  destruct (convertRows_converted nullif tableDesc (record :: rest) Hctx before
              (repeat nilDatum (List.length (VisibleColumns tableDesc)))
              (mkConverterState kvCh0 0) (repeat_length _ _) Hall)
    as (datums' & polls & Hlen & Hrun).
  rewrite Hrun. cbn [convertRows].
  destruct (recordDatums ParseStringAs nullif (VisibleColumns tableDesc) good)
    as [ds|] eqn:Hds; [|congruence].
  pose proof (convertFields_beyond nullif tableDesc record extra more good
                (VisibleColumns tableDesc) [] [] datums' ds eq_refl eq_refl Hlen Hds)
    as Hpanic.
  cbn [app List.length] in Hpanic. rewrite Hfields, Hpanic.
  reflexivity.
Qed.

Section ReaderAndConverter.

Variable openCSV : string -> Z -> Z -> result (list (result (list string))).
Variable readerCtx : Context.

(** X27. On the records that readCSV sends for the number of visible columns
    of the table, whatever the files hold and however readCSV ends,
    convertRecord does not panic: it returns, with an error or without. *)
Theorem convertRecord_returns_on_the_records_of_readCSV :
  forall (comma comment : Z) (dataFiles : list string) (nullif : option string)
         (tableDesc : TableDescriptor) (kvCh0 : list KeyValue),
    let '(n, err, s) :=
      readCSV openCSV readerCtx comma comment (len (VisibleColumns tableDesc))
        dataFiles [] in
    fst (convertRecord fmt_q MakeRowInserter ProcessDefaultColumns ParseStringAs
           SQLString GenerateInsertRow InsertRow converterCtx nullif tableDesc
           (recordCh s) kvCh0)
    <> Panicked.
Proof.
  intros comma comment dataFiles nullif tableDesc kvCh0.
  assert (Hsent : forall res s,
             readFiles openCSV readerCtx (if comma =? 0 then 44 else comma) comment
               (len (VisibleColumns tableDesc)) dataFiles (mkReaderState [] 0 0)
             = (res, s) ->
             fst (convertRecord fmt_q MakeRowInserter ProcessDefaultColumns
                    ParseStringAs SQLString GenerateInsertRow InsertRow converterCtx
                    nullif tableDesc (recordCh s) kvCh0)
             <> Panicked).
  { intros res s Hrun. apply readFiles_sent in Hrun.
    destruct Hrun as (sent & Hch & _ & Hwf & _). cbn [recordCh app] in Hch.
    rewrite Hch. unfold convertRecord.
    destruct (MakeRowInserter tableDesc); [discriminate|].
    destruct (ProcessDefaultColumns tableDesc); [discriminate|].
    apply convertRows_returns; [apply repeat_length|].
    eapply Forall_impl; [|exact Hwf].
    intros record (Hwidth & _). unfold len in Hwidth. lia. }
  unfold readCSV.
  destruct (readFiles openCSV readerCtx _ comment _ dataFiles (mkReaderState [] 0 0))
    as [[[]|err] s]; exact (Hsent _ _ eq_refl).
Qed.

End ReaderAndConverter.

End Converter.

(** ** What the duplicate-key errors say *)

Local Open Scope string_scope.


Lemma prefix_app (sub post : string) :
  String.prefix sub (sub ++ post)%string = true.
Proof.
  induction sub as [|a sub IH]; [destruct post; reflexivity|].
  cbn. destruct (ascii_dec a a); [exact IH|congruence].
Qed.

Lemma prefix_app_l (sub m rest : string) :
  String.prefix sub m = true -> String.prefix sub (m ++ rest) = true.
Proof.
  revert m; induction sub as [|a sub IH]; intros m H.
  - destruct (m ++ rest); reflexivity.
  - destruct m as [|b m]; [discriminate|]. cbn in *.
    destruct (ascii_dec a b); [apply IH; exact H|discriminate].
Qed.

Lemma contains_unfold (sub msg : string) :
  contains sub msg =
  (String.prefix sub msg ||
   match msg with EmptyString => false | String _ rest => contains sub rest end)%bool.
Proof. destruct msg; reflexivity. Qed.

Lemma contains_here (sub post : string) : contains sub (sub ++ post) = true.
Proof. rewrite contains_unfold, prefix_app. reflexivity. Qed.

Lemma contains_app_l (sub m rest : string) :
  contains sub m = true -> contains sub (m ++ rest) = true.
Proof.
  induction m as [|b m IH]; intros H;
    rewrite contains_unfold in H; rewrite contains_unfold.
  - rewrite orb_false_r in H. rewrite (prefix_app_l _ _ rest H). reflexivity.
  - apply orb_true_iff in H. destruct H as [H|H].
    + rewrite (prefix_app_l _ _ rest H). reflexivity.
    + cbn [append]. rewrite (IH H). apply orb_true_r.
Qed.

Lemma contains_app_r (sub pre m : string) :
  contains sub m = true -> contains sub (pre ++ m) = true.
Proof.
  intros H. induction pre as [|b pre IH]; [exact H|].
  cbn [append]. rewrite contains_unfold, IH. apply orb_true_r.
Qed.

(** Both errors mention "duplicate" and name the key. *)
Lemma duplicateKeyError_message (fmt_key : bytes -> string) (k : bytes)
    (err : error) :
  duplicateKeyError fmt_key k err ->
  contains "duplicate" (Error err) = true /\
  contains (fmt_key k) (Error err) = true.
Proof.
  intros [->|(cause & ->)]; cbn [Error]; unfold errSSTCreationMaybeDuplicate.
  - split.
    + exact (contains_here "duplicate" (" key: " ++ fmt_key k)).
    + apply contains_app_r. rewrite <- (contains_here (fmt_key k) "") at 1.
      f_equal. induction (fmt_key k) as [|a s IH]; [reflexivity|].
      cbn [append]. rewrite <- IH. reflexivity.
  - split; apply contains_app_l.
    + apply contains_app_r, contains_app_r.
      exact (contains_app_r "duplicate" "; this can happen when a primary or unique index has "
               "duplicate keys" (contains_here "duplicate" " keys")).
    + apply contains_app_r, contains_here.
Qed.

(** ** The model on concrete inputs *)

(** The reader on two files: a first one of two rows, of two fields and
    of two fields and a trailing comma, and a second one whose second row
    has one field. *)
Lemma readCSV_row_validation_witness :
  let before := [("a.csv", [["7"; "70"]; ["8"; "80"; ""]])] in
  let good := [["1"; "10"]] in
  let store := refOpenFiles (before ++ [("b.csv", good ++ [["9"]]); ("c.csv", [])])%list in
  let '(n, err, s) :=
    readCSV store background 0 0 2 (map fst before ++ "b.csv" :: ["c.csv"])%list [] in
  recordCh s
    = ([] ++ recordsOf 2 before ++ numberRows "b.csv" 1 (map (trimRow 2) good))%list /\
  match [Ok ["9"]] with
  | Ok bad :: _ =>
      n = 0 /\
      err = Some (errWrap
                    (errNew ("row " ++ fmt_d (len good + 1) ++ ": expected "
                             ++ fmt_d 2 ++ " fields, got " ++ fmt_d (len bad)))
                    "b.csv")
  | _ => n = len (List.concat (map snd before)) + len good /\ err = None
  end.
Proof.
  apply (readCSV_row_validation
           (refOpenFiles
              ([("a.csv", [["7"; "70"]; ["8"; "80"; ""]])]
               ++ [("b.csv", [["1"; "10"]] ++ [["9"]]); ("c.csv", [])])%list)
           background 0 0 2 [("a.csv", [["7"; "70"]; ["8"; "80"; ""]])] "b.csv"
           [["1"; "10"]] [Ok ["9"]] ["c.csv"] []).
  - intros n. reflexivity.
  - repeat constructor; discriminate.
  - reflexivity.
  - repeat constructor; discriminate.
  - reflexivity.
Defined.

(** The finalizer's state with no segment received. *)
Lemma finalizeCSVBackup_no_files_witness :
  let s := mkBackupState [] (newBackupDescriptor 1000) in
  Files (backupDesc s) = [] /\
  finalizeCSVBackup noWriteErr refTableSpan refMarshal refBackupDescriptorName 1 "v1"
    50 refTableDesc None s
  = (Err (errNew "no files in backup"), s).
Proof.
  split; [reflexivity|].
  apply (finalizeCSVBackup_no_files refChecksum noWriteErr noStorageErr refTableSpan
           refMarshal refBackupDescriptorName 1 "v1" 50 refTableDesc None
           (mkBackupState [] (newBackupDescriptor 1000)) eq_refl).
Defined.



(** Two segments, with the bytes "a" and "b". *)
Lemma makeBackup_names_and_counts_witness :
  let contentCh :=
    [mkSstContent ["a"%byte] 1 (mkSpan (Some ["a"%byte]) ["a"%byte; x00]);
     mkSstContent ["b"%byte] 1 (mkSpan (Some ["b"%byte]) ["b"%byte; x00])] in
  let '(n, err, s) :=
    makeBackup refChecksum noWriteErr noStorageErr refTableSpan refMarshal
      refBackupDescriptorName 1 "v1" 50 refTableDesc "nodelocal:///out" contentCh
      1000 None [] in
  n = len contentCh /\
  n = len (Files (backupDesc s)) /\
  Permutation (Files (backupDesc s))
    (fileEntries 1 contentCh [["a"%byte]; ["b"%byte]]) /\
  exists rest,
    es s = ([] ++ segmentFiles 1 contentCh ++ rest)%list /\
    (err = None ->
     exists descBuf, refMarshal (backupDesc s) = Ok descBuf
                     /\ rest = [(refBackupDescriptorName, descBuf)]) /\
    (err <> None -> rest = []).
Proof.
  apply (makeBackup_names_and_counts refChecksum noWriteErr noStorageErr refTableSpan
           refMarshal refBackupDescriptorName 1 "v1" 50 refTableDesc "nodelocal:///out"
           [mkSstContent ["a"%byte] 1 (mkSpan (Some ["a"%byte]) ["a"%byte; x00]);
            mkSstContent ["b"%byte] 1 (mkSpan (Some ["b"%byte]) ["b"%byte; x00])]
           [["a"%byte]; ["b"%byte]] 1000 None []).
  - reflexivity.
  - repeat constructor.
  - intros written name content _. reflexivity.
Defined.

(** C7 as stated fails: when the destination refuses the second segment,
    the first one has been written under "1.sst" and is in the
    descriptor's file list, and makeBackup returns the count 0. *)
Lemma makeBackup_returns_zero_after_a_write :
  let contentCh :=
    [mkSstContent ["a"%byte] 1 (mkSpan (Some ["a"%byte]) ["a"%byte; x00]);
     mkSstContent ["b"%byte] 1 (mkSpan (Some ["b"%byte]) ["b"%byte; x00])] in
  let '(n, err, s) :=
    makeBackup refChecksum (refuseFile "2.sst") noStorageErr refTableSpan refMarshal
      refBackupDescriptorName 1 "v1" 50 refTableDesc "nodelocal:///out" contentCh
      1000 None [] in
  n = 0 /\ err = Some (errNew "write refused") /\
  es s = [("1.sst", ["a"%byte])] /\
  len (Files (backupDesc s)) = 1 /\
  n <> len (es s) /\ n <> len (Files (backupDesc s)).
Proof. cbv zeta. vm_compute. repeat split; discriminate. Qed.

(** [IMPORT TABLE t (c1 INT PRIMARY KEY, c2 INT) CSV DATA (...) WITH temp =
    ..., transform_only] on three rows. *)
Lemma importFn_transform_only_row_witness :
  let opts := [("temp", "nodelocal:///tmp"); ("transform_only", "")] in
  let importStmt := mkImport "t" None (Some (Defs refCreate)) "CSV" in
  let rows := [["1"; "10"]; ["2"; "20"]; ["3"; "30"]] in
  let resultsCh' :=
    [[DInt 7; DString "succeeded"; DFloat 1%float;
      DInt 0; DInt 0; DInt 0; DInt 0]] in
  lookup opts importOptionTransformOnly <> None /\
  @importFn (refOpenCSV rows) background refMakeTableDesc refQuote
    memSst memSstFileWriter (Ok newMemSst) refKeyString background None None
    refChecksum noWriteErr noStorageErr refTableSpan refMarshal
    refBackupDescriptorName 1 "v1" refConvertRecords 0 49
    refParseStatementAt refDistLoadCSV (1, "cluster") 1000 "" "into_db"
    refGetSingleRune refParseBytes 67108864 refJobDescription 7 None None
    (fun _ => None) refRestorePlan inOrder []
    importStmt (Ok ["nodelocal:///t.csv"]) (Err (errNew "createFileFn is nil"))
    (Ok opts) []
  = (Ok tt, resultsCh') /\
  resultsCh' = ([] ++ resultsCh')%list.
Proof.
  cbv zeta.
  assert (Honly : lookup [("temp", "nodelocal:///tmp"); ("transform_only", "")]
                    importOptionTransformOnly <> None) by discriminate.
  assert (Hrun :
    @importFn (refOpenCSV [["1"; "10"]; ["2"; "20"]; ["3"; "30"]]) background
      refMakeTableDesc refQuote
      memSst memSstFileWriter (Ok newMemSst) refKeyString background None None
      refChecksum noWriteErr noStorageErr refTableSpan refMarshal
      refBackupDescriptorName 1 "v1" refConvertRecords 0 49
      refParseStatementAt refDistLoadCSV (1, "cluster") 1000 "" "into_db"
      refGetSingleRune refParseBytes 67108864 refJobDescription 7 None None
      (fun _ => None) refRestorePlan inOrder []
      (mkImport "t" None (Some (Defs refCreate)) "CSV")
      (Ok ["nodelocal:///t.csv"]) (Err (errNew "createFileFn is nil"))
      (Ok [("temp", "nodelocal:///tmp"); ("transform_only", "")]) []
    = (Ok tt, [[DInt 7; DString "succeeded"; DFloat 1%float;
                DInt 0; DInt 0; DInt 0; DInt 0]])) by (vm_compute; reflexivity).
  split; [exact Honly|]. split; [exact Hrun|].
  eapply importFn_transform_only_row; [reflexivity|exact Honly|exact Hrun].
Defined.

(** C1 at the input of the spec's second scenario: the rows 1, 2, 3 and a
    second row with the primary key 2, in one segment. The sorter fails
    with the duplicate-key error, which names the key and says
    "duplicate", having sent no segment; the finalizer, whose channel is
    closed before the sorter's error reaches the group (the deferred
    close of line 186 runs when the function literal returns), fails with
    "no files in backup"; and the pipeline returns whichever error the
    group was handed first: the sorter's, or the finalizer's, which does
    not name the key (the TODO of lines 187-191). *)
Theorem duplicate_key_error_can_be_swallowed :
  let rows := [["1"; "10"]; ["2"; "20"]; ["3"; "30"]; ["2"; "99"]] in
  let kvCh := fst (refConvertRecords None refTableDesc
                     (numberRows "nodelocal:///t.csv" 1 rows)) in
  let duplicate :=
    errWrap (errNew "Keys must be added in order")
      (errSSTCreationMaybeDuplicate (refKeyString ["2"%byte])) in
  let run order :=
    doLocalCSVTransform (refOpenCSV rows) background (Ok newMemSst) refKeyString
      background None None refChecksum noWriteErr noStorageErr refTableSpan refMarshal
      refBackupDescriptorName 1 "v1" refConvertRecords 0 order 50 refTableDesc
      "nodelocal:///out" ["nodelocal:///t.csv"] 0 0 None 1024 1000 None [] in
  (let '(n, err, s) :=
     writeRocksDB (Ok newMemSst) refKeyString background None None kvCh 1024 [] 1000 0 in
   n = 0 /\ err = Some duplicate /\ contentCh s = []) /\
  contains "duplicate" (Error duplicate) = true /\
  contains (refKeyString ["2"%byte]) (Error duplicate) = true /\
  (let '(n, err, s) :=
     makeBackup refChecksum noWriteErr noStorageErr refTableSpan refMarshal
       refBackupDescriptorName 1 "v1" 50 refTableDesc "nodelocal:///out" []
       1000 None [] in
   err = Some (errNew "no files in backup")) /\
  snd (fst (run inOrder)) = Some duplicate /\
  snd (fst (run finalizerFirst)) = Some (errNew "no files in backup") /\
  contains "duplicate" (Error (errNew "no files in backup")) = false.
Proof. cbv zeta. vm_compute. repeat split. Qed.

(** The sampler on two KVs of two bytes each, with a sample size of 4
    (a ratio of one half) and the draws 0.25 and 0.75: the first KV is
    taken, the second is not. With a sample size of zero both are taken
    and no draw is made; under a context that is done nothing is sent, and
    the context's error is returned. *)
Example sampleStage_on_two_draws :
  let kv1 := mkKeyValue ["a"%byte] (mkValue ["1"%byte] (mkTimestamp 0 0)) in
  let kv2 := mkKeyValue ["b"%byte] (mkValue ["2"%byte] (mkTimestamp 0 0)) in
  let rnd := fun n : nat => match n with O => 0.25%float | _ => 0.75%float end in
  let cancelled : Context := fun _ => Some (errNew "context canceled") in
  sampleStage rnd background 4 [kv1; kv2]
    = (None, mkSamplerState [(["a"%byte], ["1"%byte])] 2 1) /\
  sampleStage rnd background 0 [kv1; kv2]
    = (None, mkSamplerState [(["a"%byte], ["1"%byte]); (["b"%byte], ["2"%byte])] 0 2) /\
  sampleStage rnd cancelled 4 [kv1; kv2]
    = (Some (errNew "context canceled"), mkSamplerState [] 1 1).
Proof. cbv zeta. vm_compute. repeat split. Qed.


(** At [CREATE TABLE orders (id INT PRIMARY KEY, customer INT REFERENCES
    customers, FOREIGN KEY (customer) REFERENCES customers (id))], which
    has none of IF NOT EXISTS, INTERLEAVE and AS, the statement is refused
    for its foreign keys. *)
Example makeCSVTableDescriptor_orders_refused :
  let create :=
    mkCreateTable false "orders" None
      [ColumnTableDef "id" "INT" None None;
       ColumnTableDef "customer" "INT" None (Some "customers");
       ForeignKeyConstraintTableDef "fk" ["customer"] "customers" ["id"]]
      None in
  declaresForeignKey create = true /\
  exists err,
    makeCSVTableDescriptor refMakeTableDesc refQuote create 50 51 0 = Err err /\
    contains "foreign key" (Error err) = true.
Proof.
  cbv zeta. split; [reflexivity|]. eexists. split; reflexivity.
Qed.

(** ** The further properties on concrete inputs *)

(** The second row of the second of three files is too short: the error
    carries the name of this file. *)
Lemma readCSV_errors_name_the_file_witness :
  let store :=
    refOpenFiles [("a.csv", [["7"; "70"]]); ("b.csv", [["1"; "10"]; ["9"]]);
                  ("c.csv", [])] in
  let dataFiles := ["a.csv"; "b.csv"; "c.csv"] in
  let err := errWrap (errNew "row 2: expected 2 fields, got 1") "b.csv" in
  snd (fst (readCSV store background 0 0 2 dataFiles [])) = Some err /\
  ((exists n, background n = Some err)
   \/ (exists dataFile cause, In dataFile dataFiles /\ err = errWrap cause dataFile)).
Proof.
  cbv zeta. split; [reflexivity|].
  apply (readCSV_errors_name_the_file
           (refOpenFiles [("a.csv", [["7"; "70"]]); ("b.csv", [["1"; "10"]; ["9"]]);
                          ("c.csv", [])])
           background 0 0 2 ["a.csv"; "b.csv"; "c.csv"] []).
  reflexivity.
Defined.

(** IMPORT with transform_only and no temp: refused, nothing sent. *)
Lemma importFn_requires_temp_witness :
  let opts := [("transform_only", "")] in
  let importStmt := mkImport "t" None (Some (Defs refCreate)) "CSV" in
  lookup opts importOptionTemp = None /\
  @importFn (refOpenCSV []) background refMakeTableDesc refQuote
    memSst memSstFileWriter (Ok newMemSst) refKeyString background None None
    refChecksum noWriteErr noStorageErr refTableSpan refMarshal
    refBackupDescriptorName 1 "v1" refConvertRecords 0 49
    refParseStatementAt refDistLoadCSV (1, "cluster") 1000 "" "into_db"
    refGetSingleRune refParseBytes 67108864 refJobDescription 7 None None
    (fun _ => None) refRestorePlan inOrder []
    importStmt (Ok ["nodelocal:///t.csv"]) (Err (errNew "createFileFn is nil"))
    (Ok opts) []
  = (Err (errNew "must provide a temporary storage location"), []).
Proof.
  cbv zeta. split; [reflexivity|].
  destruct (@importFn_requires_temp (refOpenCSV []) background refMakeTableDesc refQuote
    memSst memSstFileWriter (Ok newMemSst) refKeyString background None None
    refChecksum noWriteErr noStorageErr refTableSpan refMarshal
    refBackupDescriptorName 1 "v1" refConvertRecords 0 49
    refParseStatementAt refDistLoadCSV (1, "cluster") 1000 "" "into_db"
    refGetSingleRune refParseBytes 67108864 refJobDescription 7 None None
    (fun _ => None) refRestorePlan inOrder []
    (mkImport "t" None (Some (Defs refCreate)) "CSV")
    (Ok ["nodelocal:///t.csv"]) (Err (errNew "createFileFn is nil"))
    [("transform_only", "")] [] eq_refl) as (err & Hrun & Herr).
  rewrite Hrun. rewrite Herr; [reflexivity| | | |].
  - eexists; reflexivity.
  - left; discriminate.
  - intros override H; discriminate H.
  - intros override H; discriminate H.
Defined.

(** IMPORT with a temp, without transform_only, into_db and session
    database. *)
Lemma importFn_requires_target_database_witness :
  let opts := [("temp", "nodelocal:///tmp")] in
  let importStmt := mkImport "t" None (Some (Defs refCreate)) "CSV" in
  lookup opts importOptionTransformOnly = None /\
  lookup opts "into_db" = None /\
  @importFn (refOpenCSV []) background refMakeTableDesc refQuote
    memSst memSstFileWriter (Ok newMemSst) refKeyString background None None
    refChecksum noWriteErr noStorageErr refTableSpan refMarshal
    refBackupDescriptorName 1 "v1" refConvertRecords 0 49
    refParseStatementAt refDistLoadCSV (1, "cluster") 1000 "" "into_db"
    refGetSingleRune refParseBytes 67108864 refJobDescription 7 None None
    (fun _ => None) refRestorePlan inOrder []
    importStmt (Ok ["nodelocal:///t.csv"]) (Err (errNew "createFileFn is nil"))
    (Ok opts) []
  = (Err (errNew ("must specify target database with " ++ refQuote "into_db"
                  ++ " option")), []).
Proof.
  cbv zeta. split; [reflexivity|]. split; [reflexivity|].
  apply (@importFn_requires_target_database (refOpenCSV []) background
    refMakeTableDesc refQuote
    memSst memSstFileWriter (Ok newMemSst) refKeyString background None None
    refChecksum noWriteErr noStorageErr refTableSpan refMarshal
    refBackupDescriptorName 1 "v1" refConvertRecords 0 49
    refParseStatementAt refDistLoadCSV (1, "cluster") 1000 "" "into_db"
    refGetSingleRune refParseBytes 67108864 refJobDescription 7 None None
    (fun _ => None) refRestorePlan inOrder []
    (mkImport "t" None (Some (Defs refCreate)) "CSV")
    ["nodelocal:///t.csv"] (Err (errNew "createFileFn is nil"))
    [("temp", "nodelocal:///tmp")] []); reflexivity.
Defined.

(** The key "a" comes twice. *)
Lemma writeRocksDB_rejects_duplicate_keys_witness :
  let kv := fun (k v : byte) => mkKeyValue [k] (mkValue [v] (mkTimestamp 0 0)) in
  let kvCh := [kv "a" "1"; kv "b" "2"; kv "a" "3"]%byte in
  ~ NoDup (map kvKey kvCh) /\
  let '(n, err, s) :=
    writeRocksDB (Ok newMemSst) refKeyString background None None kvCh 1024 []
      1000 0 in
  n = 0 /\
  exists e k, err = Some e /\ In k (map kvKey kvCh) /\ duplicateKeyError refKeyString k e.
Proof.
  cbv zeta.
  assert (Hdup : ~ NoDup (map kvKey
                    [mkKeyValue ["a"%byte] (mkValue ["1"%byte] (mkTimestamp 0 0));
                     mkKeyValue ["b"%byte] (mkValue ["2"%byte] (mkTimestamp 0 0));
                     mkKeyValue ["a"%byte] (mkValue ["3"%byte] (mkTimestamp 0 0))])).
  { intros H. apply NoDup_cons_iff in H. destruct H as [Hnin _].
    apply Hnin. right; left; reflexivity. }
  split; [exact Hdup|].
  exact (writeRocksDB_rejects_duplicate_keys refKeyString _ 1024 [] 1000 0 Hdup).
Defined.

(** Three keys and a maximum of one byte. *)
Lemma writeRocksDB_spans_in_order_witness :
  let kv := fun (k v : byte) => mkKeyValue [k] (mkValue [v] (mkTimestamp 0 0)) in
  let kvCh := [kv "c" "3"; kv "a" "1"; kv "b" "2"]%byte in
  let run :=
    writeRocksDB (Ok newMemSst) refKeyString background None None kvCh 1 [] 1000 0 in
  (forall sst0, Ok newMemSst = Ok sst0 -> sstDataSize sst0 <= 0) /\
  snd (fst run) = None /\
  map span (contentCh (snd run))
    = [mkSpan (Some ["a"%byte]) ["a"%byte; x00];
       mkSpan (Some ["b"%byte]) ["b"%byte; x00];
       mkSpan (Some ["c"%byte]) ["c"%byte; x00]] /\
  segmentsInOrder (contentCh (snd run)).
Proof.
  cbv zeta.
  assert (Hfresh : forall sst0, Ok newMemSst = Ok sst0 -> sstDataSize sst0 <= 0).
  { intros sst0 H. injection H as <-. apply Z.le_refl. }
  split; [exact Hfresh|]. split; [reflexivity|]. split; [reflexivity|].
  pose proof (writeRocksDB_spans_in_order (Ok newMemSst) refKeyString background None None
                [mkKeyValue ["c"%byte] (mkValue ["3"%byte] (mkTimestamp 0 0));
                 mkKeyValue ["a"%byte] (mkValue ["1"%byte] (mkTimestamp 0 0));
                 mkKeyValue ["b"%byte] (mkValue ["2"%byte] (mkTimestamp 0 0))]
                1 1000 0 Hfresh) as H.
  destruct (writeRocksDB _ _ _ _ _ _ _ _ _ _) as [[n err] s] eqn:Hrun.
  cbn [fst snd]. apply H.
  apply (f_equal (fun r => snd (fst r))) in Hrun. cbn [fst snd] in Hrun.
  rewrite <- Hrun. reflexivity.
Defined.

(** An empty key beside another key. *)
Lemma writeRocksDB_refuses_empty_key_witness :
  let kvCh :=
    [mkKeyValue ["a"%byte] (mkValue ["1"%byte] (mkTimestamp 0 0));
     mkKeyValue [] (mkValue ["2"%byte] (mkTimestamp 0 0))] in
  NoDup (map kvKey kvCh) /\ In [] (map kvKey kvCh) /\
  writeRocksDB (Ok newMemSst) refKeyString background None None kvCh 1024 [] 1000 0
  = (0, Some (errNew ("duplicate key: " ++ refKeyString [])), mkWriterState [] [] 0).
Proof.
  cbv zeta. split; [repeat constructor; cbn; intuition discriminate|].
  split; [right; left; reflexivity|].
  apply (writeRocksDB_refuses_empty_key (Ok newMemSst) refKeyString background None None
           _ 1024 [] 1000 0 newMemSst eq_refl eq_refl eq_refl).
  right; left; reflexivity.
Defined.

(** Two rows of two datums, then a row of one. *)
Lemma sstWriterRun_rejects_wrong_width_witness :
  let good := [(["a"%byte], ["1"%byte]); (["b"%byte], ["2"%byte])] in
  let bad : EncDatumRow := [Ok ["c"%byte]] in
  List.length bad <> 2%nat /\
  sstWriterRun (Ok newMemSst) refKeyString refChecksum noWriteErr noStorageErr
    (fun _ => None) None None (fun _ => Ok NeedMoreRows)
    "nodelocal:///out" "1.sst" 1000 (rowsOf good ++ Ok bad :: []) []
  = (Some (errNew ("expected 2 datums, got " ++ fmt_d (len bad))),
     mkSstWriterState [] [] []).
Proof.
  cbv zeta. split; [discriminate|].
  apply (sstWriterRun_rejects_wrong_width (Ok newMemSst) refKeyString refChecksum
           noWriteErr noStorageErr (fun _ => None) None None (fun _ => Ok NeedMoreRows)
           "nodelocal:///out" "1.sst" 1000
           [(["a"%byte], ["1"%byte]); (["b"%byte], ["2"%byte])] [Ok ["c"%byte]] [] []).
  - intros n _. reflexivity.
  - discriminate.
Defined.

(** Three rows for the reference table, a maximum of one byte per
    segment: three records, three KVs, three segments, then the
    descriptor. *)
Lemma doLocalCSVTransform_success_witness :
  let rows := [["1"; "10"]; ["2"; "20"]; ["3"; "30"]] in
  let run :=
    doLocalCSVTransform (refOpenCSV rows) background (Ok newMemSst) refKeyString
      background None None refChecksum noWriteErr noStorageErr refTableSpan refMarshal
      refBackupDescriptorName 1 "v1" refConvertRecords 0 inOrder 50 refTableDesc
      "nodelocal:///out" ["nodelocal:///t.csv"] 0 0 None 1 1000 None [] in
  (forall g, In g inOrder) /\
  (let '(csvCount, kvCount, sstCount, err, bs) := run in
   err = None /\ csvCount = 3 /\ kvCount = 3 /\ sstCount = 3 /\
   map fst (es bs) = ["1.sst"; "2.sst"; "3.sst"; refBackupDescriptorName]) /\
  (let '(csvCount, kvCount, sstCount, err, bs) := run in
   err = None ->
   exists records kvCh segs descBuf,
     Forall (wellFormedRecord (len (VisibleColumns refTableDesc))
               ["nodelocal:///t.csv"]) records /\
     refConvertRecords None refTableDesc records = (kvCh, None) /\
     csvCount = len records /\ kvCount = len kvCh /\ sstCount = len segs /\
     1 <= kvCount /\ 1 <= sstCount /\
     segmentsInOrder segs /\
     es bs = ([] ++ segmentFiles 1 segs
                 ++ [(refBackupDescriptorName, descBuf)])%list).
Proof.
  cbv zeta.
  assert (Hall : forall g, In g inOrder).
  { intros []; unfold inOrder; cbn; auto. }
  split; [exact Hall|]. split; [vm_compute; repeat split|].
  apply (doLocalCSVTransform_success (refOpenCSV [["1"; "10"]; ["2"; "20"]; ["3"; "30"]])
           background (Ok newMemSst) refKeyString
           background None None refChecksum noWriteErr noStorageErr refTableSpan refMarshal
           refBackupDescriptorName 1 "v1" refConvertRecords 0 inOrder 50 refTableDesc
           "nodelocal:///out" ["nodelocal:///t.csv"] 0 0 None 1 1000 None [] Hall).
  intros sst0 H. injection H as <-. apply Z.le_refl.
Defined.

(** A data file without rows. *)
Lemma doLocalCSVTransform_fails_without_rows_witness :
  let run :=
    doLocalCSVTransform (refOpenCSV []) background (Ok newMemSst) refKeyString
      background None None refChecksum noWriteErr noStorageErr refTableSpan refMarshal
      refBackupDescriptorName 1 "v1" refConvertRecords 0 inOrder 50 refTableDesc
      "nodelocal:///out" ["nodelocal:///t.csv"] 0 0 None 1024 1000 None [] in
  In gFinalizer inOrder /\
  snd (fst run) = Some (errNew "no files in backup") /\
  (let '(csvCount, kvCount, sstCount, err, bs) := run in
   err <> None /\ sstCount = 0 /\ es bs = []).
Proof.
  cbv zeta. split; [right; right; right; left; reflexivity|].
  split; [reflexivity|].
  apply (doLocalCSVTransform_fails_without_rows (refOpenCSV [])
           background (Ok newMemSst) refKeyString
           background None None refChecksum noWriteErr noStorageErr refTableSpan refMarshal
           refBackupDescriptorName 1 "v1" refConvertRecords 0 inOrder 50 refTableDesc
           "nodelocal:///out" ["nodelocal:///t.csv"] 0 0 None 1024 1000 None []).
  - right; right; right; left; reflexivity.
  - intros sst0 H. injection H as <-. apply Z.le_refl.
  - reflexivity.
Defined.

(** IMPORT of one file with the options temp and delimiter, under a
    sanitizer that marks what it has cleaned. *)
Lemma importJobDescription_sanitizes_uris_witness :
  let sanitize := fun uri : string => Ok ("clean:" ++ uri) : result string in
  let print := fun (stmt : Import) (files : list string) (options : list KVOption) =>
                 String.concat "," (importTable stmt :: files ++ map optKey options)%list in
  let orig := mkImport "t" (Some "nodelocal:///t.sql") None "CSV" in
  let files := ["s3://bucket/t.csv?KEY=secret"] in
  let opts := [("temp", "s3://bucket/tmp?KEY=secret"); ("delimiter", "|")] in
  exists desc,
    JobDescription.importJobDescription sanitize print orig (Defs refCreate) files opts
      = Ok desc /\
    exists stmt files' options,
      desc = print stmt files' options /\
      CreateFile stmt = None /\
      Forall2 (fun file clean => sanitize file = Ok clean) files files' /\
      (forall o, In o options -> optKey o = importOptionTemp ->
                 exists v clean,
                   In (importOptionTemp, v) opts /\ sanitize v = Ok clean /\
                   optValue o = Some clean).
Proof.
  cbv zeta. eexists. split; [reflexivity|].
  apply (importJobDescription_sanitizes_uris
           (fun uri : string => Ok ("clean:" ++ uri))
           (fun (stmt : Import) (files : list string) (options : list KVOption) =>
              String.concat "," (importTable stmt :: files ++ map optKey options)%list)
           (mkImport "t" (Some "nodelocal:///t.sql") None "CSV") (Defs refCreate)
           ["s3://bucket/t.csv?KEY=secret"]
           [("temp", "s3://bucket/tmp?KEY=secret"); ("delimiter", "|")]).
  reflexivity.
Defined.

(** The same import: its description lists delimiter, temp and
    transform_only, in this order. *)
Lemma importJobDescription_options_witness :
  let sanitize := fun uri : string => Ok ("clean:" ++ uri) : result string in
  let print := fun (stmt : Import) (files : list string) (options : list KVOption) =>
                 String.concat "," (importTable stmt :: files ++ map optKey options)%list in
  let orig := mkImport "t" (Some "nodelocal:///t.sql") None "CSV" in
  let files := ["s3://bucket/t.csv?KEY=secret"] in
  let opts := [("temp", "s3://bucket/tmp?KEY=secret"); ("delimiter", "|")] in
  NoDup (map fst opts) /\
  JobDescription.importJobDescription sanitize print orig (Defs refCreate) files opts
    = Ok "t,clean:s3://bucket/t.csv?KEY=secret,delimiter,temp,transform_only" /\
  exists stmt files' options,
    "t,clean:s3://bucket/t.csv?KEY=secret,delimiter,temp,transform_only"
      = print stmt files' options /\
    optionsSorted options /\
    (forall k, In k (map optKey options) <->
               k = importOptionTransformOnly \/ In k (map fst opts)) /\
    Forall (fun o => optValue o <> None <-> importOptionExpectValues (optKey o) = true)
           options.
Proof.
  cbv zeta.
  assert (Hnodup : NoDup (map fst [("temp", "s3://bucket/tmp?KEY=secret");
                                   ("delimiter", "|")])).
  { constructor; [|constructor; [|constructor]].
    - intros [H|[]]. discriminate H.
    - intros []. }
  split; [exact Hnodup|]. split; [reflexivity|].
  apply (importJobDescription_options
           (fun uri : string => Ok ("clean:" ++ uri))
           (fun (stmt : Import) (files : list string) (options : list KVOption) =>
              String.concat "," (importTable stmt :: files ++ map optKey options)%list)
           (mkImport "t" (Some "nodelocal:///t.sql") None "CSV") (Defs refCreate)
           ["s3://bucket/t.csv?KEY=secret"]
           [("temp", "s3://bucket/tmp?KEY=secret"); ("delimiter", "|")]
           _ Hnodup).
  reflexivity.
Defined.

(** The options met in the other order. *)
Lemma importJobDescription_order_independent_witness :
  let sanitize := fun uri : string => Ok ("clean:" ++ uri) : result string in
  let print := fun (stmt : Import) (files : list string) (options : list KVOption) =>
                 String.concat "," (importTable stmt :: files ++ map optKey options)%list in
  let orig := mkImport "t" (Some "nodelocal:///t.sql") None "CSV" in
  let files := ["s3://bucket/t.csv?KEY=secret"] in
  let opts := [("temp", "s3://bucket/tmp?KEY=secret"); ("delimiter", "|")] in
  let opts' := [("delimiter", "|"); ("temp", "s3://bucket/tmp?KEY=secret")] in
  NoDup (map fst opts) /\ Permutation opts opts' /\
  JobDescription.importJobDescription sanitize print orig (Defs refCreate) files opts
  = JobDescription.importJobDescription sanitize print orig (Defs refCreate) files opts'.
Proof.
  cbv zeta.
  assert (Hnodup : NoDup (map fst [("temp", "s3://bucket/tmp?KEY=secret");
                                   ("delimiter", "|")])).
  { constructor; [|constructor; [|constructor]].
    - intros [H|[]]. discriminate H.
    - intros []. }
  split; [exact Hnodup|]. split; [apply perm_swap|].
  apply (importJobDescription_order_independent
           (fun uri : string => Ok ("clean:" ++ uri))
           (fun (stmt : Import) (files : list string) (options : list KVOption) =>
              String.concat "," (importTable stmt :: files ++ map optKey options)%list)
           (mkImport "t" (Some "nodelocal:///t.sql") None "CSV") (Defs refCreate)
           ["s3://bucket/t.csv?KEY=secret"] _ _ Hnodup).
  apply perm_swap.
Defined.

(** Two rows for the reference table, the second with a null field. *)
Lemma convertRecord_sends_the_kvs_of_every_record_witness :
  let records := numberRows "nodelocal:///t.csv" 1 [["1"; "10"]; ["2"; "NULL"]] in
  let kv := fun (k v : string) =>
              mkKeyValue (list_byte_of_string k)
                (mkValue (list_byte_of_string v) (mkTimestamp 0 0)) in
  Forall (fun record =>
            recordKVs refParseStringAs (fun _ ds => Ok ds) refInsertRow (Some "NULL")
              refTableDesc record <> None) records /\
  convertRecord refQuote (fun _ => None) (fun _ => None) refParseStringAs colType
    (fun _ ds => Ok ds) refInsertRow background (Some "NULL") refTableDesc records []
  = (Returned None, mkConverterState [kv "1" "10"; kv "2" "NULL"] 2).
Proof.
  cbv zeta.
  assert (Hall : Forall (fun record =>
                   recordKVs refParseStringAs (fun _ ds => Ok ds) refInsertRow
                     (Some "NULL") refTableDesc record <> None)
                   (numberRows "nodelocal:///t.csv" 1 [["1"; "10"]; ["2"; "NULL"]])).
  { repeat constructor; discriminate. }
  split; [exact Hall|].
  pose proof (convertRecord_sends_the_kvs_of_every_record refQuote (fun _ => None)
                (fun _ => None) refParseStringAs colType (fun _ ds => Ok ds)
                refInsertRow background (Some "NULL") refTableDesc
                (numberRows "nodelocal:///t.csv" 1 [["1"; "10"]; ["2"; "NULL"]]) []
                (fun n => eq_refl) eq_refl eq_refl Hall) as H.
  destruct (convertRecord _ _ _ _ _ _ _ _ _ _ _ _) as [res s] eqn:Hrun.
  destruct H as [-> Hsent]. destruct s as [sent polls]. cbn [kvCh] in Hsent.
  rewrite Hsent.
  apply (f_equal (fun x => converterPolls (snd x))) in Hrun.
  cbn [snd converterPolls] in Hrun. rewrite <- Hrun. reflexivity.
Defined.

(** The second field of the second of three rows is not a numeral. *)
Lemma convertRecord_parse_error_names_file_row_and_column_witness :
  let records := numberRows "nodelocal:///t.csv" 1 [["1"; "10"]; ["2"; "x"]; ["3"; "30"]] in
  let kv := fun (k v : string) =>
              mkKeyValue (list_byte_of_string k)
                (mkValue (list_byte_of_string v) (mkTimestamp 0 0)) in
  refParseStringAs (mkColumnDescriptor "c2" 2 "INT" None false) "x"
    = Err (errNew "could not parse x") /\
  let '(res, s) :=
    convertRecord refQuote (fun _ => None) (fun _ => None) refParseStringAs colType
      (fun _ ds => Ok ds) refInsertRow background None refTableDesc records [] in
  res = Returned
          (Some (errWrap (errNew "could not parse x")
                   ("nodelocal:///t.csv" ++ ": row " ++ fmt_d 2 ++ ": parse "
                    ++ refQuote "c2" ++ " as " ++ "INT"))) /\
  kvCh s = [kv "1" "10"].
Proof.
  cbv zeta. split; [reflexivity|].
  apply (convertRecord_parse_error_names_file_row_and_column refQuote (fun _ => None)
           (fun _ => None) refParseStringAs colType (fun _ ds => Ok ds)
           refInsertRow background None refTableDesc
           (numberRows "nodelocal:///t.csv" 1 [["1"; "10"]])
           (mkCsvRecord ["2"; "x"] "nodelocal:///t.csv" 2)
           (numberRows "nodelocal:///t.csv" 3 [["3"; "30"]])
           ["2"] "x" []
           [mkColumnDescriptor "c1" 1 "INT" None false]
           (mkColumnDescriptor "c2" 2 "INT" None false) []
           (errNew "could not parse x") []
           (fun n => eq_refl) eq_refl eq_refl).
  - repeat constructor; discriminate.
  - reflexivity.
  - reflexivity.
  - discriminate.
  - reflexivity.
  - reflexivity.
Defined.

(** A record of three fields for the table of two columns. *)
Lemma convertRecord_panics_on_wide_record_witness :
  let records :=
    [mkCsvRecord ["1"; "10"] "nodelocal:///t.csv" 1;
     mkCsvRecord ["2"; "20"; "200"] "nodelocal:///t.csv" 2] in
  recordDatums refParseStringAs None (VisibleColumns refTableDesc) ["2"; "20"] <> None /\
  fst (convertRecord refQuote (fun _ => None) (fun _ => None) refParseStringAs colType
         (fun _ ds => Ok ds) refInsertRow background None refTableDesc records [])
  = Panicked.
Proof.
  cbv zeta. split; [discriminate|].
  apply (convertRecord_panics_on_wide_record refQuote (fun _ => None)
           (fun _ => None) refParseStringAs colType (fun _ ds => Ok ds)
           refInsertRow background None refTableDesc
           [mkCsvRecord ["1"; "10"] "nodelocal:///t.csv" 1]
           (mkCsvRecord ["2"; "20"; "200"] "nodelocal:///t.csv" 2) []
           ["2"; "20"] "200" [] []
           (fun n => eq_refl) eq_refl eq_refl).
  - repeat constructor; discriminate.
  - reflexivity.
  - discriminate.
Defined.
